(** * deep-copytrader: order ingestion, de-duplication and dashboard

    A shallow embedding of the wallet registry and the order-ingestion
    pipeline of the copy trader ([src/enhanced-copytrader.js],
    [polymarket-api.js], [config.js], [server.js]) together with the
    properties the specification states about them.

    Conventions of the embedding.
    - A JavaScript string is a [string]; every character stands for one
      code unit in the range 0..255 (ISO-8859-1), a range that
      [String.prototype.toLowerCase] maps into itself.
    - The insertion-ordered [Map] that holds the watched wallets is an
      association list ([JsMap]); iteration order is list order.
    - Trade objects are shared between a wallet's [trades] array and the
      global [tradeHistory] array, so they live in an object store
      ([tradeObjects]) and both arrays hold references (indices).
    - A method either returns or throws; both leave a state behind
      ([Completion]).
    - [Date.now()] and [new Date()] read a clock that is passed in as
      [now]; counters are integers; the doubles produced by [parseFloat]
      and the strings produced by [toFixed] are kept symbolic. *)

From Stdlib Require Import ZArith Bool Ascii String List Lia.
From stdpp Require Import base list.
Import ListNotations.

Local Open Scope string_scope.
Local Open Scope list_scope.

(** ** JavaScript strings *)

Module Js.

(** [c.toLowerCase()] for one code unit: A-Z, and the Latin-1 capitals
    U+00C0..U+00DE without the multiplication sign U+00D7. *)
Definition isUpperUnit (c : ascii) : bool :=
  let n := nat_of_ascii c in
  ((65 <=? n)%nat && (n <=? 90)%nat)
  || ((192 <=? n)%nat && (n <=? 222)%nat && negb (n =? 215)%nat).

Definition lowerUnit (c : ascii) : ascii :=
  if isUpperUnit c then ascii_of_nat (nat_of_ascii c + 32) else c.

Fixpoint toLowerCase (s : string) : string :=
  match s with
  | EmptyString => EmptyString
  | String c rest => String (lowerUnit c) (toLowerCase rest)
  end.

(** [s.substring(0, n)] *)
Fixpoint substring0 (n : nat) (s : string) : string :=
  match n, s with
  | S k, String c rest => String c (substring0 k rest)
  | _, _ => EmptyString
  end.

(** Two code units that are the same letter, possibly in different case. *)
Definition sameLetter (c d : ascii) : Prop :=
  c = d
  \/ (isUpperUnit c = true /\ nat_of_ascii d = nat_of_ascii c + 32)
  \/ (isUpperUnit d = true /\ nat_of_ascii c = nat_of_ascii d + 32).

(** Two strings that differ at most in the case of their letters. *)
Fixpoint sameIgnoringCase (a b : string) : Prop :=
  match a, b with
  | EmptyString, EmptyString => True
  | String c a', String d b' => sameLetter c d /\ sameIgnoringCase a' b'
  | _, _ => False
  end.

(** What a [throw] carries. *)
Inductive Error : Type :=
  | ApiError (status : nat)          (* new Error(`API error: ${status}`) *)
  | FetchFailed                      (* fetch() rejected: transport error *)
  | SyntaxError                      (* response.json() on a malformed body *)
  | TypeError (message : string).

(** The state a method leaves behind, and how it completed. *)
Inductive Completion (S : Type) : Type :=
  | Returned (s : S)
  | Threw (e : Error) (s : S).
Arguments Returned {S} s.
Arguments Threw {S} e s.

Definition stateOf {S : Type} (c : Completion S) : S :=
  match c with Returned s => s | Threw _ s => s end.

Definition returned {S : Type} (c : Completion S) : bool :=
  match c with Returned _ => true | Threw _ _ => false end.

(** [xs.forEach(f)]: an exception thrown by [f] ends the loop. *)
Fixpoint forEach {A S : Type} (f : A -> S -> Completion S) (xs : list A) (s : S)
  : Completion S :=
  match xs with
  | [] => Returned s
  | x :: rest =>
      match f x s with
      | Returned s' => forEach f rest s'
      | Threw e s' => Threw e s'
      end
  end.

(** The names [Object.prototype] defines; a plain object answers to
    them although it does not hold them. *)
Definition objectPrototypeMembers : list string :=
  [ "constructor"; "__defineGetter__"; "__defineSetter__"; "hasOwnProperty";
    "__lookupGetter__"; "__lookupSetter__"; "isPrototypeOf";
    "propertyIsEnumerable"; "toString"; "valueOf"; "__proto__";
    "toLocaleString" ].

Definition isPrototypeMember (key : string) : bool :=
  existsb (String.eqb key) objectPrototypeMembers.

(** What a field that is meant to hold a string can hold: a string, or
    the member of [Object.prototype] of the given name (a function; for
    [__proto__] the prototype object). Such a member counts as true. *)
Inductive Value : Type :=
  | Str (s : string)
  | ProtoMember (name : string).

(** [object[key]] for an object literal with the given string fields:
    its own field, else what [Object.prototype] has under that name,
    else [undefined] ([None]). *)
Definition lookupPlain (own : list (string * string)) (key : string)
  : option Value :=
  match List.find (fun field => String.eqb (fst field) key) own with
  | Some field => Some (Str (snd field))
  | None => if isPrototypeMember key then Some (ProtoMember key) else None
  end.

(** A double obtained by [parseFloat(raw)]; the value stays symbolic. *)
Inductive Number : Type := ParseFloat (raw : string).

(** A [Date]: [new Date(raw)] or [new Date()] at clock reading [ms]. *)
Inductive Date : Type := DateOf (raw : string) | DateAt (ms : Z).

End Js.

(** ** The insertion-ordered Map *)

Module JsMap.

Section Ops.
Context {V : Type}.

(** [m.get(k)] *)
Fixpoint get (k : string) (m : list (string * V)) : option V :=
    match m with
    | [] => None
    | (k', v) :: rest => if String.eqb k' k then Some v else get k rest
    end.

(** [m.set(k, v)]: an existing key keeps its position, a new key goes
      to the end. *)
Fixpoint set (k : string) (v : V) (m : list (string * V)) : list (string * V) :=
    match m with
    | [] => [(k, v)]
    | (k', v') :: rest =>
        if String.eqb k' k then (k', v) :: rest else (k', v') :: set k v rest
    end.

(** [m.delete(k)] *)
Fixpoint delete (k : string) (m : list (string * V)) : list (string * V) :=
    match m with
    | [] => []
    | (k', v) :: rest =>
        if String.eqb k' k then delete k rest else (k', v) :: delete k rest
    end.

(** A write through the object [m.get(k)]: the entry that [get] finds
      is changed where it is. *)
Fixpoint adjust (f : V -> V) (k : string) (m : list (string * V))
    : list (string * V) :=
    match m with
    | [] => []
    | (k', v) :: rest =>
        if String.eqb k' k then (k', f v) :: rest else (k', v) :: adjust f k rest
    end.

Definition keys (m : list (string * V)) : list string := map fst m.
Definition values (m : list (string * V)) : list V := map snd m.

(** Keys of a Map are pairwise different. *)
Definition ok (m : list (string * V)) : Prop := NoDup (keys m).
End Ops.

End JsMap.

(** ** The market data client ([polymarket-api.js], [config.js]) *)

Module RawOrder.
(** One element of the JSON array the venue returns, and the payload of
    a push event: [id, trader, token, price, size, side, status,
    createdAt, filled]; [filled] may be absent. *)
Record t : Type := mk {
  id : string;
  trader : string;
  token : string;
  price : string;
  size : string;
  side : string;
  status : string;
  createdAt : string;
  filled : option string
}.
End RawOrder.

Module Order.
(** The object [parseOrders] builds. *)
Record t : Type := mk {
  id : string;
  trader : string;
  token : string;
  price : Js.Number;
  size : Js.Number;
  side : string;
  status : string;
  market : Js.Value;
  createdAt : Js.Date;
  filledAmount : Js.Number;
  rawData : RawOrder.t
}.
End Order.

Module Config.
Definition pollInterval : Z := 10000.
Definition testMode : bool := true.
(** The fields of the object literal [config.tokenToMarketMap]. *)
Definition tokenToMarketMap : list (string * string) :=
  [ ("0x...token1", "US Election 2024 - Winner");
    ("0x...token2", "BTC Price 2025") ].
End Config.

Module Api.

(** What [response.json()] can find in the body. *)
Inductive Body : Type :=
  | Malformed
  | NotAnArray
  | OrderArray (orders : list RawOrder.t).

(** What [await fetch(url)] yields. *)
Inductive FetchResult : Type :=
  | Rejected
  | Response (status : nat) (body : Body).

(** [response.ok]: the status is in the range 200-299. *)
Definition ok (status : nat) : bool := (200 <=? status)%nat && (status <=? 299)%nat.

(** The network: the result of GET [/orders?trader=<address>]. *)
Definition Network : Type := string -> FetchResult.

(** [config.tokenToMarketMap[tokenId] || `Market: ${tokenId.substring(0, 8)}...`]:
    the table is a plain object, so a token that names a member of
    [Object.prototype] finds that member; an empty label is falsy. *)
Definition extractMarketFromToken (tokenId : string) : Js.Value :=
  match Js.lookupPlain Config.tokenToMarketMap tokenId with
  | Some (Js.Str label) =>
      if String.eqb label ""
      then Js.Str ("Market: " ++ Js.substring0 8 tokenId ++ "...")
      else Js.Str label
  | Some (Js.ProtoMember name) => Js.ProtoMember name
  | None => Js.Str ("Market: " ++ Js.substring0 8 tokenId ++ "...")
  end.

(** [parseFloat(order.filled || 0)] *)
Definition filledOrZero (filled : option string) : string :=
  match filled with
  | Some s => if String.eqb s "" then "0" else s
  | None => "0"
  end.

Definition parseOrder (order : RawOrder.t) : Order.t :=
  Order.mk (RawOrder.id order) (RawOrder.trader order) (RawOrder.token order)
    (Js.ParseFloat (RawOrder.price order)) (Js.ParseFloat (RawOrder.size order))
    (RawOrder.side order) (RawOrder.status order)
    (extractMarketFromToken (RawOrder.token order))
    (Js.DateOf (RawOrder.createdAt order))
    (Js.ParseFloat (filledOrZero (RawOrder.filled order)))
    order.

Definition parseOrders (orders : list RawOrder.t) : list Order.t :=
  map parseOrder orders.

(** The body of the [try] block of [getWalletOrders]: every statement
    either goes on or throws. *)
Definition tryGetWalletOrders (net : Network) (walletAddress : string)
  : Js.Error + list Order.t :=
  match net (Js.toLowerCase walletAddress) with
  | Rejected => inl Js.FetchFailed
  | Response status body =>
      if negb (ok status) then inl (Js.ApiError status)
      else match body with
           | Malformed => inl Js.SyntaxError
           | NotAnArray => inl (Js.TypeError "orders.map is not a function")
           | OrderArray orders => inr (parseOrders orders)
           end
  end.

(** [getWalletOrders]: the [catch] block logs the error and returns an
    empty array. *)
Definition getWalletOrders (net : Network) (walletAddress : string)
  : list Order.t :=
  match tryGetWalletOrders net walletAddress with
  | inl _ => []
  | inr orders => orders
  end.

End Api.

(** ** The copy trader ([enhanced-copytrader.js]) *)

Module Trade.
(** The object [createTradeRecord] builds; [updatedAt] is absent until
    [updateOrderStatus] sets it. *)
Record t : Type := mk {
  id : string;
  wallet : string;
  nickname : string;
  market : Js.Value;
  side : string;
  size : Js.Number;
  price : Js.Number;
  status : string;
  token : string;
  createdAt : Js.Date;
  detectedAt : Js.Date;
  testMode : bool;
  pnl : Z;
  outcome : string;
  updatedAt : option Js.Date
}.

(** [trade.status = status; trade.updatedAt = new Date()] *)
Definition setStatus (status' : string) (now : Z) (x : t) : t :=
  mk (id x) (wallet x) (nickname x) (market x) (side x) (size x) (price x)
     status' (token x) (createdAt x) (detectedAt x) (testMode x) (pnl x)
     (outcome x) (Some (Js.DateAt now)).
End Trade.

Module Wallet.
(** The object [addWallet] builds; [trades] holds references into the
    trade store. *)
Record t : Type := mk {
  nickname : string;
  address : string;
  active : bool;
  lastChecked : Z;
  trades : list nat
}.

(** [wallet.trades.push(trade)] *)
Definition pushTrade (ref : nat) (w : t) : t :=
  mk (nickname w) (address w) (active w) (lastChecked w) (trades w ++ [ref]).

(** [wallet.active = active] *)
Definition setActive (flag : bool) (w : t) : t :=
  mk (nickname w) (address w) flag (lastChecked w) (trades w).
End Wallet.

Module Stats.
Record t : Type := mk {
  totalTrades : Z;
  profitableTrades : Z;
  totalPnl : Z;
  activeTrades : Z
}.
End Stats.

Module Enhanced.

(** The fields of an [EnhancedCopyTrader], with the store of the trade
    objects it has created. *)
Record State : Type := mkState {
  copiedWallets : list (string * Wallet.t);
  tradeObjects : list Trade.t;
  tradeHistory : list nat;
  isMonitoring : bool;
  testMode : bool;
  stats : Stats.t
}.

(** [new EnhancedCopyTrader()] *)
Definition constructor : State :=
  mkState [] [] [] false Config.testMode (Stats.mk 0 0 0 0).

(** [wallet.trades.find(t => t.id === orderId)] *)
Definition findTrade (objects : list Trade.t) (orderId : string) (refs : list nat)
  : option nat :=
  List.find (fun ref =>
               match objects !! ref with
               | Some x => String.eqb (Trade.id x) orderId
               | None => false
               end) refs.

(** Lines 23-32 of [addWallet]: the record is built and stored under the
    lower-cased address. *)
Definition registerWallet (now : Z) (walletAddress nickname : string) (st : State)
  : State :=
  let walletData :=
    Wallet.mk nickname (Js.toLowerCase walletAddress) true now [] in
  mkState (JsMap.set (Js.toLowerCase walletAddress) walletData (copiedWallets st))
          (tradeObjects st) (tradeHistory st) (isMonitoring st) (testMode st)
          (stats st).

(** [this.copiedWallets.get(order.trader.toLowerCase())?.nickname || 'Unknown'] *)
Definition nicknameOf (st : State) (trader : string) : string :=
  match JsMap.get (Js.toLowerCase trader) (copiedWallets st) with
  | Some w => if String.eqb (Wallet.nickname w) "" then "Unknown"
              else Wallet.nickname w
  | None => "Unknown"
  end.

Definition createTradeRecord (now : Z) (order : Order.t) (st : State) : Trade.t :=
  Trade.mk (Order.id order) (Order.trader order)
    (nicknameOf st (Order.trader order))
    (Order.market order) (Order.side order) (Order.size order)
    (Order.price order) (Order.status order) (Order.token order)
    (Order.createdAt order) (Js.DateAt now) (testMode st) 0 "PENDING" None.

(** The new-order branch up to [displayTrade]: the trade object is
    allocated, pushed on the wallet's array and on the history, and the
    counters are bumped. *)
Definition recordTrade (now : Z) (order : Order.t) (st : State) : State :=
  let ref := length (tradeObjects st) in
  let key := Js.toLowerCase (Order.trader order) in
  mkState (JsMap.adjust (Wallet.pushTrade ref) key (copiedWallets st))
          (tradeObjects st ++ [createTradeRecord now order st])
          (tradeHistory st ++ [ref])
          (isMonitoring st) (testMode st)
          (Stats.mk (Stats.totalTrades (stats st) + 1)
                    (Stats.profitableTrades (stats st))
                    (Stats.totalPnl (stats st))
                    (if String.eqb (Order.status order) "OPEN"
                     then Stats.activeTrades (stats st) + 1
                     else Stats.activeTrades (stats st))).

(** [processOrder]. The class defines neither [updateTrade] nor
    [executeCopyTrade], so calling them throws a TypeError. *)
Definition processOrder (now : Z) (order : Order.t) (st : State)
  : Js.Completion State :=
  match JsMap.get (Js.toLowerCase (Order.trader order)) (copiedWallets st) with
  | None => Js.Returned st
  | Some wallet =>
      match findTrade (tradeObjects st) (Order.id order) (Wallet.trades wallet) with
      | None =>
          let st' := recordTrade now order st in
          if testMode st then Js.Returned st'
          else Js.Threw (Js.TypeError "this.executeCopyTrade is not a function") st'
      | Some existingTrade =>
          Js.Threw (Js.TypeError "this.updateTrade is not a function") st
      end
  end.

(** [pollWalletOrders]; the returned array is not used by any caller. *)
Definition pollWalletOrders (now : Z) (net : Api.Network) (walletAddress : string)
  (st : State) : Js.Completion State :=
  Js.forEach (processOrder now) (Api.getWalletOrders net walletAddress) st.

(** [startMonitoring]: the flag; the timer it starts is [pollingTick],
    the socket callback is [onSocketMessage]. *)
Definition startMonitoring (st : State) : State :=
  mkState (copiedWallets st) (tradeObjects st) (tradeHistory st) true
          (testMode st) (stats st).

Definition addWallet (now : Z) (net : Api.Network) (walletAddress nickname : string)
  (st : State) : Js.Completion State :=
  match pollWalletOrders now net walletAddress
          (registerWallet now walletAddress nickname st) with
  | Js.Returned st' =>
      Js.Returned (if isMonitoring st' then st' else startMonitoring st')
  | Js.Threw e st' => Js.Threw e st'
  end.

(** The loop of the interval callback in [startPolling], over the
    entries of the Map as the loop meets them; the result carries the
    addresses that were polled, in order. Polling changes neither the
    keys nor the [active] flags, so the entries are those at the start
    of the tick. *)
Fixpoint sweep (now : Z) (net : Api.Network) (entries : list (string * Wallet.t))
  (st : State) (polled : list string) : Js.Completion State * list string :=
  match entries with
  | [] => (Js.Returned st, polled)
  | (address, wallet) :: rest =>
      if Wallet.active wallet then
        match pollWalletOrders now net address st with
        | Js.Returned st' => sweep now net rest st' (polled ++ [address])
        | Js.Threw e st' => (Js.Threw e st', polled ++ [address])
        end
      else sweep now net rest st polled
  end.

Definition pollingTick (now : Z) (net : Api.Network) (st : State)
  : Js.Completion State * list string :=
  sweep now net (copiedWallets st) st [].

(** The first trade object with the given id, searching the wallets in
    Map order: the loop of [updateOrderStatus] up to its [break]. *)
Fixpoint findInWallets (objects : list Trade.t) (orderId : string)
  (entries : list (string * Wallet.t)) : option nat :=
  match entries with
  | [] => None
  | (_, wallet) :: rest =>
      match findTrade objects orderId (Wallet.trades wallet) with
      | Some ref => Some ref
      | None => findInWallets objects orderId rest
      end
  end.

(** [updateOrderStatus]. The trade object is written first; then
    [this.updateDashboard()] is called, which the class does not define
    ([updateDashboard] is a function of the module, not a method). *)
Definition updateOrderStatus (now : Z) (orderId status : string) (st : State)
  : Js.Completion State :=
  match findInWallets (tradeObjects st) orderId (copiedWallets st) with
  | None => Js.Returned st
  | Some ref =>
      Js.Threw (Js.TypeError "this.updateDashboard is not a function")
        (mkState (copiedWallets st)
                 (alter (Trade.setStatus status now) ref (tradeObjects st))
                 (tradeHistory st) (isMonitoring st) (testMode st)
                 (Stats.mk (Stats.totalTrades (stats st))
                           (Stats.profitableTrades (stats st))
                           (Stats.totalPnl (stats st))
                           (if String.eqb status "FILLED"
                            then Stats.activeTrades (stats st) - 1
                            else Stats.activeTrades (stats st))))
  end.

(** A decoded push event: its [type] and the order fields it carries. *)
Record Message : Type := mkMessage {
  type : string;
  data : RawOrder.t
}.

Definition handleWebSocketMessage (now : Z) (msg : Message) (st : State)
  : Js.Completion State :=
  if String.eqb (type msg) "order_created" || String.eqb (type msg) "order_updated"
  then processOrder now (Api.parseOrder (data msg)) st
  else if String.eqb (type msg) "order_filled"
  then updateOrderStatus now (RawOrder.id (data msg)) "FILLED" st
  else if String.eqb (type msg) "order_cancelled"
  then updateOrderStatus now (RawOrder.id (data msg)) "CANCELLED" st
  else Js.Returned st.

(** What arrives on the socket: text that [JSON.parse] rejects, or an
    event. *)
Inductive Frame : Type := Unparsable | Event (msg : Message).

(** The ['message'] handler of [connectWebSocket] with the callback of
    [startWebSocket]: whatever is thrown is caught and logged. *)
Definition onSocketMessage (now : Z) (frame : Frame) (st : State) : State :=
  match frame with
  | Unparsable => st
  | Event msg => Js.stateOf (handleWebSocketMessage now msg st)
  end.

(** The value of [successRate]: the number literal [0], or the string
    [(profitable / total * 100).toFixed(1)]. *)
Inductive Rate : Type :=
  | RateNumber (n : Z)
  | RateFixed1 (profitable total : nat).

(** The string [sum.toFixed(2)]. *)
Inductive Amount : Type := AmountFixed2 (sum : Z).

Record WalletView : Type := mkWalletView {
  v_nickname : string;
  v_address : string;
  v_active : bool;
  v_trades : nat;
  v_profitable : nat;
  v_successRate : Rate;
  v_pnl : Amount
}.

Record Dashboard : Type := mkDashboard {
  d_wallets : list WalletView;
  d_stats : Stats.t;
  d_totalWallets : nat;
  d_testMode : bool;
  d_lastUpdated : Js.Date
}.

(** [wallet.trades.filter(t => t.pnl > 0)] *)
Definition profitableTrades (objects : list Trade.t) (refs : list nat) : list nat :=
  List.filter (fun ref =>
                 match objects !! ref with
                 | Some x => (0 <? Trade.pnl x)%Z
                 | None => false
                 end) refs.

(** [wallet.trades.reduce((sum, t) => sum + t.pnl, 0)] *)
Definition sumPnl (objects : list Trade.t) (refs : list nat) : Z :=
  fold_left (fun sum ref =>
               match objects !! ref with
               | Some x => (sum + Trade.pnl x)%Z
               | None => sum
               end) refs 0%Z.

Definition walletView (objects : list Trade.t) (wallet : Wallet.t) : WalletView :=
  mkWalletView (Wallet.nickname wallet) (Wallet.address wallet)
    (Wallet.active wallet)
    (length (Wallet.trades wallet))
    (length (profitableTrades objects (Wallet.trades wallet)))
    (if (0 <? length (Wallet.trades wallet))%nat
     then RateFixed1 (length (profitableTrades objects (Wallet.trades wallet)))
                     (length (Wallet.trades wallet))
     else RateNumber 0)
    (AmountFixed2 (sumPnl objects (Wallet.trades wallet))).

Definition getDashboardData (now : Z) (st : State) : Dashboard :=
  mkDashboard (map (walletView (tradeObjects st)) (JsMap.values (copiedWallets st)))
              (stats st) (length (copiedWallets st)) (testMode st) (Js.DateAt now).

Definition removeWallet (walletAddress : string) (st : State) : State :=
  mkState (JsMap.delete (Js.toLowerCase walletAddress) (copiedWallets st))
          (tradeObjects st) (tradeHistory st) (isMonitoring st) (testMode st)
          (stats st).

Definition setWalletActive (walletAddress : string) (active : bool) (st : State)
  : State :=
  match JsMap.get (Js.toLowerCase walletAddress) (copiedWallets st) with
  | Some _ =>
      mkState (JsMap.adjust (Wallet.setActive active)
                 (Js.toLowerCase walletAddress) (copiedWallets st))
              (tradeObjects st) (tradeHistory st) (isMonitoring st) (testMode st)
              (stats st)
  | None => st
  end.

(** The ids of the trade objects an array of references points to. *)
Definition tradeIds (objects : list Trade.t) (refs : list nat) : list string :=
  omap (fun ref => Trade.id <$> objects !! ref) refs.

(** How many trades of a wallet carry the given order id. *)
Definition countId (objects : list Trade.t) (orderId : string) (refs : list nat)
  : nat :=
  length (List.filter (String.eqb orderId) (tradeIds objects refs)).

(** The shape every state built by the methods has: the Map has distinct
    keys, every reference points into the trade store, no wallet holds
    two trades with one id, and a trade object is in the array of one
    wallet only. *)
Record wf (st : State) : Prop := mkWf {
  wf_keys : JsMap.ok (copiedWallets st);
  wf_refs : forall k w ref, (k, w) ∈ copiedWallets st ->
      ref ∈ Wallet.trades w -> ref < length (tradeObjects st);
  wf_history : forall ref, ref ∈ tradeHistory st ->
      ref < length (tradeObjects st);
  wf_ids : forall k w, (k, w) ∈ copiedWallets st ->
      NoDup (tradeIds (tradeObjects st) (Wallet.trades w));
  wf_owner : forall k1 w1 k2 w2 ref,
      (k1, w1) ∈ copiedWallets st -> (k2, w2) ∈ copiedWallets st ->
      ref ∈ Wallet.trades w1 -> ref ∈ Wallet.trades w2 -> k1 = k2
}.

(** The channels an order can arrive on: a poll, or a push event of
    type [order_created] or [order_updated]. *)
Inductive Channel : Type := Poll | PushCreated | PushUpdated.

(** One delivery of a raw order: a poll of the trader's address that
    returns just this order, or a push event carrying it. *)
Definition deliver (now : Z) (ch : Channel) (raw : RawOrder.t) (st : State) : State :=
  match ch with
  | Poll =>
      Js.stateOf (pollWalletOrders now
                    (fun _ => Api.Response 200 (Api.OrderArray [raw]))
                    (RawOrder.trader raw) st)
  | PushCreated =>
      onSocketMessage now (Event (mkMessage "order_created" raw)) st
  | PushUpdated =>
      onSocketMessage now (Event (mkMessage "order_updated" raw)) st
  end.

(** Deliveries one after the other, the clock advancing as given. *)
Fixpoint deliverAll (events : list (Z * Channel * RawOrder.t)) (st : State) : State :=
  match events with
  | [] => st
  | (now, ch, raw) :: rest => deliverAll rest (deliver now ch raw st)
  end.

(** State [s] after the wallet [old] of [st0] was replaced under [key]:
    the trade store and the history of [st0] are still there, no wallet
    of [s] holds a trade of [old], and [key] names an active wallet
    called [nick]. *)
Definition replaced (st0 : State) (old : Wallet.t) (key nick : string) (s : State)
  : Prop :=
  tradeObjects st0 `prefix_of` tradeObjects s
  /\ tradeHistory st0 `prefix_of` tradeHistory s
  /\ (forall k w ref, (k, w) ∈ copiedWallets s ->
        ref ∈ Wallet.trades old -> ref ∉ Wallet.trades w)
  /\ (exists w, JsMap.get key (copiedWallets s) = Some w /\
                Wallet.active w = true /\ Wallet.nickname w = nick).

(** The states the copy trader can be in. The steps are the pieces that
    run without interruption: [addWallet] is [registerWallet], then
    [pollWalletOrders], then [startMonitoring]; a tick of the timer is a
    run of [pollWalletOrders] calls; a step that throws leaves the
    state it had reached (the socket handler catches the error, the
    timer callback and [addWallet] reject). *)
Inductive reachable : State -> Prop :=
  | reach_constructor : reachable constructor
  | reach_register now a nick st :
      reachable st -> reachable (registerWallet now a nick st)
  | reach_poll now net a st :
      reachable st -> reachable (Js.stateOf (pollWalletOrders now net a st))
  | reach_startMonitoring st :
      reachable st -> reachable (startMonitoring st)
  | reach_socket now frame st :
      reachable st -> reachable (onSocketMessage now frame st)
  | reach_removeWallet a st :
      reachable st -> reachable (removeWallet a st)
  | reach_setWalletActive a flag st :
      reachable st -> reachable (setWalletActive a flag st).

End Enhanced.

(** ** The deployed server ([server.js]) *)

Module Server.

(** The trade object of [CopyTrader.processOrder]; it has no [pnl]
    property. *)
Record Trade : Type := mkTrade {
  t_id : string;
  t_wallet : string;
  t_nickname : string;
  t_market : Js.Value;
  t_side : string;
  t_size : Js.Number;
  t_price : Js.Number;
  t_status : string;
  t_createdAt : Js.Date;
  t_detectedAt : Js.Date;
  t_testMode : bool
}.

(** [t.pnl]: the property is absent ([undefined]) on every trade. *)
Definition t_pnl (x : Trade) : option Z := None.

(** [wallet.stats] *)
Record WalletStats : Type := mkWalletStats {
  s_trades : nat;
  s_profitable : nat;
  s_successRate : Enhanced.Rate;
  s_pnl : Enhanced.Amount + Z
}.

Record Wallet : Type := mkWallet {
  nickname : string;
  address : string;
  active : bool;
  lastChecked : Z;
  trades : list nat;
  wstats : WalletStats
}.

(** The module-level variables, the trade store, and whether the
    interval timer has been started ([this.pollInterval]). *)
Record State : Type := mkState {
  copiedWallets : list (string * Wallet);
  tradeObjects : list Trade;
  tradeHistory : list nat;
  stats : Stats.t;
  pollInterval : bool
}.

Definition initial : State := mkState [] [] [] (Stats.mk 0 0 0 0) false.

(** [this.baseURL/orders?trader=...] is queried as in the client above;
    [extractMarketFromToken] has no table here. *)
Definition extractMarketFromToken (tokenId : string) : string :=
  "Market: " ++ Js.substring0 8 tokenId ++ "...".

Definition findTrade (objects : list Trade) (orderId : string) (refs : list nat)
  : option nat :=
  List.find (fun ref =>
               match objects !! ref with
               | Some x => String.eqb (t_id x) orderId
               | None => false
               end) refs.

Definition pushTrade (ref : nat) (w : Wallet) : Wallet :=
  mkWallet (nickname w) (address w) (active w) (lastChecked w)
           (trades w ++ [ref]) (wstats w).

Definition setActive (flag : bool) (w : Wallet) : Wallet :=
  mkWallet (nickname w) (address w) flag (lastChecked w) (trades w) (wstats w).

(** [processOrder(order, wallet)]; the wallet object is named by its
    key. There is no branch for an order that is already known. *)
Definition processOrder (now : Z) (order : Order.t) (key : string) (st : State)
  : State :=
  match JsMap.get key (copiedWallets st) with
  | None => st
  | Some wallet =>
      match findTrade (tradeObjects st) (Order.id order) (trades wallet) with
      | Some _ => st
      | None =>
          let ref := length (tradeObjects st) in
          mkState (JsMap.adjust (pushTrade ref) key (copiedWallets st))
            (tradeObjects st ++
               [mkTrade (Order.id order) (Order.trader order) (nickname wallet)
                  (Order.market order) (Order.side order) (Order.size order)
                  (Order.price order) (Order.status order) (Order.createdAt order)
                  (Js.DateAt now) Config.testMode])
            (tradeHistory st ++ [ref])
            (Stats.mk (Stats.totalTrades (stats st) + 1)
                      (Stats.profitableTrades (stats st))
                      (Stats.totalPnl (stats st))
                      (if String.eqb (Order.status order) "OPEN"
                       then Stats.activeTrades (stats st) + 1
                       else Stats.activeTrades (stats st)))
            (pollInterval st)
      end
  end.

(** [trades.filter(t => t.pnl > 0).length] *)
Definition profitableCount (objects : list Trade) (refs : list nat) : nat :=
  length (List.filter (fun ref =>
                         match objects !! ref with
                         | Some x => match t_pnl x with
                                     | Some p => (0 <? p)%Z
                                     | None => false
                                     end
                         | None => false
                         end) refs).

(** [trades.reduce((sum, t) => sum + (t.pnl || 0), 0)] *)
Definition sumPnl (objects : list Trade) (refs : list nat) : Z :=
  fold_left (fun sum ref =>
               match objects !! ref with
               | Some x => match t_pnl x with
                           | Some p => (sum + p)%Z
                           | None => sum
                           end
               | None => sum
               end) refs 0%Z.

(** [updateWalletStats(wallet)] as a function of the wallet object. *)
Definition updateWalletStats (objects : list Trade) (w : Wallet) : Wallet :=
  let n := length (trades w) in
  let profitable := profitableCount objects (trades w) in
  mkWallet (nickname w) (address w) (active w) (lastChecked w) (trades w)
    (mkWalletStats n profitable
       (if (0 <? n)%nat then Enhanced.RateFixed1 profitable n
        else Enhanced.RateNumber 0)
       (inl (Enhanced.AmountFixed2 (sumPnl objects (trades w))))).

Definition pollWalletOrders (now : Z) (net : Api.Network) (walletAddress : string)
  (st : State) : State :=
  let orders := map (fun o =>
      Order.mk (Order.id o) (Order.trader o) (Order.token o) (Order.price o)
        (Order.size o) (Order.side o) (Order.status o)
        (Js.Str (extractMarketFromToken (Order.token o))) (Order.createdAt o)
        (Order.filledAmount o) (Order.rawData o))
      (Api.getWalletOrders net walletAddress) in
  let key := Js.toLowerCase walletAddress in
  match JsMap.get key (copiedWallets st) with
  | None => st
  | Some _ =>
      let st' := fold_left (fun s order => processOrder now order key s) orders st in
      mkState (JsMap.adjust (updateWalletStats (tradeObjects st')) key
                 (copiedWallets st'))
              (tradeObjects st') (tradeHistory st') (stats st') (pollInterval st')
  end.

Definition startPolling (st : State) : State :=
  mkState (copiedWallets st) (tradeObjects st) (tradeHistory st) (stats st) true.

Definition addWallet (now : Z) (net : Api.Network) (walletAddress nick : string)
  (st : State) : State :=
  let walletData :=
    mkWallet nick (Js.toLowerCase walletAddress) true now []
      (mkWalletStats 0 0 (Enhanced.RateNumber 0) (inr 0%Z)) in
  startPolling
    (pollWalletOrders now net walletAddress
       (mkState (JsMap.set (Js.toLowerCase walletAddress) walletData
                   (copiedWallets st))
                (tradeObjects st) (tradeHistory st) (stats st) (pollInterval st))).

Definition removeWallet (walletAddress : string) (st : State) : State :=
  mkState (JsMap.delete (Js.toLowerCase walletAddress) (copiedWallets st))
          (tradeObjects st) (tradeHistory st) (stats st) (pollInterval st).

Definition setWalletActive (walletAddress : string) (flag : bool) (st : State)
  : State :=
  match JsMap.get (Js.toLowerCase walletAddress) (copiedWallets st) with
  | Some _ =>
      mkState (JsMap.adjust (setActive flag) (Js.toLowerCase walletAddress)
                 (copiedWallets st))
              (tradeObjects st) (tradeHistory st) (stats st) (pollInterval st)
  | None => st
  end.

Record WalletView : Type := mkWalletView {
  v_nickname : string;
  v_address : string;
  v_active : bool;
  v_trades : nat;
  v_profitable : nat;
  v_successRate : Enhanced.Rate;
  v_pnl : Enhanced.Amount + Z
}.

Record Dashboard : Type := mkDashboard {
  d_wallets : list WalletView;
  d_stats : Stats.t;
  d_totalWallets : nat;
  d_testMode : bool;
  d_lastUpdated : Js.Date
}.

(** The row [getDashboardData] builds from [wallet.stats]. *)
Definition walletView (w : Wallet) : WalletView :=
  mkWalletView (nickname w) (address w) (active w)
    (s_trades (wstats w)) (s_profitable (wstats w))
    (s_successRate (wstats w)) (s_pnl (wstats w)).

Definition getDashboardData (now : Z) (st : State) : Dashboard :=
  mkDashboard (map walletView (JsMap.values (copiedWallets st)))
              (stats st) (length (copiedWallets st)) Config.testMode
              (Js.DateAt now).

Definition tradeIds (objects : list Trade) (refs : list nat) : list string :=
  omap (fun ref => t_id <$> objects !! ref) refs.

Definition countId (objects : list Trade) (orderId : string) (refs : list nat)
  : nat :=
  length (List.filter (String.eqb orderId) (tradeIds objects refs)).

Record wf (st : State) : Prop := mkWf {
  wf_keys : JsMap.ok (copiedWallets st);
  wf_refs : forall k w ref, (k, w) ∈ copiedWallets st ->
      ref ∈ trades w -> ref < length (tradeObjects st);
  wf_ids : forall k w, (k, w) ∈ copiedWallets st ->
      NoDup (tradeIds (tradeObjects st) (trades w))
}.

(** A wallet with no trades has the number 0 as its stored rate. *)
Definition zeroRate (st : State) : Prop :=
  forall k w, (k, w) ∈ copiedWallets st -> trades w = [] ->
              s_successRate (wstats w) = Enhanced.RateNumber 0.

(** The states the server can be in: what the routes and the timer
    make of the initial state. *)
Inductive reachable : State -> Prop :=
  | reach_initial : reachable initial
  | reach_addWallet now net a nick st :
      reachable st -> reachable (addWallet now net a nick st)
  | reach_poll now net a st :
      reachable st -> reachable (pollWalletOrders now net a st)
  | reach_removeWallet a st :
      reachable st -> reachable (removeWallet a st)
  | reach_setWalletActive a flag st :
      reachable st -> reachable (setWalletActive a flag st).

End Server.

(** ** The scenario of the specification *)

Module Scenario.

(** The order with id 1 of wallet 0xABC, in the given status. *)
Definition order1 (status : string) : RawOrder.t :=
  RawOrder.mk "1" "0xABC" "0x71c7656ec7ab88b098defb751b7401b5f6d8976f"
    "0.5" "10" "BUY" status "2025-01-01T00:00:00Z" None.

(** A venue that answers every query with that one order. *)
Definition venue (status : string) : Api.Network :=
  fun _ => Api.Response 200 (Api.OrderArray [order1 status]).

(** Wallet 0xABC is registered as X; the poll inside [addWallet] finds
    the order OPEN. *)
Definition afterFirstPoll : Js.Completion Enhanced.State :=
  Enhanced.addWallet 1000 (venue "OPEN") "0xABC" "X" Enhanced.constructor.

(** The next tick of the timer finds the same order FILLED. *)
Definition afterSecondPoll : Js.Completion Enhanced.State * list string :=
  Enhanced.pollingTick 11000 (venue "FILLED") (Js.stateOf afterFirstPoll).

(** A wallet registered as 0xAbCdEf. *)
Definition mixedCase : Enhanced.State :=
  Enhanced.registerWallet 1000 "0xAbCdEf" "X" Enhanced.constructor.

(** An order of the given trader and id. *)
Definition orderOf (trader id status : string) : RawOrder.t :=
  RawOrder.mk id trader "0x71c7656ec7ab88b098defb751b7401b5f6d8976f"
    "0.5" "10" "BUY" status "2025-01-01T00:00:00Z" None.

End Scenario.

(** ** The push socket ([connectWebSocket], [subscribeToWallet]) *)

Module Socket.

(** [ws.readyState] *)
Inductive ReadyState : Type := CONNECTING | OPEN | CLOSING | CLOSED.

(** The control message [subscribeToWallet] sends. *)
Record Subscribe : Type := mkSubscribe {
  s_type : string;
  s_channel : string;
  s_trader : string
}.

(** A [WebSocket] object: its state and what has been sent on it. *)
Record WebSocket : Type := mkWebSocket {
  readyState : ReadyState;
  sent : list Subscribe
}.

(** [this.ws.readyState === WebSocket.OPEN] *)
Definition isOpen (r : ReadyState) : bool :=
  match r with OPEN => true | _ => false end.

(** [connectWebSocket]: [this.ws] (null at first) becomes a new socket,
    not yet open. *)
Definition connectWebSocket (ws : option WebSocket) : option WebSocket :=
  Some (mkWebSocket CONNECTING []).

(** The socket opens. *)
Definition opened (ws : option WebSocket) : option WebSocket :=
  match ws with
  | Some s => Some (mkWebSocket OPEN (sent s))
  | None => None
  end.

(** The ['close'] handler, once its 5000 ms timer has fired: it
    connects again and does nothing else. *)
Definition closed (ws : option WebSocket) : option WebSocket :=
  connectWebSocket ws.

Definition subscribeToWallet (walletAddress : string) (ws : option WebSocket)
  : option WebSocket :=
  match ws with
  | Some s =>
      if isOpen (readyState s)
      then Some (mkWebSocket (readyState s)
                   (sent s ++ [mkSubscribe "subscribe" "orders"
                                 (Js.toLowerCase walletAddress)]))
      else ws
  | None => ws
  end.

(** The callback [startWebSocket] schedules 2000 ms after connecting:
    one [subscribeToWallet] per active wallet, in Map order. *)
Fixpoint subscribeAll (entries : list (string * Wallet.t)) (ws : option WebSocket)
  : option WebSocket :=
  match entries with
  | [] => ws
  | (address, wallet) :: rest =>
      subscribeAll rest
        (if Wallet.active wallet then subscribeToWallet address ws else ws)
  end.

End Socket.

(** ** Market information ([getMarketInfo]) *)

Module Markets.

Local Unset Elimination Schemes.

(** A value [response.json()] can yield. Of a number only whether the
    double is zero matters here; its text is kept. *)
Inductive Json : Type :=
  | JNull
  | JBool (b : bool)
  | JNumber (isZero : bool) (text : string)
  | JString (s : string)
  | JArray (items : list Json)
  | JObject (fields : list (string * Json)).

Local Set Elimination Schemes.

(** What [await fetch(url)] and [await response.json()] yield together:
    a rejected request, or a status with a body that parses or not. *)
Inductive FetchResult : Type :=
  | Rejected
  | Response (status : nat) (body : option Json).





End Markets.

(** ** Bookkeeping kept by the methods *)

Module Ledger.

(** The counters of the copy trader against its trade store: every
    trade object is in the history once, in creation order; the total
    counts them; no profit is ever booked. *)
Definition counted (st : Enhanced.State) : Prop :=
  Enhanced.tradeHistory st = seq 0 (length (Enhanced.tradeObjects st))
  /\ Stats.totalTrades (Enhanced.stats st)
     = Z.of_nat (length (Enhanced.tradeObjects st))
  /\ Stats.profitableTrades (Enhanced.stats st) = 0%Z
  /\ Stats.totalPnl (Enhanced.stats st) = 0%Z
  /\ Enhanced.testMode st = true
  /\ Forall (fun x => Trade.pnl x = 0%Z /\ Trade.outcome x = "PENDING"
                      /\ Trade.testMode x = true)
       (Enhanced.tradeObjects st).

(** Every wallet sits under its own lower-case address, and the trades
    on its list come from orders of that trader. *)
Definition owned (st : Enhanced.State) : Prop :=
  forall k w, (k, w) ∈ Enhanced.copiedWallets st ->
    Wallet.address w = k /\ Js.toLowerCase k = k
    /\ forall ref, ref ∈ Wallet.trades w ->
         exists x, Enhanced.tradeObjects st !! ref = Some x
                   /\ Js.toLowerCase (Trade.wallet x) = k.

(** What ingestion may do between [st] and [st']: the Map keeps its
    keys; a wallet keeps its nickname, address, flag and last-checked
    time and its trade list only gets longer at the end; the history
    and the trade store only get longer at the end; a trade object
    changes, if at all, in its status and update time only. *)
Definition grows (st st' : Enhanced.State) : Prop :=
  JsMap.keys (Enhanced.copiedWallets st') = JsMap.keys (Enhanced.copiedWallets st)
  /\ (forall k w, JsMap.get k (Enhanced.copiedWallets st) = Some w ->
        exists w', JsMap.get k (Enhanced.copiedWallets st') = Some w'
                   /\ Wallet.nickname w' = Wallet.nickname w
                   /\ Wallet.address w' = Wallet.address w
                   /\ Wallet.active w' = Wallet.active w
                   /\ Wallet.lastChecked w' = Wallet.lastChecked w
                   /\ Wallet.trades w `prefix_of` Wallet.trades w')
  /\ Enhanced.tradeHistory st `prefix_of` Enhanced.tradeHistory st'
  /\ length (Enhanced.tradeObjects st) <= length (Enhanced.tradeObjects st')
  /\ (forall ref x, Enhanced.tradeObjects st !! ref = Some x ->
        exists x', Enhanced.tradeObjects st' !! ref = Some x'
                   /\ (x' = x \/ exists status now, x' = Trade.setStatus status now x)).

(** Every trade on a wallet's list carries the name [createTradeRecord]
    gives for that wallet: its nickname, or Unknown when that is
    empty. *)
Definition labelled (st : Enhanced.State) : Prop :=
  forall k w ref, (k, w) ∈ Enhanced.copiedWallets st -> ref ∈ Wallet.trades w ->
    exists x, Enhanced.tradeObjects st !! ref = Some x
              /\ Trade.nickname x
                 = if String.eqb (Wallet.nickname w) "" then "Unknown"
                   else Wallet.nickname w.

(** The trades of the server that are OPEN. *)
Definition openTrades (objects : list Server.Trade) : list Server.Trade :=
  List.filter (fun x => String.eqb (Server.t_status x) "OPEN") objects.

(** The counters of the server against its trade store. *)
Definition serverCounted (st : Server.State) : Prop :=
  Server.tradeHistory st = seq 0 (length (Server.tradeObjects st))
  /\ Stats.totalTrades (Server.stats st)
     = Z.of_nat (length (Server.tradeObjects st))
  /\ Stats.activeTrades (Server.stats st)
     = Z.of_nat (length (openTrades (Server.tradeObjects st)))
  /\ Stats.profitableTrades (Server.stats st) = 0%Z
  /\ Stats.totalPnl (Server.stats st) = 0%Z.

(** What a method of the server may do between [st] and [st']: the
    trade store and the history are only extended, and the two counters
    do not go down. *)
Definition serverKeeps (st st' : Server.State) : Prop :=
  Server.tradeObjects st `prefix_of` Server.tradeObjects st'
  /\ Server.tradeHistory st `prefix_of` Server.tradeHistory st'
  /\ (Stats.totalTrades (Server.stats st) <= Stats.totalTrades (Server.stats st'))%Z
  /\ (Stats.activeTrades (Server.stats st) <= Stats.activeTrades (Server.stats st'))%Z.

(** The statistics stored on each wallet of the server agree with its
    trade list. *)
Definition serverStatsFresh (st : Server.State) : Prop :=
  forall k w, (k, w) ∈ Server.copiedWallets st ->
    Server.s_trades (Server.wstats w) = length (Server.trades w)
    /\ Server.s_profitable (Server.wstats w) = 0.

(** All references held by the wallets of a Map. *)
Definition allRefs (entries : list (string * Wallet.t)) : list nat :=
  concat (map (fun e => Wallet.trades (snd e)) entries).

(** The addresses a tick of the timer is to poll. *)
Definition activeAddresses (entries : list (string * Wallet.t)) : list string :=
  map fst (List.filter (fun e => Wallet.active (snd e)) entries).

End Ledger.

(** * Properties *)

(** ** Strings *)

Section StringFacts.

Lemma lowerUnit_sameLetter (c d : ascii) :
  Js.sameLetter c d -> Js.lowerUnit c = Js.lowerUnit d.
Proof.
  assert (Hup : forall x y : ascii,
            Js.isUpperUnit x = true ->
            nat_of_ascii y = nat_of_ascii x + 32 ->
            Js.lowerUnit x = Js.lowerUnit y).
  { intros x y Hx Hy. unfold Js.lowerUnit. rewrite Hx.
    assert (Hny : Js.isUpperUnit y = false).
    { unfold Js.isUpperUnit in *. rewrite Hy.
      apply orb_true_iff in Hx.
      apply orb_false_iff. split.
      - apply andb_false_iff.
        destruct Hx as [Hx | Hx].
        + apply andb_true_iff in Hx as [H1 H2].
          apply Nat.leb_le in H1. right. apply Nat.leb_gt. lia.
        + apply andb_true_iff in Hx as [Hx _].
          apply andb_true_iff in Hx as [H1 _].
          apply Nat.leb_le in H1. right. apply Nat.leb_gt. lia.
      - destruct Hx as [Hx | Hx].
        + apply andb_true_iff in Hx as [H1 H2].
          apply Nat.leb_le in H2.
          apply andb_false_iff. left. apply andb_false_iff. left.
          apply Nat.leb_gt. lia.
        + apply andb_true_iff in Hx as [Hx _].
          apply andb_true_iff in Hx as [H1 _].
          apply Nat.leb_le in H1.
          apply andb_false_iff. left. apply andb_false_iff. right.
          apply Nat.leb_gt. lia. }
    rewrite Hny, <- Hy. apply ascii_nat_embedding. }
  intros [-> | [[Hc Hd] | [Hd Hc]]].
  - reflexivity.
  - now apply Hup.
  - symmetry. now apply Hup.
Qed.

Lemma toLowerCase_sameIgnoringCase (a b : string) :
  Js.sameIgnoringCase a b -> Js.toLowerCase a = Js.toLowerCase b.
Proof.
  revert b. induction a as [| c a IH]; intros [| d b]; simpl; try tauto.
  intros [Hcd Hab]. f_equal.
  - now apply lowerUnit_sameLetter.
  - now apply IH.
Qed.

Lemma sameIgnoringCase_refl (a : string) : Js.sameIgnoringCase a a.
Proof. induction a; simpl; [exact I | split; [now left | assumption]]. Qed.

End StringFacts.

(** ** The Map *)

Section MapFacts.
Context {V : Type}.
Implicit Types (m : list (string * V)) (k : string) (v : V).

Lemma get_set_eq k v m : JsMap.get k (JsMap.set k v m) = Some v.
Proof.
  induction m as [| [k' v'] m IH]; simpl.
  - now rewrite String.eqb_refl.
  - destruct (String.eqb k' k) eqn:E; simpl; rewrite E; [reflexivity | exact IH].
Qed.

Lemma get_set_ne k k' v m :
  k <> k' -> JsMap.get k' (JsMap.set k v m) = JsMap.get k' m.
Proof.
  intros Hne. induction m as [| [k0 v0] m IH]; simpl.
  - apply String.eqb_neq in Hne. now rewrite Hne.
  - destruct (String.eqb k0 k) eqn:E; simpl.
    + apply String.eqb_eq in E. subst k0.
      apply String.eqb_neq in Hne. now rewrite Hne.
    + now rewrite IH.
Qed.

Lemma get_delete_eq k m : JsMap.get k (JsMap.delete k m) = None.
Proof.
  induction m as [| [k' v'] m IH]; simpl; [reflexivity |].
  destruct (String.eqb k' k) eqn:E; simpl; [exact IH | now rewrite E].
Qed.

Lemma get_delete_ne k k' m :
  k <> k' -> JsMap.get k' (JsMap.delete k m) = JsMap.get k' m.
Proof.
  intros Hne. induction m as [| [k0 v0] m IH]; simpl; [reflexivity |].
  destruct (String.eqb k0 k) eqn:E; simpl.
  - apply String.eqb_eq in E. subst k0.
    apply String.eqb_neq in Hne. now rewrite Hne.
  - now rewrite IH.
Qed.

Lemma get_adjust_eq (f : V -> V) k m :
  JsMap.get k (JsMap.adjust f k m) = f <$> JsMap.get k m.
Proof.
  induction m as [| [k' v'] m IH]; simpl; [reflexivity |].
  destruct (String.eqb k' k) eqn:E; simpl; rewrite E; [reflexivity | exact IH].
Qed.

Lemma get_adjust_ne (f : V -> V) k k' m :
  k <> k' -> JsMap.get k' (JsMap.adjust f k m) = JsMap.get k' m.
Proof.
  intros Hne. induction m as [| [k0 v0] m IH]; simpl; [reflexivity |].
  destruct (String.eqb k0 k) eqn:E; simpl.
  - apply String.eqb_eq in E. subst k0.
    apply String.eqb_neq in Hne. now rewrite Hne.
  - now rewrite IH.
Qed.

Lemma keys_adjust (f : V -> V) k m : JsMap.keys (JsMap.adjust f k m) = JsMap.keys m.
Proof.
  induction m as [| [k' v'] m IH]; simpl; [reflexivity |].
  destruct (String.eqb k' k); simpl; [reflexivity | now f_equal].
Qed.

Lemma length_adjust (f : V -> V) k m : length (JsMap.adjust f k m) = length m.
Proof.
  induction m as [| [k' v'] m IH]; simpl; [reflexivity |].
  destruct (String.eqb k' k); simpl; [reflexivity | now f_equal].
Qed.

Lemma get_Some_elem k v m : JsMap.get k m = Some v -> (k, v) ∈ m.
Proof.
  induction m as [| [k' v'] m IH]; simpl; [discriminate |].
  destruct (String.eqb k' k) eqn:E.
  - apply String.eqb_eq in E. intros [= ->]. subst. apply elem_of_cons. now left.
  - intros H. apply elem_of_cons. right. now apply IH.
Qed.

Lemma get_None_keys k m : JsMap.get k m = None <-> k ∉ JsMap.keys m.
Proof.
  induction m as [| [k' v'] m IH]; simpl.
  - split; [intros _ H; now apply elem_of_nil in H | reflexivity].
  - destruct (String.eqb k' k) eqn:E.
    + apply String.eqb_eq in E. subst. split; [discriminate |].
      intros H. exfalso. apply H. apply elem_of_cons. now left.
    + apply String.eqb_neq in E. rewrite IH. unfold JsMap.keys.
      rewrite not_elem_of_cons. split; [intros H; split; congruence | tauto].
Qed.

Lemma elem_get k v m : JsMap.ok m -> (k, v) ∈ m -> JsMap.get k m = Some v.
Proof.
  unfold JsMap.ok. induction m as [| [k' v'] m IH]; simpl; intros Hok Hin.
  - now apply elem_of_nil in Hin.
  - apply NoDup_cons in Hok as [Hfresh Hok].
    apply elem_of_cons in Hin as [[= -> ->] | Hin].
    + now rewrite String.eqb_refl.
    + destruct (String.eqb k' k) eqn:E.
      * apply String.eqb_eq in E. subst k'. exfalso. apply Hfresh.
        change k with (fst (k, v)). now apply list_elem_of_fmap_2.
      * now apply IH.
Qed.

Lemma elem_adjust (f : V -> V) k k' v' m :
  JsMap.ok m -> (k', v') ∈ JsMap.adjust f k m ->
  (k' <> k /\ (k', v') ∈ m) \/
  (k' = k /\ exists v, JsMap.get k m = Some v /\ v' = f v).
Proof.
  intros Hok Hin.
  assert (Hok' : JsMap.ok (JsMap.adjust f k m)).
  { unfold JsMap.ok. now rewrite keys_adjust. }
  pose proof (elem_get _ _ _ Hok' Hin) as Hget.
  destruct (String.eqb k' k) eqn:E.
  - apply String.eqb_eq in E. subst k'. right. split; [reflexivity |].
    rewrite get_adjust_eq in Hget.
    destruct (JsMap.get k m) as [v |]; [| discriminate].
    exists v. split; [reflexivity |]. simpl in Hget. congruence.
  - apply String.eqb_neq in E. left. split; [assumption |].
    rewrite get_adjust_ne in Hget by congruence.
    now apply get_Some_elem.
Qed.

Lemma keys_set k v m :
  JsMap.keys (JsMap.set k v m) =
  match JsMap.get k m with
  | Some _ => JsMap.keys m
  | None => JsMap.keys m ++ [k]
  end.
Proof.
  induction m as [| [k' v'] m IH]; simpl; [reflexivity |].
  destruct (String.eqb k' k) eqn:E; simpl; [reflexivity |].
  rewrite IH. now destruct (JsMap.get k m).
Qed.

Lemma ok_set k v m : JsMap.ok m -> JsMap.ok (JsMap.set k v m).
Proof.
  unfold JsMap.ok. intros Hok. rewrite keys_set.
  destruct (JsMap.get k m) eqn:E; [assumption |].
  apply NoDup_app. split; [assumption |]. split; [| apply NoDup_singleton].
  intros x Hx Hx'. apply list_elem_of_singleton in Hx'. subst x.
  now apply get_None_keys in E.
Qed.

Lemma elem_set k v k' v' m :
  JsMap.ok m -> (k', v') ∈ JsMap.set k v m ->
  (k' <> k /\ (k', v') ∈ m) \/ (k' = k /\ v' = v).
Proof.
  intros Hok Hin.
  pose proof (elem_get _ _ _ (ok_set k v m Hok) Hin) as Hget.
  destruct (String.eqb k' k) eqn:E.
  - apply String.eqb_eq in E. subst k'. right.
    rewrite get_set_eq in Hget. split; congruence.
  - apply String.eqb_neq in E. left. split; [assumption |].
    rewrite get_set_ne in Hget by congruence. now apply get_Some_elem.
Qed.

Lemma elem_delete k k' v' m :
  (k', v') ∈ JsMap.delete k m -> k' <> k /\ (k', v') ∈ m.
Proof.
  induction m as [| [k0 v0] m IH]; simpl; intros Hin.
  - now apply elem_of_nil in Hin.
  - destruct (String.eqb k0 k) eqn:E.
    + destruct (IH Hin) as [H1 H2]. split; [assumption |].
      apply elem_of_cons. now right.
    + apply elem_of_cons in Hin as [[= -> ->] | Hin].
      * apply String.eqb_neq in E. split; [assumption |].
        apply elem_of_cons. now left.
      * destruct (IH Hin) as [H1 H2]. split; [assumption |].
        apply elem_of_cons. now right.
Qed.

Lemma ok_delete k m : JsMap.ok m -> JsMap.ok (JsMap.delete k m).
Proof.
  unfold JsMap.ok. induction m as [| [k0 v0] m IH]; simpl; intros Hok.
  - assumption.
  - apply NoDup_cons in Hok as [Hfresh Hok].
    destruct (String.eqb k0 k); simpl; [now apply IH |].
    apply NoDup_cons. split; [| now apply IH].
    intros Hin. apply Hfresh.
    apply list_elem_of_fmap in Hin as [[k1 v1] [-> Hin]].
    apply elem_delete in Hin as [_ Hin].
    change (fst (k1, v1)) with (fst (k1, v1)).
    now apply (list_elem_of_fmap_2 fst) in Hin.
Qed.

Lemma ok_adjust (f : V -> V) k m : JsMap.ok m -> JsMap.ok (JsMap.adjust f k m).
Proof. unfold JsMap.ok. now rewrite keys_adjust. Qed.

Lemma elem_adjust_inv (f : V -> V) k k' v' m :
  (k', v') ∈ JsMap.adjust f k m ->
  (k', v') ∈ m \/ (k' = k /\ exists v, (k, v) ∈ m /\ v' = f v).
Proof.
  induction m as [| [k0 v0] m IH]; simpl; intros Hin.
  - now apply elem_of_nil in Hin.
  - destruct (String.eqb k0 k) eqn:E.
    + apply String.eqb_eq in E. subst k0.
      apply elem_of_cons in Hin as [[= -> ->] | Hin].
      * right. split; [reflexivity |]. exists v0.
        split; [apply elem_of_cons; now left | reflexivity].
      * left. apply elem_of_cons. now right.
    + apply elem_of_cons in Hin as [[= -> ->] | Hin].
      * left. apply elem_of_cons. now left.
      * destruct (IH Hin) as [H | [-> (v & Hv & ->)]].
        -- left. apply elem_of_cons. now right.
        -- right. split; [reflexivity |]. exists v.
           split; [apply elem_of_cons; now right | reflexivity].
Qed.

Lemma elem_set_inv k v k' v' m :
  (k', v') ∈ JsMap.set k v m -> (k', v') ∈ m \/ (k' = k /\ v' = v).
Proof.
  induction m as [| [k0 v0] m IH]; simpl; intros Hin.
  - apply list_elem_of_singleton in Hin. injection Hin as -> ->. now right.
  - destruct (String.eqb k0 k) eqn:E.
    + apply String.eqb_eq in E. subst k0.
      apply elem_of_cons in Hin as [[= -> ->] | Hin].
      * now right.
      * left. apply elem_of_cons. now right.
    + apply elem_of_cons in Hin as [[= -> ->] | Hin].
      * left. apply elem_of_cons. now left.
      * destruct (IH Hin) as [H | H]; [left; apply elem_of_cons; now right | now right].
Qed.

Lemma elem_values (v : V) m : v ∈ JsMap.values m -> exists k, (k, v) ∈ m.
Proof.
  unfold JsMap.values. induction m as [| [k0 v0] m IH]; simpl; intros Hin.
  - now apply elem_of_nil in Hin.
  - apply elem_of_cons in Hin as [-> | Hin].
    + exists k0. apply elem_of_cons. now left.
    + destruct (IH Hin) as [k Hk]. exists k. apply elem_of_cons. now right.
Qed.

Lemma Forall2_map_self {A B : Type} (P : A -> B -> Prop) (f : A -> B) (l : list A) :
  (forall x, x ∈ l -> P x (f x)) -> Forall2 P l (map f l).
Proof.
  induction l as [| x l IH]; simpl; intros H; constructor.
  - apply H. apply elem_of_cons. now left.
  - apply IH. intros y Hy. apply H. apply elem_of_cons. now right.
Qed.

End MapFacts.

(** ** Counting ids *)

Section CountFacts.

Lemma count_le_one (x : string) (l : list string) :
  NoDup l -> length (List.filter (String.eqb x) l) <= 1.
Proof.
  induction l as [| y l IH]; simpl; intros Hnd; [lia |].
  apply NoDup_cons in Hnd as [Hfresh Hnd].
  destruct (String.eqb x y) eqn:E; [| now apply IH].
  apply String.eqb_eq in E. subst y. simpl.
  assert (Hnone : List.filter (String.eqb x) l = []).
  { clear IH Hnd. induction l as [| z l IHl]; simpl; [reflexivity |].
    apply not_elem_of_cons in Hfresh as [Hxz Hfresh].
    apply String.eqb_neq in Hxz. rewrite Hxz. now apply IHl. }
  rewrite Hnone. simpl. lia.
Qed.

Lemma count_ge_one (x : string) (l : list string) :
  x ∈ l -> 1 <= length (List.filter (String.eqb x) l).
Proof.
  induction l as [| y l IH]; simpl; intros Hin.
  - now apply elem_of_nil in Hin.
  - destruct (String.eqb x y) eqn:E; simpl; [lia |].
    apply elem_of_cons in Hin as [-> | Hin].
    + now rewrite String.eqb_refl in E.
    + now apply IH.
Qed.

Lemma count_exactly_one (x : string) (l : list string) :
  NoDup l -> x ∈ l -> length (List.filter (String.eqb x) l) = 1.
Proof.
  intros Hnd Hin.
  pose proof (count_le_one x l Hnd). pose proof (count_ge_one x l Hin). lia.
Qed.

Lemma forEach_invariant {A S : Type} (P : S -> Prop)
  (f : A -> S -> Js.Completion S) (xs : list A) (s : S) :
  (forall x s', P s' -> P (Js.stateOf (f x s'))) ->
  P s -> P (Js.stateOf (Js.forEach f xs s)).
Proof.
  intros Hstep. revert s. induction xs as [| x xs IH]; simpl; intros s Hs.
  - assumption.
  - specialize (Hstep x s Hs). destruct (f x s) as [s' | e s']; simpl in *.
    + now apply IH.
    + assumption.
Qed.

End CountFacts.

(** ** The trade store of the copy trader *)

Module EnhancedFacts.
Import Enhanced.

Lemma tradeIds_app objects refs1 refs2 :
  tradeIds objects (refs1 ++ refs2) = tradeIds objects refs1 ++ tradeIds objects refs2.
Proof. unfold tradeIds. apply omap_app. Qed.

Lemma tradeIds_grow objects extra refs :
  (forall ref, ref ∈ refs -> ref < length objects) ->
  tradeIds (objects ++ extra) refs = tradeIds objects refs.
Proof.
  unfold tradeIds. induction refs as [| r refs IH]; intros Hlt; [reflexivity |].
  assert (IH' : omap (fun ref => Trade.id <$> (objects ++ extra) !! ref) refs
               = omap (fun ref => Trade.id <$> objects !! ref) refs).
  { apply IH. intros ref Href. apply Hlt. apply elem_of_cons. now right. }
  cbn [omap list_omap]. fold (@omap list _ nat string). rewrite IH'.
  now rewrite lookup_app_l by (apply Hlt; apply elem_of_cons; now left).
Qed.

Lemma tradeIds_fresh objects x :
  tradeIds (objects ++ [x]) [length objects] = [Trade.id x].
Proof.
  unfold tradeIds. simpl.
  rewrite lookup_app_r by lia. now rewrite Nat.sub_diag.
Qed.

Lemma tradeIds_setStatus objects status now ref refs :
  tradeIds (alter (Trade.setStatus status now) ref objects) refs
  = tradeIds objects refs.
Proof.
  unfold tradeIds. induction refs as [| r refs IH]; [reflexivity |].
  cbn [omap list_omap]. fold (@omap list _ nat string). rewrite IH.
  destruct (decide (ref = r)) as [-> | Hne].
  - rewrite list_lookup_alter_eq. now destruct (objects !! r).
  - now rewrite list_lookup_alter_ne.
Qed.

Lemma elem_tradeIds objects orderId refs :
  orderId ∈ tradeIds objects refs <->
  exists ref x, ref ∈ refs /\ objects !! ref = Some x /\ Trade.id x = orderId.
Proof.
  unfold tradeIds. rewrite list_elem_of_omap. split.
  - intros (ref & Href & Hid).
    destruct (objects !! ref) as [x |] eqn:E; simpl in Hid; [| discriminate].
    exists ref, x. split; [assumption |]. split; congruence.
  - intros (ref & x & Href & Hx & Hid). exists ref. split; [assumption |].
    rewrite Hx. simpl. now rewrite Hid.
Qed.

Lemma findTrade_None objects orderId refs :
  findTrade objects orderId refs = None -> orderId ∉ tradeIds objects refs.
Proof.
  unfold findTrade. intros Hnone Hin.
  apply elem_tradeIds in Hin as (ref & x & Href & Hx & Hid).
  apply list_elem_of_In in Href.
  pose proof (List.find_none _ _ Hnone ref Href) as Hf. simpl in Hf.
  rewrite Hx in Hf. subst orderId. now rewrite String.eqb_refl in Hf.
Qed.

Lemma findTrade_Some objects orderId refs ref :
  findTrade objects orderId refs = Some ref ->
  ref ∈ refs /\ orderId ∈ tradeIds objects refs.
Proof.
  unfold findTrade. intros Hsome.
  apply List.find_some in Hsome as [Href Hp].
  apply list_elem_of_In in Href. split; [assumption |].
  apply elem_tradeIds.
  destruct (objects !! ref) as [x |] eqn:E; [| discriminate].
  exists ref, x. split; [assumption |]. split; [exact E |].
  now apply String.eqb_eq.
Qed.

Lemma findInWallets_Some objects orderId entries ref :
  findInWallets objects orderId entries = Some ref ->
  exists k w, (k, w) ∈ entries /\ ref ∈ Wallet.trades w.
Proof.
  induction entries as [| [k w] entries IH]; simpl; [discriminate |].
  destruct (findTrade objects orderId (Wallet.trades w)) as [r |] eqn:E.
  - intros [= ->]. apply findTrade_Some in E as [Href _].
    exists k, w. split; [apply elem_of_cons; now left | assumption].
  - intros H. destruct (IH H) as (k' & w' & Hin & Href).
    exists k', w'. split; [apply elem_of_cons; now right | assumption].
Qed.

(** *** The invariant is kept by every method *)

Lemma wf_constructor : wf constructor.
Proof.
  split; simpl.
  - apply NoDup_nil. exact I.
  - intros k w ref H. now apply elem_of_nil in H.
  - intros ref H. now apply elem_of_nil in H.
  - intros k w H. now apply elem_of_nil in H.
  - intros k1 w1 k2 w2 ref H. now apply elem_of_nil in H.
Qed.

Lemma wf_registerWallet now a nick st : wf st -> wf (registerWallet now a nick st).
Proof.
  intros [Hk Hr Hh Hi Ho]. split; simpl.
  - now apply ok_set.
  - intros k w ref Hin Href.
    apply elem_set in Hin as [[_ Hin] | [_ ->]]; [| | assumption].
    + now apply (Hr k w).
    + now apply elem_of_nil in Href.
  - assumption.
  - intros k w Hin.
    apply elem_set in Hin as [[_ Hin] | [_ ->]]; [| | assumption].
    + now apply (Hi k w).
    + apply NoDup_nil. exact I.
  - intros k1 w1 k2 w2 ref Hin1 Hin2 Href1 Href2.
    apply elem_set in Hin1 as [[_ Hin1] | [_ ->]]; [| | assumption].
    + apply elem_set in Hin2 as [[_ Hin2] | [_ ->]]; [| | assumption].
      * now apply (Ho k1 w1 k2 w2 ref).
      * now apply elem_of_nil in Href2.
    + now apply elem_of_nil in Href1.
Qed.

Lemma wf_recordTrade now order st wallet :
  wf st ->
  JsMap.get (Js.toLowerCase (Order.trader order)) (copiedWallets st) = Some wallet ->
  findTrade (tradeObjects st) (Order.id order) (Wallet.trades wallet) = None ->
  wf (recordTrade now order st).
Proof.
  intros [Hk Hr Hh Hi Ho] Hget Hfind.
  pose proof (get_Some_elem _ _ _ Hget) as Hwallet.
  split; simpl.
  - now apply ok_adjust.
  - intros k w ref Hin Href. rewrite length_app. simpl.
    apply elem_adjust in Hin as [[_ Hin] | [-> (w0 & Hw0 & ->)]]; [| | assumption].
    + specialize (Hr k w ref Hin Href). lia.
    + simpl in Href. apply elem_of_app in Href as [Href | Href].
      * rewrite Hget in Hw0. injection Hw0 as <-.
        specialize (Hr _ _ ref Hwallet Href). lia.
      * apply list_elem_of_singleton in Href. subst ref. lia.
  - intros ref Href. rewrite length_app. simpl.
    apply elem_of_app in Href as [Href | Href].
    + specialize (Hh ref Href). lia.
    + apply list_elem_of_singleton in Href. subst ref. lia.
  - intros k w Hin.
    apply elem_adjust in Hin as [[_ Hin] | [-> (w0 & Hw0 & ->)]]; [| | assumption].
    + rewrite tradeIds_grow by (intros ref Href; now apply (Hr k w)).
      now apply (Hi k w).
    + rewrite Hget in Hw0. injection Hw0 as <-. simpl.
      rewrite tradeIds_app, tradeIds_fresh.
      rewrite tradeIds_grow by (intros ref Href; now apply (Hr _ _ ref Hwallet)).
      apply NoDup_app. split; [now apply (Hi _ _ Hwallet) |].
      split; [| apply NoDup_singleton].
      intros x Hx Hx'. apply list_elem_of_singleton in Hx'. subst x.
      simpl in Hx. now apply findTrade_None in Hfind.
  - intros k1 w1 k2 w2 ref Hin1 Hin2 Href1 Href2.
    destruct (string_dec k1 k2) as [| Hne]; [assumption | exfalso].
    assert (Hold : forall k w, (k, w) ∈ JsMap.adjust
                     (Wallet.pushTrade (length (tradeObjects st)))
                     (Js.toLowerCase (Order.trader order)) (copiedWallets st) ->
                   forall r, r ∈ Wallet.trades w ->
                   exists w0, (k, w0) ∈ copiedWallets st /\
                     (r ∈ Wallet.trades w0 \/
                      (r = length (tradeObjects st) /\
                       k = Js.toLowerCase (Order.trader order)))).
    { intros k w Hin r Hr'.
      apply elem_adjust in Hin as [[_ Hin] | [-> (w0 & Hw0 & ->)]];
        [| | assumption].
      - exists w. split; [assumption | now left].
      - exists w0. split; [now apply get_Some_elem |].
        simpl in Hr'. apply elem_of_app in Hr' as [Hr' | Hr']; [now left |].
        apply list_elem_of_singleton in Hr'. now right. }
    destruct (Hold _ _ Hin1 _ Href1) as (u1 & Hu1 & [H1 | [H1 K1]]);
      destruct (Hold _ _ Hin2 _ Href2) as (u2 & Hu2 & [H2 | [H2 K2]]).
    + apply Hne. now apply (Ho k1 u1 k2 u2 ref).
    + specialize (Hr _ _ _ Hu1 H1). lia.
    + specialize (Hr _ _ _ Hu2 H2). lia.
    + congruence.
Qed.

Lemma wf_processOrder now order st :
  wf st -> wf (Js.stateOf (processOrder now order st)).
Proof.
  intros Hwf. unfold processOrder.
  destruct (JsMap.get _ (copiedWallets st)) as [wallet |] eqn:Hget; [| assumption].
  destruct (findTrade _ _ (Wallet.trades wallet)) as [ref |] eqn:Hfind;
    [assumption |].
  destruct (testMode st); simpl; now apply (wf_recordTrade now order st wallet).
Qed.

Lemma wf_pollWalletOrders now net a st :
  wf st -> wf (Js.stateOf (pollWalletOrders now net a st)).
Proof.
  unfold pollWalletOrders. apply forEach_invariant.
  intros order s. apply wf_processOrder.
Qed.

Lemma wf_startMonitoring st : wf st -> wf (startMonitoring st).
Proof. intros [Hk Hr Hh Hi Ho]. now split. Qed.

Lemma wf_updateOrderStatus now orderId status st :
  wf st -> wf (Js.stateOf (updateOrderStatus now orderId status st)).
Proof.
  intros Hwf. unfold updateOrderStatus.
  destruct (findInWallets _ _ _) as [ref |]; [| assumption].
  destruct Hwf as [Hk Hr Hh Hi Ho]. split; simpl.
  - assumption.
  - intros k w r Hin Hr'. rewrite length_alter. now apply (Hr k w).
  - intros r Hr'. rewrite length_alter. now apply Hh.
  - intros k w Hin. rewrite tradeIds_setStatus. now apply (Hi k w).
  - assumption.
Qed.

Lemma wf_handleWebSocketMessage now msg st :
  wf st -> wf (Js.stateOf (handleWebSocketMessage now msg st)).
Proof.
  intros Hwf. unfold handleWebSocketMessage.
  destruct (_ || _); [now apply wf_processOrder |].
  destruct (String.eqb (type msg) "order_filled");
    [now apply wf_updateOrderStatus |].
  destruct (String.eqb (type msg) "order_cancelled");
    [now apply wf_updateOrderStatus | assumption].
Qed.

Lemma wf_onSocketMessage now frame st : wf st -> wf (onSocketMessage now frame st).
Proof.
  intros Hwf. destruct frame as [| msg]; simpl;
    [assumption | now apply wf_handleWebSocketMessage].
Qed.

Lemma wf_removeWallet a st : wf st -> wf (removeWallet a st).
Proof.
  intros [Hk Hr Hh Hi Ho]. split; simpl.
  - now apply ok_delete.
  - intros k w ref Hin. apply elem_delete in Hin as [_ Hin]. now apply (Hr k w).
  - assumption.
  - intros k w Hin. apply elem_delete in Hin as [_ Hin]. now apply (Hi k w).
  - intros k1 w1 k2 w2 ref Hin1 Hin2.
    apply elem_delete in Hin1 as [_ Hin1]. apply elem_delete in Hin2 as [_ Hin2].
    now apply (Ho k1 w1 k2 w2 ref).
Qed.

Lemma wf_setWalletActive a flag st : wf st -> wf (setWalletActive a flag st).
Proof.
  intros Hwf. unfold setWalletActive.
  destruct (JsMap.get _ (copiedWallets st)) as [w0 |] eqn:Hget; [| assumption].
  destruct Hwf as [Hk Hr Hh Hi Ho].
  pose proof (get_Some_elem _ _ _ Hget) as Hw0.
  split; simpl.
  - now apply ok_adjust.
  - intros k w ref Hin.
    apply elem_adjust in Hin as [[_ Hin] | [-> (w1 & Hw1 & ->)]]; [| | assumption].
    + now apply (Hr k w).
    + simpl. apply get_Some_elem in Hw1. intros Href.
      exact (Hr _ w1 ref Hw1 Href).
  - assumption.
  - intros k w Hin.
    apply elem_adjust in Hin as [[_ Hin] | [-> (w1 & Hw1 & ->)]]; [| | assumption].
    + now apply (Hi k w).
    + simpl. apply get_Some_elem in Hw1. exact (Hi _ w1 Hw1).
  - intros k1 w1 k2 w2 ref Hin1 Hin2 Href1 Href2.
    assert (Hold : forall k w, (k, w) ∈ JsMap.adjust (Wallet.setActive flag)
                     (Js.toLowerCase a) (copiedWallets st) ->
                   exists u, (k, u) ∈ copiedWallets st /\
                             Wallet.trades u = Wallet.trades w).
    { intros k w Hin.
      apply elem_adjust in Hin as [[_ Hin] | [-> (u & Hu & ->)]];
        [| | assumption].
      - now exists w.
      - exists u. split; [now apply get_Some_elem | reflexivity]. }
    destruct (Hold _ _ Hin1) as (u1 & Hu1 & E1).
    destruct (Hold _ _ Hin2) as (u2 & Hu2 & E2).
    rewrite <- E1 in Href1. rewrite <- E2 in Href2.
    now apply (Ho k1 u1 k2 u2 ref).
Qed.

Lemma wf_reachable st : reachable st -> wf st.
Proof.
  induction 1.
  - apply wf_constructor.
  - now apply wf_registerWallet.
  - now apply wf_pollWalletOrders.
  - now apply wf_startMonitoring.
  - now apply wf_onSocketMessage.
  - now apply wf_removeWallet.
  - now apply wf_setWalletActive.
Qed.

(** *** What one delivery does *)

Lemma keys_processOrder now order st :
  JsMap.keys (copiedWallets (Js.stateOf (processOrder now order st)))
  = JsMap.keys (copiedWallets st).
Proof.
  unfold processOrder.
  destruct (JsMap.get _ (copiedWallets st)) as [wallet |]; [| reflexivity].
  destruct (findTrade _ _ _); [reflexivity |].
  destruct (testMode st); simpl; apply keys_adjust.
Qed.

Lemma registered_keys {V : Type} (k : string) (m m' : list (string * V)) :
  JsMap.keys m' = JsMap.keys m -> is_Some (JsMap.get k m) -> is_Some (JsMap.get k m').
Proof.
  intros Hkeys [v Hv].
  destruct (JsMap.get k m') as [v' |] eqn:E; [now exists v' |].
  apply get_None_keys in E. rewrite Hkeys in E.
  apply get_None_keys in E. congruence.
Qed.

Lemma processOrder_records now order st :
  is_Some (JsMap.get (Js.toLowerCase (Order.trader order)) (copiedWallets st)) ->
  exists wallet',
    JsMap.get (Js.toLowerCase (Order.trader order))
      (copiedWallets (Js.stateOf (processOrder now order st))) = Some wallet'
    /\ Order.id order ∈
         tradeIds (tradeObjects (Js.stateOf (processOrder now order st)))
           (Wallet.trades wallet').
Proof.
  intros [wallet Hget]. unfold processOrder. rewrite Hget.
  destruct (findTrade _ _ (Wallet.trades wallet)) as [ref |] eqn:Hfind.
  - exists wallet. simpl. split; [assumption |].
    now apply findTrade_Some in Hfind as [_ Hin].
  - exists (Wallet.pushTrade (length (tradeObjects st)) wallet).
    assert (Hst : forall c : Js.Completion State,
              c = Js.Returned (recordTrade now order st) \/
              (exists e, c = Js.Threw e (recordTrade now order st)) ->
              Js.stateOf c = recordTrade now order st).
    { intros c [-> | [e ->]]; reflexivity. }
    rewrite (Hst _) by (destruct (testMode st); [now left | right; eauto]).
    simpl. split.
    + now rewrite get_adjust_eq, Hget.
    + rewrite tradeIds_app. apply elem_of_app. right.
      rewrite tradeIds_fresh. now apply list_elem_of_singleton.
Qed.

Lemma getWalletOrders_single raw a :
  Api.getWalletOrders (fun _ => Api.Response 200 (Api.OrderArray [raw])) a
  = [Api.parseOrder raw].
Proof. reflexivity. Qed.

Lemma deliver_processOrder now ch raw st :
  deliver now ch raw st = Js.stateOf (processOrder now (Api.parseOrder raw) st).
Proof.
  destruct ch; simpl.
  - unfold pollWalletOrders. rewrite getWalletOrders_single. simpl.
    now destruct (processOrder now (Api.parseOrder raw) st).
  - reflexivity.
  - reflexivity.
Qed.

Lemma wf_deliver now ch raw st : wf st -> wf (deliver now ch raw st).
Proof. rewrite deliver_processOrder. apply wf_processOrder. Qed.

Lemma wf_deliverAll events st : wf st -> wf (deliverAll events st).
Proof.
  revert st. induction events as [| [[now ch] raw] events IH]; simpl; intros st Hwf.
  - assumption.
  - apply IH. now apply wf_deliver.
Qed.

Lemma wf_countId st k w orderId :
  wf st -> (k, w) ∈ copiedWallets st ->
  countId (tradeObjects st) orderId (Wallet.trades w) <= 1.
Proof.
  intros Hwf Hin. unfold countId. apply count_le_one.
  now apply (wf_ids st Hwf k w).
Qed.

(** Deliveries of one order id to one registered wallet, however many
    and on whatever channel, leave exactly one trade with that id. *)
Lemma deliverAll_exactly_one events : forall st key orderId,
  wf st ->
  is_Some (JsMap.get key (copiedWallets st)) ->
  events <> [] ->
  Forall (fun e : Z * Channel * RawOrder.t =>
            RawOrder.id (snd e) = orderId /\
            Js.toLowerCase (RawOrder.trader (snd e)) = key) events ->
  exists w,
    JsMap.get key (copiedWallets (deliverAll events st)) = Some w /\
    countId (tradeObjects (deliverAll events st)) orderId (Wallet.trades w) = 1.
Proof.
  induction events as [| [[now ch] raw] events IH];
    intros st key orderId Hwf Hreg Hne Hall; [congruence |].
  apply Forall_cons in Hall as [[Hid Hkey] Hall]. simpl in Hid, Hkey. simpl.
  pose proof (wf_deliver now ch raw st Hwf) as Hwf1.
  destruct events as [| e events].
  - simpl. rewrite deliver_processOrder in *.
    subst key.
    destruct (processOrder_records now (Api.parseOrder raw) st Hreg)
      as (w' & Hget' & Hin').
    exists w'. split; [exact Hget' |].
    simpl in Hin'. rewrite Hid in Hin'.
    apply count_exactly_one; [| exact Hin'].
    eapply wf_ids; [exact Hwf1 | apply get_Some_elem; exact Hget'].
  - apply IH; [assumption | | congruence | assumption].
    rewrite deliver_processOrder.
    eapply registered_keys; [apply keys_processOrder | exact Hreg].
Qed.

End EnhancedFacts.

(** ** The trade store of the server *)

Module ServerFacts.
Import Server.

Lemma server_tradeIds_app objects refs1 refs2 :
  tradeIds objects (refs1 ++ refs2) = tradeIds objects refs1 ++ tradeIds objects refs2.
Proof. unfold tradeIds. apply omap_app. Qed.

Lemma server_tradeIds_grow objects extra refs :
  (forall ref, ref ∈ refs -> ref < length objects) ->
  tradeIds (objects ++ extra) refs = tradeIds objects refs.
Proof.
  unfold tradeIds. induction refs as [| r refs IH]; intros Hlt; [reflexivity |].
  assert (IH' : omap (fun ref => t_id <$> (objects ++ extra) !! ref) refs
               = omap (fun ref => t_id <$> objects !! ref) refs).
  { apply IH. intros ref Href. apply Hlt. apply elem_of_cons. now right. }
  cbn [omap list_omap]. fold (@omap list _ nat string). rewrite IH'.
  now rewrite lookup_app_l by (apply Hlt; apply elem_of_cons; now left).
Qed.

Lemma server_tradeIds_fresh objects x : tradeIds (objects ++ [x]) [length objects] = [t_id x].
Proof.
  unfold tradeIds. simpl.
  rewrite lookup_app_r by lia. now rewrite Nat.sub_diag.
Qed.

Lemma server_elem_tradeIds objects orderId refs :
  orderId ∈ tradeIds objects refs <->
  exists ref x, ref ∈ refs /\ objects !! ref = Some x /\ t_id x = orderId.
Proof.
  unfold tradeIds. rewrite list_elem_of_omap. split.
  - intros (ref & Href & Hid).
    destruct (objects !! ref) as [x |] eqn:E; simpl in Hid; [| discriminate].
    exists ref, x. split; [assumption |]. split; congruence.
  - intros (ref & x & Href & Hx & Hid). exists ref. split; [assumption |].
    rewrite Hx. simpl. now rewrite Hid.
Qed.

Lemma server_findTrade_None objects orderId refs :
  findTrade objects orderId refs = None -> orderId ∉ tradeIds objects refs.
Proof.
  unfold findTrade. intros Hnone Hin.
  apply server_elem_tradeIds in Hin as (ref & x & Href & Hx & Hid).
  apply list_elem_of_In in Href.
  pose proof (List.find_none _ _ Hnone ref Href) as Hf. simpl in Hf.
  rewrite Hx in Hf. subst orderId. now rewrite String.eqb_refl in Hf.
Qed.

Lemma server_findTrade_Some objects orderId refs ref :
  findTrade objects orderId refs = Some ref -> orderId ∈ tradeIds objects refs.
Proof.
  unfold findTrade. intros Hsome.
  apply List.find_some in Hsome as [Href Hp].
  apply list_elem_of_In in Href. apply server_elem_tradeIds.
  destruct (objects !! ref) as [x |] eqn:E; [| discriminate].
  exists ref, x. split; [assumption |]. split; [exact E |].
  now apply String.eqb_eq.
Qed.

Lemma wf_initial : wf initial.
Proof.
  split; simpl.
  - apply NoDup_nil. exact I.
  - intros k w ref H. now apply elem_of_nil in H.
  - intros k w H. now apply elem_of_nil in H.
Qed.

Lemma server_wf_processOrder now order key st : wf st -> wf (processOrder now order key st).
Proof.
  intros Hwf. unfold processOrder.
  destruct (JsMap.get key (copiedWallets st)) as [wallet |] eqn:Hget;
    [| assumption].
  destruct (findTrade _ _ (trades wallet)) as [ref |] eqn:Hfind; [assumption |].
  destruct Hwf as [Hk Hr Hi].
  pose proof (get_Some_elem _ _ _ Hget) as Hwallet.
  split; simpl.
  - now apply ok_adjust.
  - intros k w ref Hin Href. rewrite length_app. simpl.
    apply elem_adjust in Hin as [[_ Hin] | [-> (w0 & Hw0 & ->)]]; [| | assumption].
    + specialize (Hr k w ref Hin Href). lia.
    + simpl in Href. apply elem_of_app in Href as [Href | Href].
      * rewrite Hget in Hw0. injection Hw0 as <-.
        specialize (Hr _ _ ref Hwallet Href). lia.
      * apply list_elem_of_singleton in Href. subst ref. lia.
  - intros k w Hin.
    apply elem_adjust in Hin as [[_ Hin] | [-> (w0 & Hw0 & ->)]]; [| | assumption].
    + rewrite server_tradeIds_grow by (intros ref Href; now apply (Hr k w)).
      now apply (Hi k w).
    + rewrite Hget in Hw0. injection Hw0 as <-. simpl.
      rewrite server_tradeIds_app, server_tradeIds_fresh.
      rewrite server_tradeIds_grow by (intros ref Href; now apply (Hr _ _ ref Hwallet)).
      apply NoDup_app. split; [now apply (Hi _ _ Hwallet) |].
      split; [| apply NoDup_singleton].
      intros x Hx Hx'. apply list_elem_of_singleton in Hx'. subst x.
      simpl in Hx. now apply server_findTrade_None in Hfind.
Qed.

Lemma wf_processAll now key orders st :
  wf st -> wf (fold_left (fun s order => processOrder now order key s) orders st).
Proof.
  revert st. induction orders as [| o orders IH]; simpl; intros st Hwf.
  - assumption.
  - apply IH. now apply server_wf_processOrder.
Qed.

Lemma wf_adjust_same_trades (f : Wallet -> Wallet) key st :
  (forall w, trades (f w) = trades w) ->
  wf st ->
  wf (mkState (JsMap.adjust f key (copiedWallets st)) (tradeObjects st)
        (tradeHistory st) (stats st) (pollInterval st)).
Proof.
  intros Hf [Hk Hr Hi]. split; simpl.
  - now apply ok_adjust.
  - intros k w ref Hin.
    apply elem_adjust in Hin as [[_ Hin] | [-> (w1 & Hw1 & ->)]]; [| | assumption].
    + now apply (Hr k w).
    + rewrite Hf. apply get_Some_elem in Hw1. intros Href.
      exact (Hr _ w1 ref Hw1 Href).
  - intros k w Hin.
    apply elem_adjust in Hin as [[_ Hin] | [-> (w1 & Hw1 & ->)]]; [| | assumption].
    + now apply (Hi k w).
    + rewrite Hf. apply get_Some_elem in Hw1. exact (Hi _ w1 Hw1).
Qed.

Lemma server_wf_pollWalletOrders now net a st : wf st -> wf (pollWalletOrders now net a st).
Proof.
  intros Hwf. unfold pollWalletOrders.
  destruct (JsMap.get _ (copiedWallets st)); [| assumption].
  apply wf_adjust_same_trades; [reflexivity |]. now apply wf_processAll.
Qed.

Lemma wf_addWallet now net a nick st : wf st -> wf (addWallet now net a nick st).
Proof.
  intros [Hk Hr Hi]. unfold addWallet.
  match goal with |- wf (startPolling ?s) =>
    assert (Hs : wf s); [| destruct Hs; now split] end.
  apply server_wf_pollWalletOrders. split; simpl.
  - now apply ok_set.
  - intros k w ref Hin Href.
    apply elem_set in Hin as [[_ Hin] | [_ ->]]; [| | assumption].
    + now apply (Hr k w).
    + now apply elem_of_nil in Href.
  - intros k w Hin.
    apply elem_set in Hin as [[_ Hin] | [_ ->]]; [| | assumption].
    + now apply (Hi k w).
    + apply NoDup_nil. exact I.
Qed.

Lemma server_wf_removeWallet a st : wf st -> wf (removeWallet a st).
Proof.
  intros [Hk Hr Hi]. split; simpl.
  - now apply ok_delete.
  - intros k w ref Hin. apply elem_delete in Hin as [_ Hin]. now apply (Hr k w).
  - intros k w Hin. apply elem_delete in Hin as [_ Hin]. now apply (Hi k w).
Qed.

Lemma server_wf_setWalletActive a flag st : wf st -> wf (setWalletActive a flag st).
Proof.
  intros Hwf. unfold setWalletActive.
  destruct (JsMap.get _ (copiedWallets st)); [| assumption].
  now apply wf_adjust_same_trades.
Qed.

Lemma server_wf_reachable st : reachable st -> wf st.
Proof.
  induction 1.
  - apply wf_initial.
  - now apply wf_addWallet.
  - now apply server_wf_pollWalletOrders.
  - now apply server_wf_removeWallet.
  - now apply server_wf_setWalletActive.
Qed.

(** An id the wallet holds stays with it when another order is
    processed. *)
Lemma processOrder_keeps now order key st orderId :
  wf st ->
  (exists w, JsMap.get key (copiedWallets st) = Some w /\
             orderId ∈ tradeIds (tradeObjects st) (trades w)) ->
  exists w', JsMap.get key (copiedWallets (processOrder now order key st)) = Some w' /\
             orderId ∈ tradeIds (tradeObjects (processOrder now order key st))
                        (trades w').
Proof.
  intros Hwf (w & Hget & Hin). unfold processOrder. rewrite Hget.
  destruct (findTrade _ _ (trades w)); [now exists w |].
  exists (pushTrade (length (tradeObjects st)) w). simpl. split.
  - now rewrite get_adjust_eq, Hget.
  - rewrite server_tradeIds_app. apply elem_of_app. left.
    rewrite server_tradeIds_grow; [assumption |].
    intros ref Href. apply (wf_refs st Hwf key w); [| assumption].
    now apply get_Some_elem.
Qed.

Lemma server_processOrder_records now order key st :
  is_Some (JsMap.get key (copiedWallets st)) ->
  exists w', JsMap.get key (copiedWallets (processOrder now order key st)) = Some w' /\
             Order.id order ∈ tradeIds (tradeObjects (processOrder now order key st))
                                (trades w').
Proof.
  intros [w Hget]. unfold processOrder. rewrite Hget.
  destruct (findTrade _ _ (trades w)) eqn:Hfind.
  - exists w. split; [assumption |]. now apply server_findTrade_Some in Hfind.
  - exists (pushTrade (length (tradeObjects st)) w). simpl. split.
    + now rewrite get_adjust_eq, Hget.
    + rewrite server_tradeIds_app. apply elem_of_app. right.
      rewrite server_tradeIds_fresh. now apply list_elem_of_singleton.
Qed.

Lemma processAll_keeps now key orders : forall st orderId,
  wf st ->
  (exists w, JsMap.get key (copiedWallets st) = Some w /\
             orderId ∈ tradeIds (tradeObjects st) (trades w)) ->
  exists w', JsMap.get key (copiedWallets
                 (fold_left (fun s o => processOrder now o key s) orders st)) = Some w' /\
             orderId ∈ tradeIds (tradeObjects
                 (fold_left (fun s o => processOrder now o key s) orders st))
                        (trades w').
Proof.
  induction orders as [| o orders IH]; simpl; intros st orderId Hwf Hhas.
  - assumption.
  - apply IH; [now apply server_wf_processOrder | now apply processOrder_keeps].
Qed.

Lemma processAll_records now key orders : forall st order,
  wf st ->
  is_Some (JsMap.get key (copiedWallets st)) ->
  order ∈ orders ->
  exists w', JsMap.get key (copiedWallets
                 (fold_left (fun s o => processOrder now o key s) orders st)) = Some w' /\
             Order.id order ∈ tradeIds (tradeObjects
                 (fold_left (fun s o => processOrder now o key s) orders st))
                        (trades w').
Proof.
  induction orders as [| o orders IH]; simpl; intros st order Hwf Hreg Hin.
  - now apply elem_of_nil in Hin.
  - apply elem_of_cons in Hin as [-> | Hin].
    + apply processAll_keeps; [now apply server_wf_processOrder |].
      now apply server_processOrder_records.
    + apply IH; [now apply server_wf_processOrder | | assumption].
      destruct (server_processOrder_records now o key st Hreg) as (w' & Hw' & _).
      now exists w'.
Qed.

(** A successful poll of a registered address records every order of
    the response exactly once. *)
Lemma poll_exactly_one now net a status raws raw st :
  wf st ->
  is_Some (JsMap.get (Js.toLowerCase a) (copiedWallets st)) ->
  net (Js.toLowerCase a) = Api.Response status (Api.OrderArray raws) ->
  Api.ok status = true ->
  raw ∈ raws ->
  exists w,
    JsMap.get (Js.toLowerCase a) (copiedWallets (pollWalletOrders now net a st)) = Some w /\
    countId (tradeObjects (pollWalletOrders now net a st)) (RawOrder.id raw) (trades w) = 1.
Proof.
  intros Hwf Hreg Hnet Hok Hin.
  pose proof (server_wf_pollWalletOrders now net a st Hwf) as Hwf'.
  revert Hwf'. unfold pollWalletOrders.
  destruct Hreg as [w0 Hw0]. rewrite Hw0.
  unfold Api.getWalletOrders, Api.tryGetWalletOrders. rewrite Hnet, Hok. simpl.
  set (orders := map _ (Api.parseOrders raws)).
  set (order := Api.parseOrder raw).
  assert (Hraw : exists o, o ∈ orders /\ Order.id o = RawOrder.id raw).
  { subst orders. unfold Api.parseOrders. rewrite map_map.
    eexists. split.
    - apply list_elem_of_In, in_map, list_elem_of_In. exact Hin.
    - reflexivity. }
  destruct Hraw as (o & Ho & Hid).
  destruct (processAll_records now (Js.toLowerCase a) orders st o Hwf
              (ex_intro _ w0 Hw0) Ho) as (w' & Hget' & Hin').
  intros Hwf'.
  exists (updateWalletStats
            (tradeObjects (fold_left
               (fun s o => processOrder now o (Js.toLowerCase a) s) orders st)) w').
  split.
  - now rewrite get_adjust_eq, Hget'.
  - unfold countId. apply count_exactly_one.
    + eapply (wf_ids _ Hwf'). apply get_Some_elem. simpl.
      rewrite get_adjust_eq, Hget'. reflexivity.
    + simpl. now rewrite <- Hid.
Qed.

Lemma server_wf_countId st k w orderId :
  wf st -> (k, w) ∈ copiedWallets st ->
  countId (tradeObjects st) orderId (trades w) <= 1.
Proof.
  intros Hwf Hin. unfold countId. apply count_le_one.
  now apply (wf_ids st Hwf k w).
Qed.

End ServerFacts.

(** * The claims of the specification *)

(** C1. At most one Trade per Order identifier per wallet. In every
    state the copy trader can reach, no wallet's trade list holds two
    trades with one order id; and when an order id is delivered to a
    registered wallet one or more times, by poll or by push in any mix,
    the wallet afterwards holds exactly one trade with that id. The same
    holds for the server, whose only channel is the poll. *)
Theorem one_trade_per_order_id :
  (forall st, Enhanced.reachable st ->
     (forall k w orderId, (k, w) ∈ Enhanced.copiedWallets st ->
        Enhanced.countId (Enhanced.tradeObjects st) orderId (Wallet.trades w) <= 1)
     /\
     (forall key orderId events,
        is_Some (JsMap.get key (Enhanced.copiedWallets st)) ->
        events <> [] ->
        Forall (fun e : Z * Enhanced.Channel * RawOrder.t =>
                  RawOrder.id (snd e) = orderId /\
                  Js.toLowerCase (RawOrder.trader (snd e)) = key) events ->
        exists w,
          JsMap.get key (Enhanced.copiedWallets (Enhanced.deliverAll events st))
            = Some w /\
          Enhanced.countId (Enhanced.tradeObjects (Enhanced.deliverAll events st))
            orderId (Wallet.trades w) = 1))
  /\
  (forall st, Server.reachable st ->
     (forall k w orderId, (k, w) ∈ Server.copiedWallets st ->
        Server.countId (Server.tradeObjects st) orderId (Server.trades w) <= 1)
     /\
     (forall now net a status raws raw,
        is_Some (JsMap.get (Js.toLowerCase a) (Server.copiedWallets st)) ->
        net (Js.toLowerCase a) = Api.Response status (Api.OrderArray raws) ->
        Api.ok status = true ->
        raw ∈ raws ->
        exists w,
          JsMap.get (Js.toLowerCase a)
            (Server.copiedWallets (Server.pollWalletOrders now net a st)) = Some w /\
          Server.countId (Server.tradeObjects (Server.pollWalletOrders now net a st))
            (RawOrder.id raw) (Server.trades w) = 1)).
Proof.
  split.
  - intros st Hreach. apply EnhancedFacts.wf_reachable in Hreach. split.
    + intros k w orderId Hin. now apply (EnhancedFacts.wf_countId st k).
    + intros key orderId events Hreg Hne Hall.
      now apply EnhancedFacts.deliverAll_exactly_one.
  - intros st Hreach. apply ServerFacts.server_wf_reachable in Hreach. split.
    + intros k w orderId Hin. now apply (ServerFacts.server_wf_countId st k).
    + intros now net a status raws raw Hreg Hnet Hok Hin.
      now apply (ServerFacts.poll_exactly_one now net a status raws raw).
Qed.

Lemma one_trade_per_order_id_witness :
  exists w,
    JsMap.get "0xabc"
      (Enhanced.copiedWallets
         (Enhanced.deliverAll
            [(2000%Z, Enhanced.Poll, Scenario.order1 "OPEN");
             (3000%Z, Enhanced.PushUpdated, Scenario.order1 "FILLED")]
            (Enhanced.registerWallet 1000 "0xABC" "X" Enhanced.constructor)))
      = Some w /\
    Enhanced.countId
      (Enhanced.tradeObjects
         (Enhanced.deliverAll
            [(2000%Z, Enhanced.Poll, Scenario.order1 "OPEN");
             (3000%Z, Enhanced.PushUpdated, Scenario.order1 "FILLED")]
            (Enhanced.registerWallet 1000 "0xABC" "X" Enhanced.constructor)))
      "1" (Wallet.trades w) = 1.
Proof.
  apply (proj2 (proj1 one_trade_per_order_id
                  (Enhanced.registerWallet 1000 "0xABC" "X" Enhanced.constructor)
                  (Enhanced.reach_register 1000 "0xABC" "X" _
                     Enhanced.reach_constructor))).
  - vm_compute. eexists. reflexivity.
  - discriminate.
  - repeat constructor.
Defined.

(** C5. An order whose normalized trader address has no wallet in the
    registry is discarded: [processOrder] returns and the state is the
    one it was given. This is so in particular for an order (polled, or
    pushed as order_created or order_updated) that arrives after its
    wallet was removed. *)
Theorem processOrder_unknown_wallet_discarded :
  (forall now order st,
     JsMap.get (Js.toLowerCase (Order.trader order)) (Enhanced.copiedWallets st) = None ->
     Enhanced.processOrder now order st = Js.Returned st)
  /\
  (forall now order a st,
     Js.toLowerCase (Order.trader order) = Js.toLowerCase a ->
     Enhanced.processOrder now order (Enhanced.removeWallet a st)
     = Js.Returned (Enhanced.removeWallet a st))
  /\
  (forall now ch raw a st,
     Js.toLowerCase (RawOrder.trader raw) = Js.toLowerCase a ->
     Enhanced.deliver now ch raw (Enhanced.removeWallet a st)
     = Enhanced.removeWallet a st).
Proof.
  assert (H1 : forall now order st,
     JsMap.get (Js.toLowerCase (Order.trader order)) (Enhanced.copiedWallets st) = None ->
     Enhanced.processOrder now order st = Js.Returned st).
  { intros now order st Hnone. unfold Enhanced.processOrder. now rewrite Hnone. }
  assert (H2 : forall now order a st,
     Js.toLowerCase (Order.trader order) = Js.toLowerCase a ->
     Enhanced.processOrder now order (Enhanced.removeWallet a st)
     = Js.Returned (Enhanced.removeWallet a st)).
  { intros now order a st Hsame. apply H1. simpl. rewrite Hsame.
    apply get_delete_eq. }
  split; [exact H1 |]. split; [exact H2 |].
  intros now ch raw a st Hsame.
  rewrite EnhancedFacts.deliver_processOrder. now rewrite H2.
Qed.

Lemma processOrder_unknown_wallet_discarded_witness :
  Enhanced.processOrder 5000 (Api.parseOrder (Scenario.order1 "OPEN"))
    (Enhanced.removeWallet "0xABC" (Js.stateOf Scenario.afterFirstPoll))
  = Js.Returned (Enhanced.removeWallet "0xABC" (Js.stateOf Scenario.afterFirstPoll)).
Proof.
  apply (proj1 (proj2 processOrder_unknown_wallet_discarded)).
  reflexivity.
Defined.

(** C6. [getWalletOrders] returns the empty array when the request is
    rejected (transport error) and when the response has a status
    outside 200-299; indeed whatever its [try] block throws, the result
    is the empty array, the same value a successful response with no
    orders gives. *)
Theorem getWalletOrders_swallows_errors :
  forall (net : Api.Network) (a : string),
    (net (Js.toLowerCase a) = Api.Rejected -> Api.getWalletOrders net a = [])
    /\ (forall status body,
          net (Js.toLowerCase a) = Api.Response status body ->
          Api.ok status = false -> Api.getWalletOrders net a = [])
    /\ (forall e, Api.tryGetWalletOrders net a = inl e ->
                  Api.getWalletOrders net a = [])
    /\ (forall e, Api.tryGetWalletOrders net a = inl e ->
          Api.getWalletOrders net a
          = Api.getWalletOrders (fun _ => Api.Response 200 (Api.OrderArray [])) a).
Proof.
  intros net a. unfold Api.getWalletOrders, Api.tryGetWalletOrders.
  repeat split.
  - intros ->. reflexivity.
  - intros status body -> Hok. now rewrite Hok.
  - intros e He. now rewrite He.
  - intros e He. now rewrite He.
Qed.

Lemma getWalletOrders_swallows_errors_witness :
  Api.getWalletOrders (fun _ => Api.Response 503 Api.Malformed) "0xABC" = []
  /\ Api.getWalletOrders (fun _ => Api.Rejected) "0xABC" = [].
Proof.
  split.
  - apply (proj1 (proj2 (getWalletOrders_swallows_errors
                           (fun _ => Api.Response 503 Api.Malformed) "0xABC"))
             503 Api.Malformed); reflexivity.
  - apply (proj1 (getWalletOrders_swallows_errors (fun _ => Api.Rejected) "0xABC")).
    reflexivity.
Defined.

(** C10. [removeWallet] deletes the Map entry of the lower-cased address
    and nothing else: the trade store, the global trade history and the
    statistics counters are the same, every other key resolves to the
    same record, and the dashboard reports the same global counters. *)
Theorem removeWallet_frame :
  forall a st,
    Enhanced.tradeHistory (Enhanced.removeWallet a st) = Enhanced.tradeHistory st
    /\ Enhanced.tradeObjects (Enhanced.removeWallet a st) = Enhanced.tradeObjects st
    /\ Enhanced.stats (Enhanced.removeWallet a st) = Enhanced.stats st
    /\ Enhanced.isMonitoring (Enhanced.removeWallet a st) = Enhanced.isMonitoring st
    /\ Enhanced.testMode (Enhanced.removeWallet a st) = Enhanced.testMode st
    /\ (forall k,
          JsMap.get k (Enhanced.copiedWallets (Enhanced.removeWallet a st))
          = if String.eqb k (Js.toLowerCase a) then None
            else JsMap.get k (Enhanced.copiedWallets st))
    /\ (forall now,
          Enhanced.d_stats (Enhanced.getDashboardData now (Enhanced.removeWallet a st))
          = Enhanced.d_stats (Enhanced.getDashboardData now st)).
Proof.
  intros a st. repeat split.
  intros k. simpl. destruct (String.eqb k (Js.toLowerCase a)) eqn:E.
  - apply String.eqb_eq in E. subst k. apply get_delete_eq.
  - apply String.eqb_neq in E. apply get_delete_ne. congruence.
Qed.

(** The success rate of the server's wallets with no trades. *)
Module ServerRateFacts.
Import Server.

Lemma zeroRate_processOrder now order key st :
  zeroRate st -> zeroRate (processOrder now order key st).
Proof.
  intros Hz. unfold processOrder.
  destruct (JsMap.get key (copiedWallets st)) as [wallet |]; [| assumption].
  destruct (findTrade _ _ _); [assumption |].
  intros k w Hin Hnil. simpl in Hin.
  apply elem_adjust_inv in Hin as [Hin | [-> (w0 & Hw0 & ->)]].
  - now apply (Hz k w).
  - simpl in Hnil. now destruct (trades w0).
Qed.

Lemma zeroRate_pollWalletOrders now net a st :
  zeroRate st -> zeroRate (pollWalletOrders now net a st).
Proof.
  intros Hz. unfold pollWalletOrders.
  destruct (JsMap.get _ (copiedWallets st)) as [found |]; [| assumption].
  set (orders := map _ _). clearbody orders.
  assert (Hfold : zeroRate (fold_left
            (fun s order => processOrder now order (Js.toLowerCase a) s) orders st)).
  { revert st Hz. induction orders as [| o orders IH]; simpl; intros st Hz.
    - assumption.
    - apply IH. now apply zeroRate_processOrder. }
  intros k w Hin Hnil. simpl in Hin.
  apply elem_adjust_inv in Hin as [Hin | [-> (w0 & Hw0 & ->)]].
  - now apply (Hfold k w).
  - simpl in Hnil. simpl. now rewrite Hnil.
Qed.

Lemma zeroRate_reachable st : reachable st -> zeroRate st.
Proof.
  induction 1 as [| now net a nick st _ IH | now net a st _ IH
                 | a st _ IH | a flag st _ IH].
  - intros k w Hin. now apply elem_of_nil in Hin.
  - unfold addWallet.
    match goal with |- zeroRate (startPolling ?s) =>
      assert (Hs : zeroRate s); [| exact Hs] end.
    apply zeroRate_pollWalletOrders.
    intros k w Hin Hnil. simpl in Hin.
    apply elem_set_inv in Hin as [Hin | [_ ->]]; [now apply (IH k w) | reflexivity].
  - now apply zeroRate_pollWalletOrders.
  - intros k w Hin. simpl in Hin. apply elem_delete in Hin as [_ Hin].
    now apply (IH k w).
  - unfold setWalletActive.
    destruct (JsMap.get _ (copiedWallets st)) as [found |]; [| assumption].
    intros k w Hin Hnil. simpl in Hin.
    apply elem_adjust_inv in Hin as [Hin | [-> (w0 & Hw0 & ->)]].
    + now apply (IH k w).
    + simpl in *. exact (IH _ w0 Hw0 Hnil).
Qed.

End ServerRateFacts.

(** C3. Addresses are stored and looked up in lower case. For two
    spellings [a], [b] of one address that differ only in the case of
    letters: both are normalized to one key; a wallet registered as [a]
    is the record an order with trader [b] resolves to; and processing
    such an order puts its trade on that record. *)
Theorem address_lookup_ignores_case :
  forall a b, Js.sameIgnoringCase a b ->
    Js.toLowerCase a = Js.toLowerCase b
    /\ (forall now nick st order, Order.trader order = b ->
          JsMap.get (Js.toLowerCase (Order.trader order))
            (Enhanced.copiedWallets (Enhanced.registerWallet now a nick st))
          = Some (Wallet.mk nick (Js.toLowerCase a) true now []))
    /\ (forall now now' nick st order, Order.trader order = b ->
          JsMap.get (Js.toLowerCase a)
            (Enhanced.copiedWallets
               (Js.stateOf (Enhanced.processOrder now' order
                              (Enhanced.registerWallet now a nick st))))
          = Some (Wallet.mk nick (Js.toLowerCase a) true now
                    [length (Enhanced.tradeObjects st)])).
Proof.
  intros a b Hab. pose proof (toLowerCase_sameIgnoringCase a b Hab) as Hlow.
  split; [exact Hlow |]. split.
  - intros now nick st order Hb. rewrite Hb, <- Hlow. simpl. apply get_set_eq.
  - intros now now' nick st order Hb. unfold Enhanced.processOrder.
    rewrite Hb, <- Hlow. simpl. rewrite get_set_eq. simpl.
    destruct (Enhanced.testMode st); simpl;
      rewrite Hb, <- Hlow, get_adjust_eq, get_set_eq; reflexivity.
Qed.

Lemma address_lookup_ignores_case_witness :
  JsMap.get (Js.toLowerCase "0XABCDEF")
    (Enhanced.copiedWallets Scenario.mixedCase)
  = Some (Wallet.mk "X" "0xabcdef" true 1000 []).
Proof.
  apply (proj1 (proj2 (address_lookup_ignores_case "0xAbCdEf" "0XABCDEF"
                         ltac:(vm_compute; intuition (auto; lia))))
           1000%Z "X" Enhanced.constructor
           (Api.parseOrder (Scenario.orderOf "0XABCDEF" "7" "OPEN"))).
  reflexivity.
Defined.

(** C4. A wallet with no trades has success rate 0, the number: the
    division is made only when the trade list is non-empty. On the
    dashboard of the copy trader every row with a fixed-point rate has a
    positive divisor; on the server the rate stored for a wallet with no
    trades is 0 in every reachable state. *)
Theorem successRate_zero_without_trades :
  (forall objects wallet, Wallet.trades wallet = [] ->
     Enhanced.v_successRate (Enhanced.walletView objects wallet)
     = Enhanced.RateNumber 0)
  /\
  (forall now st,
     Forall2 (fun wallet view =>
                (Wallet.trades wallet = [] ->
                 Enhanced.v_successRate view = Enhanced.RateNumber 0)
                /\ (forall p n, Enhanced.v_successRate view = Enhanced.RateFixed1 p n ->
                                0 < n /\ n = length (Wallet.trades wallet)))
       (JsMap.values (Enhanced.copiedWallets st))
       (Enhanced.d_wallets (Enhanced.getDashboardData now st)))
  /\
  (forall objects w, Server.trades w = [] ->
     Server.s_successRate (Server.wstats (Server.updateWalletStats objects w))
     = Enhanced.RateNumber 0)
  /\
  (forall now st, Server.reachable st ->
     Forall2 (fun wallet view =>
                Server.trades wallet = [] ->
                Server.v_successRate view = Enhanced.RateNumber 0)
       (JsMap.values (Server.copiedWallets st))
       (Server.d_wallets (Server.getDashboardData now st))).
Proof.
  split; [| split; [| split]].
  - intros objects wallet Hnil. unfold Enhanced.walletView. simpl.
    now rewrite Hnil.
  - intros now st. simpl. apply Forall2_map_self. intros wallet _.
    unfold Enhanced.walletView. simpl.
    destruct (Wallet.trades wallet) as [| r refs]; simpl.
    + split; [reflexivity | discriminate].
    + split; [discriminate |]. intros p n [= <- <-]. split; [lia | reflexivity].
  - intros objects w Hnil. simpl. now rewrite Hnil.
  - intros now st Hreach. simpl. apply Forall2_map_self. intros wallet Hin Hnil.
    apply elem_values in Hin as [k Hk]. simpl.
    now apply (ServerRateFacts.zeroRate_reachable st Hreach k).
Qed.

Lemma successRate_zero_without_trades_witness :
  Enhanced.v_successRate
    (Enhanced.walletView [] (Wallet.mk "X" "0xabcdef" true 1000 []))
  = Enhanced.RateNumber 0.
Proof.
  apply (proj1 successRate_zero_without_trades). reflexivity.
Defined.

(** ** The polling sweep *)

Module SweepFacts.
Import Enhanced.

Lemma sweep_polled_inv now net entries : forall st polled x,
  x ∈ snd (sweep now net entries st polled) ->
  x ∈ polled \/ exists w, (x, w) ∈ entries /\ Wallet.active w = true.
Proof.
  induction entries as [| [address wallet] entries IH]; simpl; intros st polled x Hx.
  - now left.
  - destruct (Wallet.active wallet) eqn:Hact.
    + destruct (pollWalletOrders now net address st) as [st' | e st']; simpl in Hx.
      * apply IH in Hx as [Hx | (w & Hw & Hwa)].
        -- apply elem_of_app in Hx as [Hx | Hx]; [now left |].
           apply list_elem_of_singleton in Hx. subst x. right.
           exists wallet. split; [apply elem_of_cons; now left | assumption].
        -- right. exists w. split; [apply elem_of_cons; now right | assumption].
      * apply elem_of_app in Hx as [Hx | Hx]; [now left |].
        apply list_elem_of_singleton in Hx. subst x. right.
        exists wallet. split; [apply elem_of_cons; now left | assumption].
    + apply IH in Hx as [Hx | (w & Hw & Hwa)]; [now left |].
      right. exists w. split; [apply elem_of_cons; now right | assumption].
Qed.

Lemma sweep_returned_all now net entries : forall st polled x,
  Js.returned (fst (sweep now net entries st polled)) = true ->
  (x ∈ polled \/ exists w, (x, w) ∈ entries /\ Wallet.active w = true) ->
  x ∈ snd (sweep now net entries st polled).
Proof.
  induction entries as [| [address wallet] entries IH]; simpl;
    intros st polled x Hret Hx.
  - destruct Hx as [Hx | (w & Hw & _)]; [assumption |].
    now apply elem_of_nil in Hw.
  - destruct (Wallet.active wallet) eqn:Hact.
    + destruct (pollWalletOrders now net address st) as [st' | e st'];
        simpl in Hret; [| discriminate].
      apply IH; [assumption |].
      destruct Hx as [Hx | (w & Hw & Hwa)].
      * left. apply elem_of_app. now left.
      * apply elem_of_cons in Hw as [[= -> ->] | Hw].
        -- left. apply elem_of_app. right. now apply list_elem_of_singleton.
        -- right. now exists w.
    + apply IH; [assumption |].
      destruct Hx as [Hx | (w & Hw & Hwa)]; [now left |].
      apply elem_of_cons in Hw as [[= -> ->] | Hw]; [congruence |].
      right. now exists w.
Qed.

Lemma get_setWalletActive a flag st k :
  JsMap.get k (copiedWallets (setWalletActive a flag st))
  = (fun w => if String.eqb k (Js.toLowerCase a) then Wallet.setActive flag w else w)
      <$> JsMap.get k (copiedWallets st).
Proof.
  unfold setWalletActive.
  destruct (String.eqb k (Js.toLowerCase a)) eqn:E.
  - apply String.eqb_eq in E. subst k.
    destruct (JsMap.get _ (copiedWallets st)) as [w |] eqn:Hget; simpl.
    + now rewrite get_adjust_eq, Hget.
    + now rewrite Hget.
  - apply String.eqb_neq in E.
    destruct (JsMap.get (Js.toLowerCase a) (copiedWallets st)) as [w |]; simpl.
    + rewrite get_adjust_ne by congruence. now destruct (JsMap.get k _).
    + now destruct (JsMap.get k _).
Qed.

Lemma adjust_adjust {V : Type} (f g h : V -> V) k (m : list (string * V)) :
  (forall v, f (g v) = h v) ->
  JsMap.adjust f k (JsMap.adjust g k m) = JsMap.adjust h k m.
Proof.
  intros Hfg. induction m as [| [k0 v0] m IH]; simpl; [reflexivity |].
  destruct (String.eqb k0 k) eqn:E; simpl; rewrite E.
  - now rewrite Hfg.
  - now rewrite IH.
Qed.

Lemma adjust_id {V : Type} (f : V -> V) k (m : list (string * V)) :
  (forall v, JsMap.get k m = Some v -> f v = v) -> JsMap.adjust f k m = m.
Proof.
  induction m as [| [k0 v0] m IH]; simpl; intros Hf; [reflexivity |].
  destruct (String.eqb k0 k) eqn:E.
  - now rewrite Hf.
  - now rewrite IH.
Qed.

Lemma setWalletActive_twice a flag flag' st :
  setWalletActive a flag' (setWalletActive a flag st) = setWalletActive a flag' st.
Proof.
  unfold setWalletActive at 2.
  destruct (JsMap.get (Js.toLowerCase a) (copiedWallets st)) as [w |] eqn:Hget;
    [| reflexivity].
  unfold setWalletActive. simpl. rewrite get_adjust_eq, Hget. simpl.
  f_equal. now apply adjust_adjust.
Qed.

Lemma setWalletActive_same a st w :
  JsMap.get (Js.toLowerCase a) (copiedWallets st) = Some w ->
  setWalletActive a (Wallet.active w) st = st.
Proof.
  intros Hget. unfold setWalletActive. rewrite Hget.
  rewrite adjust_id; [now destruct st |].
  intros v Hv. rewrite Hget in Hv. injection Hv as <-. now destruct w.
Qed.

End SweepFacts.

(** C7. Pausing a wallet takes it out of the polling sweep and changes
    nothing but its [active] flag: in every reachable state, after
    [setWalletActive a false] no tick of the timer polls the address;
    every key resolves to the record it had, with only the flag of the
    paused wallet changed (nickname, address, last-checked time and
    trade list are the same); the order of the Map, the trade store, the
    history and the counters are the same. Activating again gives the
    state that activating the original state gives, which is the
    original state when the wallet was active; and a tick that runs to
    its end then polls the address. *)
Theorem pausing_excludes_from_sweep_only :
  forall a st, Enhanced.reachable st ->
    (forall now net,
       Js.toLowerCase a ∉
         snd (Enhanced.pollingTick now net (Enhanced.setWalletActive a false st)))
    /\ (forall k,
          JsMap.get k (Enhanced.copiedWallets (Enhanced.setWalletActive a false st))
          = (fun w => if String.eqb k (Js.toLowerCase a)
                      then Wallet.mk (Wallet.nickname w) (Wallet.address w) false
                             (Wallet.lastChecked w) (Wallet.trades w)
                      else w)
              <$> JsMap.get k (Enhanced.copiedWallets st))
    /\ JsMap.keys (Enhanced.copiedWallets (Enhanced.setWalletActive a false st))
       = JsMap.keys (Enhanced.copiedWallets st)
    /\ Enhanced.tradeObjects (Enhanced.setWalletActive a false st)
       = Enhanced.tradeObjects st
    /\ Enhanced.tradeHistory (Enhanced.setWalletActive a false st)
       = Enhanced.tradeHistory st
    /\ Enhanced.stats (Enhanced.setWalletActive a false st) = Enhanced.stats st
    /\ Enhanced.setWalletActive a true (Enhanced.setWalletActive a false st)
       = Enhanced.setWalletActive a true st
    /\ (forall w,
          JsMap.get (Js.toLowerCase a) (Enhanced.copiedWallets st) = Some w ->
          Wallet.active w = true ->
          Enhanced.setWalletActive a true (Enhanced.setWalletActive a false st) = st)
    /\ (forall now net,
          is_Some (JsMap.get (Js.toLowerCase a) (Enhanced.copiedWallets st)) ->
          Js.returned
            (fst (Enhanced.pollingTick now net
                    (Enhanced.setWalletActive a true
                       (Enhanced.setWalletActive a false st)))) = true ->
          Js.toLowerCase a ∈
            snd (Enhanced.pollingTick now net
                   (Enhanced.setWalletActive a true
                      (Enhanced.setWalletActive a false st)))).
Proof.
  intros a st Hreach.
  pose proof (EnhancedFacts.wf_reachable st Hreach) as Hwf.
  split; [| split; [| split; [| split; [| split; [| split; [| split; [| split]]]]]]].
  - intros now net Hin. unfold Enhanced.pollingTick in Hin.
    apply SweepFacts.sweep_polled_inv in Hin as [Hin | (w & Hw & Hact)].
    + now apply elem_of_nil in Hin.
    + apply elem_get in Hw.
      * rewrite SweepFacts.get_setWalletActive, String.eqb_refl in Hw.
        destruct (JsMap.get _ (Enhanced.copiedWallets st)) as [w0 |];
          simpl in Hw; [| discriminate].
        injection Hw as <-. simpl in Hact. discriminate.
      * apply (Enhanced.wf_keys _ (EnhancedFacts.wf_setWalletActive a false st Hwf)).
  - intros k. apply SweepFacts.get_setWalletActive.
  - unfold Enhanced.setWalletActive.
    destruct (JsMap.get _ (Enhanced.copiedWallets st)); [apply keys_adjust | reflexivity].
  - unfold Enhanced.setWalletActive.
    now destruct (JsMap.get _ (Enhanced.copiedWallets st)).
  - unfold Enhanced.setWalletActive.
    now destruct (JsMap.get _ (Enhanced.copiedWallets st)).
  - unfold Enhanced.setWalletActive.
    now destruct (JsMap.get _ (Enhanced.copiedWallets st)).
  - apply SweepFacts.setWalletActive_twice.
  - intros w Hget Hact. rewrite SweepFacts.setWalletActive_twice.
    rewrite <- Hact. now apply SweepFacts.setWalletActive_same.
  - intros now net [w Hget] Hret.
    apply SweepFacts.sweep_returned_all; [exact Hret |].
    right. exists (Wallet.setActive true w). split; [| reflexivity].
    apply get_Some_elem.
    rewrite SweepFacts.setWalletActive_twice, SweepFacts.get_setWalletActive.
    now rewrite String.eqb_refl, Hget.
Qed.

Lemma pausing_excludes_from_sweep_only_witness :
  ("0xabcdef" ∉
     snd (Enhanced.pollingTick 11000 (Scenario.venue "OPEN")
            (Enhanced.setWalletActive "0xAbCdEf" false Scenario.mixedCase)))
  /\
  ("0xabcdef" ∈
     snd (Enhanced.pollingTick 11000 (fun _ => Api.Rejected)
            (Enhanced.setWalletActive "0xAbCdEf" true
               (Enhanced.setWalletActive "0xAbCdEf" false Scenario.mixedCase)))).
Proof.
  pose proof (pausing_excludes_from_sweep_only "0xAbCdEf" Scenario.mixedCase
                (Enhanced.reach_register 1000 "0xAbCdEf" "X" _
                   Enhanced.reach_constructor)) as H.
  split.
  - exact (proj1 H 11000%Z (Scenario.venue "OPEN")).
  - apply (proj2 (proj2 (proj2 (proj2 (proj2 (proj2 (proj2 (proj2 H))))))) 11000%Z
             (fun _ => Api.Rejected)).
    + vm_compute. eexists. reflexivity.
    + reflexivity.
Defined.

(** ** Push events and the [active] flag *)

Module PushFacts.
Import Enhanced.

(** An order id the wallet already holds: [this.updateTrade] is called
    and is not a function; the state is untouched. *)
Lemma processOrder_known_id_throws now order st wallet ref :
  JsMap.get (Js.toLowerCase (Order.trader order)) (copiedWallets st) = Some wallet ->
  findTrade (tradeObjects st) (Order.id order) (Wallet.trades wallet) = Some ref ->
  processOrder now order st
  = Js.Threw (Js.TypeError "this.updateTrade is not a function") st.
Proof. intros Hget Hfind. unfold processOrder. now rewrite Hget, Hfind. Qed.












End PushFacts.

(** ** The trade a status event finds *)

Module HolderFacts.
Import Enhanced.

Lemma findTrade_none_of objects orderId refs :
  (forall r y, r ∈ refs -> objects !! r = Some y -> Trade.id y <> orderId) ->
  findTrade objects orderId refs = None.
Proof.
  unfold findTrade. induction refs as [| r refs IH]; simpl; intros Hno;
    [reflexivity |].
  destruct (objects !! r) as [y |] eqn:Hy.
  - destruct (String.eqb (Trade.id y) orderId) eqn:E.
    + apply String.eqb_eq in E. exfalso.
      apply (Hno r y); [apply elem_of_cons; now left | assumption | assumption].
    + apply IH. intros r' y' Hr'. apply Hno, elem_of_cons. now right.
  - apply IH. intros r' y' Hr'. apply Hno, elem_of_cons. now right.
Qed.

Lemma findTrade_first objects orderId pre ref post x :
  (forall r y, r ∈ pre -> objects !! r = Some y -> Trade.id y <> orderId) ->
  objects !! ref = Some x -> Trade.id x = orderId ->
  findTrade objects orderId (pre ++ ref :: post) = Some ref.
Proof.
  intros Hno Hx Hid. unfold findTrade.
  induction pre as [| r pre IH]; simpl.
  - rewrite Hx. apply String.eqb_eq in Hid. now rewrite Hid.
  - destruct (objects !! r) as [y |] eqn:Hy.
    + destruct (String.eqb (Trade.id y) orderId) eqn:E.
      * apply String.eqb_eq in E. exfalso.
        apply (Hno r y); [apply elem_of_cons; now left | assumption | assumption].
      * apply IH. intros r' y' Hr'. apply Hno, elem_of_cons. now right.
    + apply IH. intros r' y' Hr'. apply Hno, elem_of_cons. now right.
Qed.

Lemma findInWallets_none_of objects orderId (entries : list (string * Wallet.t)) :
  (forall k w r y, (k, w) ∈ entries -> r ∈ Wallet.trades w ->
                   objects !! r = Some y -> Trade.id y <> orderId) ->
  findInWallets objects orderId entries = None.
Proof.
  induction entries as [| [k w] entries IH]; simpl; intros Hno; [reflexivity |].
  rewrite findTrade_none_of.
  - apply IH. intros k' w' r y Hin. apply (Hno k' w' r y), elem_of_cons. now right.
  - intros r y. apply (Hno k w r y), elem_of_cons. now left.
Qed.

Lemma findInWallets_first objects orderId
  (before after : list (string * Wallet.t)) k w ref :
  (forall k' w' r y, (k', w') ∈ before -> r ∈ Wallet.trades w' ->
                     objects !! r = Some y -> Trade.id y <> orderId) ->
  findTrade objects orderId (Wallet.trades w) = Some ref ->
  findInWallets objects orderId (before ++ (k, w) :: after) = Some ref.
Proof.
  intros Hno Hfind. induction before as [| [k0 w0] before IH]; simpl.
  - now rewrite Hfind.
  - rewrite findTrade_none_of.
    + apply IH. intros k' w' r y Hin. apply (Hno k' w' r y), elem_of_cons. now right.
    + intros r y. apply (Hno k0 w0 r y), elem_of_cons. now left.
Qed.

Lemma alter_insert {A : Type} (f : A -> A) (l : list A) : forall i x,
  l !! i = Some x -> alter f i l = <[i:=f x]> l.
Proof.
  induction l as [| a l IH]; intros [| i] x Hx; simpl in *; try discriminate.
  - injection Hx as ->. reflexivity.
  - f_equal. now apply IH.
Qed.

(** A status event for an id that no wallet holds. *)
Lemma status_event_without_holder now (filled : bool) raw st :
  (forall k w r y, (k, w) ∈ copiedWallets st -> r ∈ Wallet.trades w ->
     tradeObjects st !! r = Some y -> Trade.id y <> RawOrder.id raw) ->
  handleWebSocketMessage now
    (mkMessage (if filled then "order_filled" else "order_cancelled") raw) st
  = Js.Returned st.
Proof.
  intros Hno.
  assert (Hu : handleWebSocketMessage now
                 (mkMessage (if filled then "order_filled" else "order_cancelled") raw) st
               = updateOrderStatus now (RawOrder.id raw)
                   (if filled then "FILLED" else "CANCELLED") st)
    by now destruct filled.
  rewrite Hu. unfold updateOrderStatus.
  now rewrite findInWallets_none_of.
Qed.

(** A status event for an id held by wallet [w], the first holder in
    Map order, at [ref], the first such trade on its list. *)
Lemma status_event_on_first_holder now (filled : bool) raw st
  before k w after pre ref post x :
  copiedWallets st = before ++ (k, w) :: after ->
  (forall k' w' r y, (k', w') ∈ before -> r ∈ Wallet.trades w' ->
     tradeObjects st !! r = Some y -> Trade.id y <> RawOrder.id raw) ->
  Wallet.trades w = pre ++ ref :: post ->
  (forall r y, r ∈ pre -> tradeObjects st !! r = Some y ->
     Trade.id y <> RawOrder.id raw) ->
  tradeObjects st !! ref = Some x ->
  Trade.id x = RawOrder.id raw ->
  handleWebSocketMessage now
    (mkMessage (if filled then "order_filled" else "order_cancelled") raw) st
  = Js.Threw (Js.TypeError "this.updateDashboard is not a function")
      (mkState (copiedWallets st)
         (<[ref := Trade.mk (Trade.id x) (Trade.wallet x) (Trade.nickname x)
                     (Trade.market x) (Trade.side x) (Trade.size x) (Trade.price x)
                     (if filled then "FILLED" else "CANCELLED")
                     (Trade.token x) (Trade.createdAt x) (Trade.detectedAt x)
                     (Trade.testMode x) (Trade.pnl x) (Trade.outcome x)
                     (Some (Js.DateAt now))]> (tradeObjects st))
         (tradeHistory st) (isMonitoring st) (testMode st)
         (Stats.mk (Stats.totalTrades (stats st))
                   (Stats.profitableTrades (stats st))
                   (Stats.totalPnl (stats st))
                   (if filled then Stats.activeTrades (stats st) - 1
                    else Stats.activeTrades (stats st))%Z)).
Proof.
  intros Hmap Hbefore Htrades Hpre Hx Hid.
  assert (Hu : handleWebSocketMessage now
                 (mkMessage (if filled then "order_filled" else "order_cancelled") raw) st
               = updateOrderStatus now (RawOrder.id raw)
                   (if filled then "FILLED" else "CANCELLED") st)
    by now destruct filled.
  rewrite Hu. unfold updateOrderStatus.
  assert (Hfind : findInWallets (tradeObjects st) (RawOrder.id raw) (copiedWallets st)
                  = Some ref).
  { rewrite Hmap. apply findInWallets_first; [assumption |].
    rewrite Htrades. now apply (findTrade_first _ _ pre ref post x). }
  rewrite Hfind, (alter_insert _ _ ref x Hx).
  destruct filled; reflexivity.
Qed.

End HolderFacts.




(** ** Registering an address again *)

Module ReRegisterFacts.
Import Enhanced.

Lemma stateOf_recorded now order st :
  Js.stateOf (if testMode st then Js.Returned (recordTrade now order st)
              else Js.Threw (Js.TypeError "this.executeCopyTrade is not a function")
                     (recordTrade now order st))
  = recordTrade now order st.
Proof. now destruct (testMode st). Qed.

Lemma replaced_processOrder st0 old key nick now order s :
  (forall ref, ref ∈ Wallet.trades old -> ref < length (tradeObjects st0)) ->
  replaced st0 old key nick s ->
  replaced st0 old key nick (Js.stateOf (processOrder now order s)).
Proof.
  intros Hold (Hobj & Hhist & Hfresh & (w & Hw & Hact & Hnick)).
  assert (Hsame : replaced st0 old key nick s).
  { unfold replaced. repeat split; eauto. }
  unfold processOrder.
  destruct (JsMap.get (Js.toLowerCase (Order.trader order)) (copiedWallets s))
    as [wallet |] eqn:Hget; [| exact Hsame].
  destruct (findTrade _ _ (Wallet.trades wallet)); [exact Hsame |].
  rewrite stateOf_recorded. unfold replaced. simpl.
  split; [now apply prefix_app_r |]. split; [now apply prefix_app_r |]. split.
  - intros k w' ref Hin Href Href'.
    apply elem_adjust_inv in Hin as [Hin | [-> (w0 & Hw0 & ->)]].
    + now apply (Hfresh k w' ref).
    + simpl in Href'. apply elem_of_app in Href' as [Href' | Href'].
      * exact (Hfresh _ w0 ref Hw0 Href Href').
      * apply list_elem_of_singleton in Href'. subst ref.
        specialize (Hold _ Href). apply prefix_length in Hobj. lia.
  - destruct (string_dec (Js.toLowerCase (Order.trader order)) key) as [E | E].
    + rewrite E in *. rewrite get_adjust_eq, Hw. simpl.
      eexists. split; [reflexivity |]. now split.
    + rewrite get_adjust_ne by assumption. now exists w.
Qed.

Lemma replaced_registerWallet now a nick st old :
  wf st ->
  JsMap.get (Js.toLowerCase a) (copiedWallets st) = Some old ->
  replaced st old (Js.toLowerCase a) nick (registerWallet now a nick st).
Proof.
  intros Hwf Hget. unfold replaced. simpl.
  split; [reflexivity |]. split; [reflexivity |]. split.
  - intros k w ref Hin Href Href'.
    apply elem_set in Hin as [[Hne Hin] | [_ ->]]; [| | apply (wf_keys _ Hwf)].
    + apply Hne. apply get_Some_elem in Hget.
      now apply (wf_owner _ Hwf k w _ old ref).
    + now apply elem_of_nil in Href'.
  - rewrite get_set_eq. eexists. split; [reflexivity |]. now split.
Qed.

Lemma replaced_addWallet now net a nick st old :
  wf st ->
  JsMap.get (Js.toLowerCase a) (copiedWallets st) = Some old ->
  replaced st old (Js.toLowerCase a) nick (Js.stateOf (addWallet now net a nick st)).
Proof.
  intros Hwf Hget.
  assert (Hpoll : replaced st old (Js.toLowerCase a) nick
            (Js.stateOf (pollWalletOrders now net a (registerWallet now a nick st)))).
  { unfold pollWalletOrders. apply forEach_invariant.
    - intros order s. apply replaced_processOrder.
      intros ref Href. apply (wf_refs _ Hwf (Js.toLowerCase a) old); [| assumption].
      now apply get_Some_elem.
    - now apply replaced_registerWallet. }
  unfold addWallet.
  destruct (pollWalletOrders now net a (registerWallet now a nick st)) as [s | e s];
    simpl in *; [| assumption].
  now destruct (isMonitoring s).
Qed.

End ReRegisterFacts.

(** C9. [addWallet] on an address that is already registered (in
    whatever case) stores a fresh record under the same key: active,
    with the new nickname and an empty trade list, at the place the old
    record had in the Map, the trade store and the history untouched.
    When [addWallet] has run to its end (or thrown), the key names an
    active wallet with the new nickname, no wallet of the registry holds
    a trade of the replaced record, and the trade store and the global
    history still start with what they held before. *)
Theorem addWallet_again_replaces_record :
  forall now net a nick st old,
    Enhanced.reachable st ->
    JsMap.get (Js.toLowerCase a) (Enhanced.copiedWallets st) = Some old ->
    (JsMap.get (Js.toLowerCase a)
       (Enhanced.copiedWallets (Enhanced.registerWallet now a nick st))
     = Some (Wallet.mk nick (Js.toLowerCase a) true now [])
     /\ JsMap.keys (Enhanced.copiedWallets (Enhanced.registerWallet now a nick st))
        = JsMap.keys (Enhanced.copiedWallets st)
     /\ Enhanced.tradeObjects (Enhanced.registerWallet now a nick st)
        = Enhanced.tradeObjects st
     /\ Enhanced.tradeHistory (Enhanced.registerWallet now a nick st)
        = Enhanced.tradeHistory st)
    /\
    (let st' := Js.stateOf (Enhanced.addWallet now net a nick st) in
     (exists w, JsMap.get (Js.toLowerCase a) (Enhanced.copiedWallets st') = Some w /\
                Wallet.active w = true /\ Wallet.nickname w = nick)
     /\ (forall k w ref, (k, w) ∈ Enhanced.copiedWallets st' ->
           ref ∈ Wallet.trades old -> ref ∉ Wallet.trades w)
     /\ Enhanced.tradeObjects st `prefix_of` Enhanced.tradeObjects st'
     /\ Enhanced.tradeHistory st `prefix_of` Enhanced.tradeHistory st').
Proof.
  intros now net a nick st old Hreach Hget.
  pose proof (EnhancedFacts.wf_reachable st Hreach) as Hwf.
  split.
  - simpl. split; [apply get_set_eq |]. split; [| now split].
    rewrite keys_set. now rewrite Hget.
  - destruct (ReRegisterFacts.replaced_addWallet now net a nick st old Hwf Hget)
      as (Hobj & Hhist & Hfresh & Hw).
    cbv zeta. repeat split; assumption.
Qed.

Lemma addWallet_again_replaces_record_witness :
  JsMap.get (Js.toLowerCase "0xABC")
    (Enhanced.copiedWallets
       (Enhanced.registerWallet 20000 "0xABC" "Y" (Js.stateOf Scenario.afterFirstPoll)))
  = Some (Wallet.mk "Y" (Js.toLowerCase "0xABC") true 20000 []).
Proof.
  apply (proj1 (proj1 (addWallet_again_replaces_record 20000 (fun _ => Api.Rejected)
                         "0xABC" "Y" (Js.stateOf Scenario.afterFirstPoll)
                         (Wallet.mk "X" "0xabc" true 1000 [0])
                         (Enhanced.reach_startMonitoring _
                            (Enhanced.reach_poll 1000 (Scenario.venue "OPEN") "0xABC" _
                               (Enhanced.reach_register 1000 "0xABC" "X" _
                                  Enhanced.reach_constructor)))
                         eq_refl))).
Defined.

(** C2 (the code departs from the claim). An order whose id the wallet
    already holds makes [processOrder] call [this.updateTrade], which
    the class does not define: a TypeError is thrown and the state is
    the one before the call. In the scenario of the specification the
    second poll, which finds order 1 FILLED, therefore ends with that
    error; the trade keeps status OPEN and no update time, and the
    dashboard shows 1 trade and 1 active trade. *)
Theorem second_poll_leaves_trade_open :
  Scenario.afterSecondPoll
  = (Js.Threw (Js.TypeError "this.updateTrade is not a function")
       (Js.stateOf Scenario.afterFirstPoll), ["0xabc"])
  /\ (Trade.status <$> Enhanced.tradeObjects (Js.stateOf (fst Scenario.afterSecondPoll)) !! 0)
     = Some "OPEN"
  /\ (Trade.updatedAt <$> Enhanced.tradeObjects (Js.stateOf (fst Scenario.afterSecondPoll)) !! 0)
     = Some None
  /\ map Enhanced.v_trades
       (Enhanced.d_wallets
          (Enhanced.getDashboardData 12000 (Js.stateOf (fst Scenario.afterSecondPoll))))
     = [1]
  /\ Stats.activeTrades
       (Enhanced.d_stats
          (Enhanced.getDashboardData 12000 (Js.stateOf (fst Scenario.afterSecondPoll))))
     = 1%Z.
Proof. vm_compute. repeat split. Qed.

(** * Further properties of the code *)

(** ** The market data client *)

Section ClientFacts.

Lemma length_string_app (a b : string) :
  String.length (a ++ b)%string = String.length a + String.length b.
Proof. induction a as [| c a IH]; simpl; [reflexivity | now rewrite IH]. Qed.

Lemma length_substring0 (n : nat) (s : string) :
  String.length (Js.substring0 n s) = Nat.min n (String.length s).
Proof.
  revert s. induction n as [| n IH]; intros [| c s]; simpl; try reflexivity.
  now rewrite IH.
Qed.

Lemma rawData_parseOrders (raws : list RawOrder.t) :
  map Order.rawData (Api.parseOrders raws) = raws.
Proof.
  unfold Api.parseOrders. rewrite map_map. simpl.
  induction raws as [| r raws IH]; simpl; [reflexivity | now rewrite IH].
Qed.

(** X1. [parseOrders] keeps the orders apart and in order: the raw
    order is kept whole in [rawData], ids, traders and statuses are
    copied as they are, and two arrays that parse to the same result
    are the same array. *)
Theorem parseOrders_lossless :
  forall raws : list RawOrder.t,
    map Order.rawData (Api.parseOrders raws) = raws
    /\ map Order.id (Api.parseOrders raws) = map RawOrder.id raws
    /\ map Order.trader (Api.parseOrders raws) = map RawOrder.trader raws
    /\ map Order.status (Api.parseOrders raws) = map RawOrder.status raws
    /\ length (Api.parseOrders raws) = length raws
    /\ forall raws', Api.parseOrders raws = Api.parseOrders raws' -> raws = raws'.
Proof.
  intros raws. split; [apply rawData_parseOrders |].
  unfold Api.parseOrders. rewrite !map_map. simpl.
  split; [reflexivity |]. split; [reflexivity |]. split; [reflexivity |].
  split; [apply length_map |].
  intros raws' Heq.
  rewrite <- (rawData_parseOrders raws), <- (rawData_parseOrders raws').
  unfold Api.parseOrders. now rewrite Heq.
Qed.

Lemma parseOrders_lossless_witness :
  [Scenario.order1 "OPEN"] = [Scenario.order1 "OPEN"].
Proof.
  apply (proj2 (proj2 (proj2 (proj2 (proj2
           (parseOrders_lossless [Scenario.order1 "OPEN"])))))).
  reflexivity.
Defined.

Lemma lookupPlain_own (own : list (string * string)) (key : string) :
  JsMap.get key own = None ->
  Js.lookupPlain own key
  = if Js.isPrototypeMember key then Some (Js.ProtoMember key) else None.
Proof.
  intros Hnone. unfold Js.lookupPlain.
  assert (Hfind : List.find (fun field => String.eqb (fst field) key) own = None).
  { induction own as [| [k v] own IH]; simpl in *; [reflexivity |].
    destruct (String.eqb k key); [discriminate | now apply IH]. }
  now rewrite Hfind.
Qed.

(** X2. The market of an order is never the empty string. For a token
    that is neither in the table nor the name of a member of
    [Object.prototype] it is "Market: ", the first eight characters of
    the token (all of it when it is shorter) and "...", a label of 11
    to 19 characters. For a token that names a member of
    [Object.prototype] (constructor, toString, __proto__ and the like)
    it is that member, not a string. The server, which has no table,
    always gives the label. *)
Theorem market_label_shape :
  forall tokenId : string,
    Api.extractMarketFromToken tokenId <> Js.Str ""
    /\ (JsMap.get tokenId Config.tokenToMarketMap = None ->
        Js.isPrototypeMember tokenId = false ->
        Api.extractMarketFromToken tokenId
        = Js.Str ("Market: " ++ Js.substring0 8 tokenId ++ "...")
        /\ String.length ("Market: " ++ Js.substring0 8 tokenId ++ "...")%string
           = 11 + Nat.min 8 (String.length tokenId))
    /\ (Js.isPrototypeMember tokenId = true ->
        Api.extractMarketFromToken tokenId = Js.ProtoMember tokenId)
    /\ String.length (Server.extractMarketFromToken tokenId)
       = 11 + Nat.min 8 (String.length tokenId)
    /\ 11 <= String.length (Server.extractMarketFromToken tokenId) <= 19.
Proof.
  intros tokenId.
  assert (Hlen : String.length ("Market: " ++ Js.substring0 8 tokenId ++ "...")%string
                 = 11 + Nat.min 8 (String.length tokenId)).
  { rewrite !length_string_app, length_substring0. simpl. lia. }
  split; [| split; [| split; [| split]]].
  - unfold Api.extractMarketFromToken.
    destruct (Js.lookupPlain Config.tokenToMarketMap tokenId) as [[label | name] |].
    + destruct (String.eqb label "") eqn:E; [discriminate |].
      apply String.eqb_neq in E. congruence.
    + discriminate.
    + discriminate.
  - intros Hnone Hplain. unfold Api.extractMarketFromToken.
    rewrite lookupPlain_own, Hplain by assumption.
    split; [reflexivity | exact Hlen].
  - intros Hmember. unfold Api.extractMarketFromToken.
    rewrite lookupPlain_own; [now rewrite Hmember |].
    unfold Js.isPrototypeMember in Hmember. simpl in Hmember.
    repeat (apply orb_true_iff in Hmember as [Hmember | Hmember];
            [apply String.eqb_eq in Hmember; subst tokenId; reflexivity |]).
    discriminate.
  - exact Hlen.
  - unfold Server.extractMarketFromToken. rewrite Hlen. lia.
Qed.

Lemma market_label_shape_witness :
  Api.extractMarketFromToken "0x71" = Js.Str "Market: 0x71..."
  /\ Api.extractMarketFromToken "constructor" = Js.ProtoMember "constructor".
Proof.
  split.
  - apply (proj1 (proj1 (proj2 (market_label_shape "0x71")) eq_refl eq_refl)).
  - apply (proj1 (proj2 (proj2 (market_label_shape "constructor"))) eq_refl).
Defined.

End ClientFacts.

(** ** Polls and ticks of the copy trader *)

Module TickFacts.
Import Enhanced.

Lemma poll_nothing now net a st :
  Api.getWalletOrders net a = [] -> pollWalletOrders now net a st = Js.Returned st.
Proof. intros Hnil. unfold pollWalletOrders. now rewrite Hnil. Qed.

Lemma startMonitoring_registered_monitoring st :
  (if isMonitoring st then st else startMonitoring st) = startMonitoring st.
Proof. destruct st as [m o h mon t s]. simpl. now destruct mon. Qed.

Lemma sweep_all_nothing now net entries : forall st polled,
  (forall address, Api.getWalletOrders net address = []) ->
  sweep now net entries st polled
  = (Js.Returned st, polled ++ Ledger.activeAddresses entries).
Proof.
  induction entries as [| [address wallet] entries IH]; simpl; intros st polled Hnil.
  - now rewrite app_nil_r.
  - unfold Ledger.activeAddresses. simpl.
    destruct (Wallet.active wallet); simpl.
    + rewrite poll_nothing by apply Hnil. rewrite IH by assumption.
      unfold Ledger.activeAddresses. now rewrite <- app_assoc.
    + now rewrite IH.
Qed.



Lemma findTrade_elem objects orderId refs :
  orderId ∈ tradeIds objects refs ->
  exists ref, findTrade objects orderId refs = Some ref.
Proof.
  intros Hin. destruct (findTrade objects orderId refs) as [ref |] eqn:E.
  - now exists ref.
  - now apply EnhancedFacts.findTrade_None in E.
Qed.

(** An id a wallet holds stays on its list when another order is
    processed. *)
Lemma processOrder_keeps_id now order st key orderId :
  wf st ->
  (exists w, JsMap.get key (copiedWallets st) = Some w /\
             orderId ∈ tradeIds (tradeObjects st) (Wallet.trades w)) ->
  exists w', JsMap.get key (copiedWallets (Js.stateOf (processOrder now order st)))
             = Some w' /\
             orderId ∈ tradeIds (tradeObjects (Js.stateOf (processOrder now order st)))
                        (Wallet.trades w').
Proof.
  intros Hwf (w & Hget & Hin). unfold processOrder.
  destruct (JsMap.get (Js.toLowerCase (Order.trader order)) (copiedWallets st))
    as [wallet |] eqn:Hres; [| now exists w].
  destruct (findTrade _ _ (Wallet.trades wallet)); [now exists w |].
  rewrite ReRegisterFacts.stateOf_recorded. simpl.
  assert (Hgrow : orderId ∈ tradeIds (tradeObjects st ++ [createTradeRecord now order st])
                              (Wallet.trades w)).
  { rewrite EnhancedFacts.tradeIds_grow; [assumption |].
    intros ref Href. apply (wf_refs st Hwf key w); [| assumption].
    now apply get_Some_elem. }
  destruct (string_dec (Js.toLowerCase (Order.trader order)) key) as [E | E].
  - rewrite E, get_adjust_eq, Hget. simpl. eexists. split; [reflexivity |].
    simpl. rewrite EnhancedFacts.tradeIds_app. apply elem_of_app. now left.
  - rewrite get_adjust_ne by assumption. now exists w.
Qed.

Lemma forEach_head {A S : Type} (P : S -> Prop) (f : A -> S -> Js.Completion S)
  (x : A) (xs : list A) (s : S) :
  (forall y s', P s' -> P (Js.stateOf (f y s'))) ->
  P (Js.stateOf (f x s)) ->
  P (Js.stateOf (Js.forEach f (x :: xs) s)).
Proof.
  intros Hstep Hx. simpl. destruct (f x s) as [s' | e s']; simpl in *.
  - now apply forEach_invariant.
  - assumption.
Qed.

End TickFacts.

(** X3. A poll that gets no orders (the fetch failed, or the venue has
    none) leaves the state as it was and returns. So [addWallet] over a
    failing network still registers the wallet and starts monitoring,
    and a tick over a failing network polls every active wallet in Map
    order and changes nothing. *)
Theorem empty_poll_is_silent :
  forall now net st,
    (forall a, Api.getWalletOrders net a = [] ->
       Enhanced.pollWalletOrders now net a st = Js.Returned st)
    /\ (forall a nick, Api.getWalletOrders net a = [] ->
          Enhanced.addWallet now net a nick st
          = Js.Returned (Enhanced.startMonitoring
                           (Enhanced.registerWallet now a nick st)))
    /\ ((forall a, Api.getWalletOrders net a = []) ->
        Enhanced.pollingTick now net st
        = (Js.Returned st, Ledger.activeAddresses (Enhanced.copiedWallets st))).
Proof.
  intros now net st. split; [| split].
  - intros a Hnil. now apply TickFacts.poll_nothing.
  - intros a nick Hnil. unfold Enhanced.addWallet.
    rewrite TickFacts.poll_nothing by assumption.
    now rewrite TickFacts.startMonitoring_registered_monitoring.
  - intros Hnil. unfold Enhanced.pollingTick.
    now rewrite TickFacts.sweep_all_nothing.
Qed.

Lemma empty_poll_is_silent_witness :
  Enhanced.addWallet 1000 (fun _ => Api.Response 500 Api.Malformed) "0xABC" "X"
    Enhanced.constructor
  = Js.Returned (Enhanced.startMonitoring
                   (Enhanced.registerWallet 1000 "0xABC" "X" Enhanced.constructor)).
Proof.
  apply (proj1 (proj2 (empty_poll_is_silent 1000
                         (fun _ => Api.Response 500 Api.Malformed)
                         Enhanced.constructor))).
  reflexivity.
Defined.



(** X5. Polling an address a second time fails. When the venue's
    answer for an address begins with an order of a watched trader,
    then after one poll of that address (whether it returned or threw)
    every further poll with that answer throws the TypeError of the
    missing [updateTrade] at that first order and changes nothing:
    polling records nothing new once an order is known. *)
Theorem repeated_poll_throws :
  forall now now' net a order rest st,
    Enhanced.reachable st ->
    Api.getWalletOrders net a = order :: rest ->
    is_Some (JsMap.get (Js.toLowerCase (Order.trader order))
               (Enhanced.copiedWallets st)) ->
    let s1 := Js.stateOf (Enhanced.pollWalletOrders now net a st) in
    Enhanced.pollWalletOrders now' net a s1
    = Js.Threw (Js.TypeError "this.updateTrade is not a function") s1.
Proof.
  intros now now' net a order rest st Hreach Horders Hreg s1.
  pose proof (EnhancedFacts.wf_reachable st Hreach) as Hwf.
  assert (Hknown : Enhanced.wf s1 /\
            exists w, JsMap.get (Js.toLowerCase (Order.trader order))
                        (Enhanced.copiedWallets s1) = Some w /\
                      Order.id order ∈
                        Enhanced.tradeIds (Enhanced.tradeObjects s1) (Wallet.trades w)).
  { subst s1. unfold Enhanced.pollWalletOrders. rewrite Horders.
    apply (TickFacts.forEach_head
             (fun s => Enhanced.wf s /\
                exists w, JsMap.get (Js.toLowerCase (Order.trader order))
                            (Enhanced.copiedWallets s) = Some w /\
                          Order.id order ∈
                            Enhanced.tradeIds (Enhanced.tradeObjects s)
                              (Wallet.trades w))).
    - intros y s' [Hwf' Hhas]. split; [now apply EnhancedFacts.wf_processOrder |].
      now apply TickFacts.processOrder_keeps_id.
    - split; [now apply EnhancedFacts.wf_processOrder |].
      now apply EnhancedFacts.processOrder_records. }
  destruct Hknown as (_ & w & Hget & Hin).
  destruct (TickFacts.findTrade_elem _ _ _ Hin) as [ref Hfind].
  unfold Enhanced.pollWalletOrders. rewrite Horders. simpl.
  now rewrite (PushFacts.processOrder_known_id_throws now' order s1 w ref Hget Hfind).
Qed.

Lemma repeated_poll_throws_witness :
  Enhanced.pollWalletOrders 11000 (Scenario.venue "OPEN") "0xABC"
    (Js.stateOf (Enhanced.pollWalletOrders 2000 (Scenario.venue "OPEN") "0xABC"
                   (Enhanced.registerWallet 1000 "0xABC" "X" Enhanced.constructor)))
  = Js.Threw (Js.TypeError "this.updateTrade is not a function")
      (Js.stateOf (Enhanced.pollWalletOrders 2000 (Scenario.venue "OPEN") "0xABC"
                     (Enhanced.registerWallet 1000 "0xABC" "X" Enhanced.constructor))).
Proof.
  apply (repeated_poll_throws 2000 11000 (Scenario.venue "OPEN") "0xABC"
           (Api.parseOrder (Scenario.order1 "OPEN")) []
           (Enhanced.registerWallet 1000 "0xABC" "X" Enhanced.constructor)
           (Enhanced.reach_register 1000 "0xABC" "X" _ Enhanced.reach_constructor)).
  - reflexivity.
  - vm_compute. eexists. reflexivity.
Defined.

(** ** Bookkeeping of the copy trader *)

Module LedgerFacts.
Import Enhanced.

Lemma lowerUnit_idempotent (c : ascii) : Js.lowerUnit (Js.lowerUnit c) = Js.lowerUnit c.
Proof.
  destruct c as [b0 b1 b2 b3 b4 b5 b6 b7].
  destruct b0, b1, b2, b3, b4, b5, b6, b7; reflexivity.
Qed.

Lemma toLowerCase_idempotent (s : string) :
  Js.toLowerCase (Js.toLowerCase s) = Js.toLowerCase s.
Proof.
  induction s as [| c s IH]; simpl; [reflexivity |].
  now rewrite lowerUnit_idempotent, IH.
Qed.

Lemma length_toLowerCase (s : string) :
  String.length (Js.toLowerCase s) = String.length s.
Proof. induction s as [| c s IH]; simpl; [reflexivity | now rewrite IH]. Qed.

(** *** [counted] *)

Lemma counted_constructor : Ledger.counted constructor.
Proof. unfold Ledger.counted. simpl. repeat split. constructor. Qed.

Lemma counted_recordTrade now order st :
  Ledger.counted st -> Ledger.counted (recordTrade now order st).
Proof.
  intros (Hh & Ht & Hp & Hl & Hm & Hall). unfold Ledger.counted. simpl.
  rewrite length_app. simpl. rewrite Nat.add_1_r, seq_S, Hh, Ht. simpl.
  repeat split; try assumption; try lia.
  apply Forall_app. split; [assumption |].
  constructor; [| constructor]. simpl. now repeat split.
Qed.

Lemma counted_processOrder now order st :
  Ledger.counted st -> Ledger.counted (Js.stateOf (processOrder now order st)).
Proof.
  intros Hc. unfold processOrder.
  destruct (JsMap.get _ (copiedWallets st)) as [wallet |]; [| assumption].
  destruct (findTrade _ _ _); [assumption |].
  rewrite ReRegisterFacts.stateOf_recorded. now apply counted_recordTrade.
Qed.

Lemma counted_updateOrderStatus now orderId status st :
  Ledger.counted st ->
  Ledger.counted (Js.stateOf (updateOrderStatus now orderId status st)).
Proof.
  intros Hc. unfold updateOrderStatus.
  destruct (findInWallets _ _ _) as [ref |]; [| assumption].
  destruct Hc as (Hh & Ht & Hp & Hl & Hm & Hall). unfold Ledger.counted. simpl.
  rewrite length_alter. repeat split; try assumption.
  apply Forall_alter; [assumption |]. intros x _ Hx. exact Hx.
Qed.

Lemma counted_onSocketMessage now frame st :
  Ledger.counted st -> Ledger.counted (onSocketMessage now frame st).
Proof.
  intros Hc. destruct frame as [| msg]; simpl; [assumption |].
  unfold handleWebSocketMessage.
  destruct (_ || _); [now apply counted_processOrder |].
  destruct (String.eqb (type msg) "order_filled");
    [now apply counted_updateOrderStatus |].
  destruct (String.eqb (type msg) "order_cancelled");
    [now apply counted_updateOrderStatus | assumption].
Qed.

Lemma counted_reachable st : reachable st -> Ledger.counted st.
Proof.
  induction 1 as [| now a nick st _ IH | now net a st _ IH | st _ IH
                 | now frame st _ IH | a st _ IH | a flag st _ IH].
  - apply counted_constructor.
  - exact IH.
  - unfold pollWalletOrders. apply forEach_invariant; [| exact IH].
    intros order s. apply counted_processOrder.
  - exact IH.
  - now apply counted_onSocketMessage.
  - exact IH.
  - unfold setWalletActive.
    now destruct (JsMap.get _ (copiedWallets st)).
Qed.

(** *** [owned] *)

Lemma owned_grow st extra (m : list (string * Wallet.t)) :
  (forall k w, (k, w) ∈ m ->
     Wallet.address w = k /\ Js.toLowerCase k = k
     /\ forall ref, ref ∈ Wallet.trades w ->
          exists x, tradeObjects st !! ref = Some x
                    /\ Js.toLowerCase (Trade.wallet x) = k) ->
  forall k w, (k, w) ∈ m ->
     Wallet.address w = k /\ Js.toLowerCase k = k
     /\ forall ref, ref ∈ Wallet.trades w ->
          exists x, (tradeObjects st ++ extra) !! ref = Some x
                    /\ Js.toLowerCase (Trade.wallet x) = k.
Proof.
  intros Ho k w Hin. destruct (Ho k w Hin) as (Ha & Hk & Hrefs).
  split; [assumption |]. split; [assumption |].
  intros ref Href. destruct (Hrefs ref Href) as (x & Hx & Hw).
  exists x. split; [now apply lookup_app_l_Some | assumption].
Qed.

Lemma owned_recordTrade now order st :
  Ledger.owned st -> Ledger.owned (recordTrade now order st).
Proof.
  intros Ho k w Hin. simpl in Hin. simpl.
  apply elem_adjust_inv in Hin as [Hin | [-> (w0 & Hw0 & ->)]].
  - now apply (owned_grow st _ (copiedWallets st) Ho).
  - destruct (owned_grow st [createTradeRecord now order st] _ Ho _ _ Hw0)
      as (Ha & Hk & Hrefs).
    split; [assumption |]. split; [assumption |].
    intros ref Href. simpl in Href. apply elem_of_app in Href as [Href | Href].
    + now apply Hrefs.
    + apply list_elem_of_singleton in Href. subst ref.
      exists (createTradeRecord now order st). split; [| reflexivity].
      rewrite lookup_app_r by lia. now rewrite Nat.sub_diag.
Qed.

Lemma owned_processOrder now order st :
  Ledger.owned st -> Ledger.owned (Js.stateOf (processOrder now order st)).
Proof.
  intros Ho. unfold processOrder.
  destruct (JsMap.get _ (copiedWallets st)) as [wallet |]; [| assumption].
  destruct (findTrade _ _ _); [assumption |].
  rewrite ReRegisterFacts.stateOf_recorded. now apply owned_recordTrade.
Qed.

Lemma owned_updateOrderStatus now orderId status st :
  Ledger.owned st ->
  Ledger.owned (Js.stateOf (updateOrderStatus now orderId status st)).
Proof.
  intros Ho. unfold updateOrderStatus.
  destruct (findInWallets _ _ _) as [ref |]; [| assumption].
  intros k w Hin. simpl in Hin. simpl.
  destruct (Ho k w Hin) as (Ha & Hk & Hrefs).
  split; [assumption |]. split; [assumption |].
  intros r Hr. destruct (Hrefs r Hr) as (x & Hx & Hw).
  destruct (decide (ref = r)) as [-> | Hne].
  - exists (Trade.setStatus status now x). rewrite list_lookup_alter_eq, Hx.
    now split.
  - exists x. rewrite list_lookup_alter_ne by assumption. now split.
Qed.

Lemma owned_onSocketMessage now frame st :
  Ledger.owned st -> Ledger.owned (onSocketMessage now frame st).
Proof.
  intros Ho. destruct frame as [| msg]; simpl; [assumption |].
  unfold handleWebSocketMessage.
  destruct (_ || _); [now apply owned_processOrder |].
  destruct (String.eqb (type msg) "order_filled");
    [now apply owned_updateOrderStatus |].
  destruct (String.eqb (type msg) "order_cancelled");
    [now apply owned_updateOrderStatus | assumption].
Qed.

Lemma owned_reachable st : reachable st -> Ledger.owned st.
Proof.
  induction 1 as [| now a nick st _ IH | now net a st _ IH | st _ IH
                 | now frame st _ IH | a st _ IH | a flag st _ IH].
  - intros k w Hin. now apply elem_of_nil in Hin.
  - intros k w Hin. simpl in Hin.
    apply elem_set_inv in Hin as [Hin | [-> ->]]; [now apply IH |].
    simpl. split; [reflexivity |]. split; [apply toLowerCase_idempotent |].
    intros ref Href. now apply elem_of_nil in Href.
  - unfold pollWalletOrders. apply forEach_invariant; [| exact IH].
    intros order s. apply owned_processOrder.
  - exact IH.
  - now apply owned_onSocketMessage.
  - intros k w Hin. simpl in Hin. apply elem_delete in Hin as [_ Hin].
    now apply IH.
  - unfold setWalletActive.
    destruct (JsMap.get _ (copiedWallets st)) as [found |]; [| exact IH].
    intros k w Hin. simpl in Hin.
    apply elem_adjust_inv in Hin as [Hin | [-> (w0 & Hw0 & ->)]];
      [now apply IH |].
    apply (IH _ w0 Hw0).
Qed.

(** *** No profit *)

Lemma profitableTrades_none objects refs :
  Forall (fun x => Trade.pnl x = 0%Z /\ Trade.outcome x = "PENDING"
                   /\ Trade.testMode x = true) objects ->
  profitableTrades objects refs = [].
Proof.
  intros Hall. unfold profitableTrades.
  induction refs as [| r refs IH]; simpl; [reflexivity |].
  destruct (objects !! r) as [x |] eqn:Hx; [| exact IH].
  apply list_elem_of_lookup_2 in Hx.
  rewrite Forall_forall in Hall. destruct (Hall x Hx) as (Hp & _).
  now rewrite Hp.
Qed.

Lemma sumPnl_acc objects refs :
  Forall (fun x => Trade.pnl x = 0%Z /\ Trade.outcome x = "PENDING"
                   /\ Trade.testMode x = true) objects ->
  forall acc,
    fold_left (fun sum ref => match objects !! ref with
                              | Some x => (sum + Trade.pnl x)%Z
                              | None => sum
                              end) refs acc = acc.
Proof.
  intros Hall.
  induction refs as [| r refs IH]; intros acc; simpl; [reflexivity |].
  destruct (objects !! r) as [x |] eqn:Hx; [| apply IH].
  apply list_elem_of_lookup_2 in Hx.
  rewrite Forall_forall in Hall. destruct (Hall x Hx) as (Hp & _).
  rewrite Hp, Z.add_0_r. apply IH.
Qed.

Lemma sumPnl_zero objects refs :
  Forall (fun x => Trade.pnl x = 0%Z /\ Trade.outcome x = "PENDING"
                   /\ Trade.testMode x = true) objects ->
  sumPnl objects refs = 0%Z.
Proof. intros Hall. unfold sumPnl. now apply sumPnl_acc. Qed.

End LedgerFacts.

(** X6. Wallets are keyed by their own lower-case address. In every
    reachable state each entry of the Map sits under a key that is
    already in lower case and equals the [address] of its record, and
    every trade on a wallet's list comes from an order whose trader,
    lower-cased, is that key. *)
Theorem wallets_keyed_by_lowercase_address :
  forall st, Enhanced.reachable st ->
    forall k w, (k, w) ∈ Enhanced.copiedWallets st ->
      Wallet.address w = k
      /\ Js.toLowerCase k = k
      /\ forall ref, ref ∈ Wallet.trades w ->
           exists x, Enhanced.tradeObjects st !! ref = Some x
                     /\ Js.toLowerCase (Trade.wallet x) = k.
Proof. intros st Hreach. exact (LedgerFacts.owned_reachable st Hreach). Qed.

Lemma wallets_keyed_by_lowercase_address_witness :
  Wallet.address (Wallet.mk "X" "0xabc" true 1000 [0]) = "0xabc"
  /\ Js.toLowerCase "0xabc" = "0xabc"
  /\ forall ref, ref ∈ Wallet.trades (Wallet.mk "X" "0xabc" true 1000 [0]) ->
       exists x, Enhanced.tradeObjects (Js.stateOf Scenario.afterFirstPoll) !! ref
                 = Some x
                 /\ Js.toLowerCase (Trade.wallet x) = "0xabc".
Proof.
  apply (wallets_keyed_by_lowercase_address (Js.stateOf Scenario.afterFirstPoll)
           (Enhanced.reach_startMonitoring _
              (Enhanced.reach_poll 1000 (Scenario.venue "OPEN") "0xABC" _
                 (Enhanced.reach_register 1000 "0xABC" "X" _
                    Enhanced.reach_constructor)))).
  vm_compute. apply elem_of_cons. now left.
Defined.

(** X7. The total-trade counter counts the trade objects. In every
    reachable state the global history lists every trade object once,
    in creation order, [totalTrades] is their number, and the trader is
    in test mode. *)
Theorem totalTrades_counts_history :
  forall st, Enhanced.reachable st ->
    Enhanced.tradeHistory st = seq 0 (length (Enhanced.tradeObjects st))
    /\ Stats.totalTrades (Enhanced.stats st)
       = Z.of_nat (length (Enhanced.tradeHistory st))
    /\ Stats.totalTrades (Enhanced.stats st)
       = Z.of_nat (length (Enhanced.tradeObjects st))
    /\ Enhanced.testMode st = true.
Proof.
  intros st Hreach.
  destruct (LedgerFacts.counted_reachable st Hreach) as (Hh & Ht & _ & _ & Hm & _).
  split; [assumption |]. split; [| split; assumption].
  now rewrite Hh, length_seq.
Qed.

Lemma totalTrades_counts_history_witness :
  Stats.totalTrades (Enhanced.stats (Js.stateOf Scenario.afterFirstPoll))
  = Z.of_nat (length (Enhanced.tradeHistory (Js.stateOf Scenario.afterFirstPoll))).
Proof.
  apply (proj1 (proj2 (totalTrades_counts_history (Js.stateOf Scenario.afterFirstPoll)
           (Enhanced.reach_startMonitoring _
              (Enhanced.reach_poll 1000 (Scenario.venue "OPEN") "0xABC" _
                 (Enhanced.reach_register 1000 "0xABC" "X" _
                    Enhanced.reach_constructor)))))).
Defined.

(** X8. No profit is ever booked. In every reachable state the counters
    [profitableTrades] and [totalPnl] are 0, every trade object has
    [pnl] 0 and outcome PENDING, and every row of the dashboard shows 0
    profitable trades, the amount 0, and a success rate that is the
    number 0 or the fixed-point form of 0 out of the wallet's trades. *)
Theorem no_profit_is_ever_booked :
  forall st, Enhanced.reachable st ->
    Stats.profitableTrades (Enhanced.stats st) = 0%Z
    /\ Stats.totalPnl (Enhanced.stats st) = 0%Z
    /\ Forall (fun x => Trade.pnl x = 0%Z /\ Trade.outcome x = "PENDING")
         (Enhanced.tradeObjects st)
    /\ forall now,
         Forall (fun view =>
                   Enhanced.v_profitable view = 0
                   /\ Enhanced.v_pnl view = Enhanced.AmountFixed2 0
                   /\ (Enhanced.v_successRate view = Enhanced.RateNumber 0
                       \/ Enhanced.v_successRate view
                          = Enhanced.RateFixed1 0 (Enhanced.v_trades view)))
           (Enhanced.d_wallets (Enhanced.getDashboardData now st)).
Proof.
  intros st Hreach.
  destruct (LedgerFacts.counted_reachable st Hreach) as (_ & _ & Hp & Hl & _ & Hall).
  split; [assumption |]. split; [assumption |]. split.
  - eapply Forall_impl; [exact Hall |]. intros x (H1 & H2 & _). now split.
  - intros now. simpl. apply Forall_forall. intros view Hin.
    apply list_elem_of_In, in_map_iff in Hin as (w & <- & _).
    unfold Enhanced.walletView. simpl.
    rewrite (LedgerFacts.profitableTrades_none _ _ Hall).
    rewrite (LedgerFacts.sumPnl_zero _ _ Hall). simpl.
    split; [reflexivity |]. split; [reflexivity |].
    destruct (Wallet.trades w); simpl; [now left | now right].
Qed.

Lemma no_profit_is_ever_booked_witness :
  Stats.totalPnl (Enhanced.stats (Js.stateOf Scenario.afterFirstPoll)) = 0%Z.
Proof.
  apply (proj1 (proj2 (no_profit_is_ever_booked (Js.stateOf Scenario.afterFirstPoll)
           (Enhanced.reach_startMonitoring _
              (Enhanced.reach_poll 1000 (Scenario.venue "OPEN") "0xABC" _
                 (Enhanced.reach_register 1000 "0xABC" "X" _
                    Enhanced.reach_constructor)))))).
Defined.

(** X9. In a reachable state [processOrder] throws for one reason only:
    the wallet already holds the order's id. The error is then the
    TypeError of the missing [updateTrade] and the state is untouched;
    the branch that calls the missing [executeCopyTrade] is never
    taken, because the trader never leaves test mode. *)
Theorem processOrder_throws_only_on_known_id :
  forall now order st e s,
    Enhanced.reachable st ->
    Enhanced.processOrder now order st = Js.Threw e s ->
    e = Js.TypeError "this.updateTrade is not a function"
    /\ s = st
    /\ exists w ref,
         JsMap.get (Js.toLowerCase (Order.trader order)) (Enhanced.copiedWallets st)
         = Some w
         /\ Enhanced.findTrade (Enhanced.tradeObjects st) (Order.id order)
              (Wallet.trades w) = Some ref.
Proof.
  intros now order st e s Hreach.
  destruct (LedgerFacts.counted_reachable st Hreach) as (_ & _ & _ & _ & Hm & _).
  unfold Enhanced.processOrder. rewrite Hm.
  destruct (JsMap.get _ (Enhanced.copiedWallets st)) as [w |]; [| discriminate].
  destruct (Enhanced.findTrade _ _ (Wallet.trades w)) as [ref |] eqn:Hfind;
    [| discriminate].
  intros [= <- <-]. split; [reflexivity |]. split; [reflexivity |].
  now exists w, ref.
Qed.

Lemma processOrder_throws_only_on_known_id_witness :
  Js.TypeError "this.updateTrade is not a function"
  = Js.TypeError "this.updateTrade is not a function"
  /\ Js.stateOf Scenario.afterFirstPoll = Js.stateOf Scenario.afterFirstPoll
  /\ exists w ref,
       JsMap.get (Js.toLowerCase
                    (Order.trader (Api.parseOrder (Scenario.order1 "FILLED"))))
         (Enhanced.copiedWallets (Js.stateOf Scenario.afterFirstPoll)) = Some w
       /\ Enhanced.findTrade (Enhanced.tradeObjects (Js.stateOf Scenario.afterFirstPoll))
            (Order.id (Api.parseOrder (Scenario.order1 "FILLED")))
            (Wallet.trades w) = Some ref.
Proof.
  apply (processOrder_throws_only_on_known_id 11000
           (Api.parseOrder (Scenario.order1 "FILLED"))
           (Js.stateOf Scenario.afterFirstPoll) _ _
           (Enhanced.reach_startMonitoring _
              (Enhanced.reach_poll 1000 (Scenario.venue "OPEN") "0xABC" _
                 (Enhanced.reach_register 1000 "0xABC" "X" _
                    Enhanced.reach_constructor)))).
  reflexivity.
Defined.

(** ** The wallets' lists against the total *)

Module TotalsFacts.
Import Enhanced.

Lemma tradeIds_cons objects r refs x :
  objects !! r = Some x ->
  tradeIds objects (r :: refs) = Trade.id x :: tradeIds objects refs.
Proof. intros Hx. unfold tradeIds. cbn [omap list_omap]. now rewrite Hx. Qed.

Lemma NoDup_refs_of_ids objects refs :
  (forall ref, ref ∈ refs -> ref < length objects) ->
  NoDup (tradeIds objects refs) -> NoDup refs.
Proof.
  induction refs as [| r refs IH]; intros Hlt Hnd; [apply NoDup_nil; exact I |].
  assert (Hr : r < length objects) by (apply Hlt, elem_of_cons; now left).
  destruct (lookup_lt_is_Some_2 objects r Hr) as [x Hx].
  rewrite (tradeIds_cons _ _ _ _ Hx) in Hnd.
  apply NoDup_cons in Hnd as [Hfresh Hnd]. apply NoDup_cons. split.
  - intros Hin. apply Hfresh. apply EnhancedFacts.elem_tradeIds.
    exists r, x. now repeat split.
  - apply IH; [| assumption].
    intros ref Href. apply Hlt, elem_of_cons. now right.
Qed.

Lemma elem_allRefs (entries : list (string * Wallet.t)) ref :
  ref ∈ Ledger.allRefs entries ->
  exists k w, (k, w) ∈ entries /\ ref ∈ Wallet.trades w.
Proof.
  unfold Ledger.allRefs. induction entries as [| [k w] entries IH]; simpl;
    intros Hin.
  - now apply elem_of_nil in Hin.
  - apply elem_of_app in Hin as [Hin | Hin].
    + exists k, w. split; [apply elem_of_cons; now left | assumption].
    + destruct (IH Hin) as (k' & w' & Hk & Hr).
      exists k', w'. split; [apply elem_of_cons; now right | assumption].
Qed.

Lemma NoDup_allRefs (entries : list (string * Wallet.t)) :
  JsMap.ok entries ->
  (forall k w, (k, w) ∈ entries -> NoDup (Wallet.trades w)) ->
  (forall k1 w1 k2 w2 ref, (k1, w1) ∈ entries -> (k2, w2) ∈ entries ->
     ref ∈ Wallet.trades w1 -> ref ∈ Wallet.trades w2 -> k1 = k2) ->
  NoDup (Ledger.allRefs entries).
Proof.
  unfold JsMap.ok, Ledger.allRefs.
  induction entries as [| [k w] entries IH]; simpl; intros Hok Hnd Hown.
  - apply NoDup_nil. exact I.
  - apply NoDup_cons in Hok as [Hfresh Hok]. apply NoDup_app. split; [| split].
    + apply (Hnd k w). apply elem_of_cons. now left.
    + intros ref Href Hin. apply elem_allRefs in Hin as (k' & w' & Hk' & Hr').
      assert (k = k').
      { apply (Hown k w k' w' ref); [apply elem_of_cons; now left
                                   | apply elem_of_cons; now right | | ];
          assumption. }
      subst k'. apply Hfresh. change k with (fst (k, w')).
      now apply list_elem_of_fmap_2.
    + apply IH; [assumption | |].
      * intros k' w' Hin. apply (Hnd k' w'). apply elem_of_cons. now right.
      * intros k1 w1 k2 w2 ref H1 H2. apply (Hown k1 w1 k2 w2 ref).
        -- apply elem_of_cons. now right.
        -- apply elem_of_cons. now right.
Qed.

Lemma length_bounded (l : list nat) (n : nat) :
  NoDup l -> (forall x, x ∈ l -> x < n) -> length l <= n.
Proof.
  intros Hnd Hlt.
  assert (H : length l <= length (seq 0 n)).
  { apply submseteq_length, NoDup_submseteq; [assumption |].
    intros x Hx. apply elem_of_seq. specialize (Hlt x Hx). lia. }
  now rewrite length_seq in H.
Qed.

Lemma allRefs_bounded st :
  wf st -> length (Ledger.allRefs (copiedWallets st)) <= length (tradeObjects st).
Proof.
  intros Hwf. apply length_bounded.
  - apply NoDup_allRefs.
    + apply (wf_keys st Hwf).
    + intros k w Hin. apply (NoDup_refs_of_ids (tradeObjects st)).
      * intros ref Href. now apply (wf_refs st Hwf k w).
      * now apply (wf_ids st Hwf k w).
    + apply (wf_owner st Hwf).
  - intros ref Hin. apply elem_allRefs in Hin as (k & w & Hk & Hr).
    now apply (wf_refs st Hwf k w).
Qed.

Lemma sum_dashboard_trades now st :
  list_sum (map v_trades (d_wallets (getDashboardData now st)))
  = length (Ledger.allRefs (copiedWallets st)).
Proof.
  unfold Ledger.allRefs. rewrite length_concat. simpl.
  unfold JsMap.values. rewrite !map_map. reflexivity.
Qed.

End TotalsFacts.

(** X10. The dashboard's rows never add up to more than its total. In
    every reachable state the trade counts of the wallets on the
    dashboard sum to at most [totalTrades]: a trade object is on the
    list of one wallet at most, and removing or re-registering a wallet
    takes its trades off the rows but not off the total. *)
Theorem dashboard_rows_sum_below_total :
  forall now st, Enhanced.reachable st ->
    (Z.of_nat (list_sum (map Enhanced.v_trades
                           (Enhanced.d_wallets (Enhanced.getDashboardData now st))))
     <= Stats.totalTrades (Enhanced.d_stats (Enhanced.getDashboardData now st)))%Z.
Proof.
  intros now st Hreach. rewrite TotalsFacts.sum_dashboard_trades. simpl.
  destruct (LedgerFacts.counted_reachable st Hreach) as (_ & Ht & _).
  rewrite Ht. apply inj_le, TotalsFacts.allRefs_bounded.
  now apply EnhancedFacts.wf_reachable.
Qed.

Lemma dashboard_rows_sum_below_total_witness :
  (Z.of_nat (list_sum (map Enhanced.v_trades
       (Enhanced.d_wallets
          (Enhanced.getDashboardData 12000
             (Enhanced.removeWallet "0xABC" (Js.stateOf Scenario.afterFirstPoll))))))
   <= Stats.totalTrades
        (Enhanced.d_stats
           (Enhanced.getDashboardData 12000
              (Enhanced.removeWallet "0xABC" (Js.stateOf Scenario.afterFirstPoll)))))%Z.
Proof.
  exact (dashboard_rows_sum_below_total 12000
           (Enhanced.removeWallet "0xABC" (Js.stateOf Scenario.afterFirstPoll))
           (Enhanced.reach_removeWallet "0xABC" _
              (Enhanced.reach_startMonitoring _
                 (Enhanced.reach_poll 1000 (Scenario.venue "OPEN") "0xABC" _
                    (Enhanced.reach_register 1000 "0xABC" "X" _
                       Enhanced.reach_constructor))))).
Defined.

(** ** Status events *)

Module StatusFacts.
Import Enhanced.

Lemma findTrade_setStatus objects status now ref orderId refs :
  findTrade (alter (Trade.setStatus status now) ref objects) orderId refs
  = findTrade objects orderId refs.
Proof.
  unfold findTrade. induction refs as [| r refs IH]; simpl; [reflexivity |].
  rewrite IH. destruct (decide (ref = r)) as [-> | Hne].
  - rewrite list_lookup_alter_eq. now destruct (objects !! r).
  - now rewrite list_lookup_alter_ne.
Qed.

Lemma findInWallets_setStatus objects status now ref orderId entries :
  findInWallets (alter (Trade.setStatus status now) ref objects) orderId entries
  = findInWallets objects orderId entries.
Proof.
  induction entries as [| [k w] entries IH]; simpl; [reflexivity |].
  now rewrite findTrade_setStatus, IH.
Qed.

Lemma findInWallets_holder objects orderId entries ref :
  findInWallets objects orderId entries = Some ref ->
  exists k w x, (k, w) ∈ entries /\ ref ∈ Wallet.trades w
                /\ objects !! ref = Some x /\ Trade.id x = orderId.
Proof.
  induction entries as [| [k w] entries IH]; simpl; [discriminate |].
  destruct (findTrade objects orderId (Wallet.trades w)) as [r |] eqn:E.
  - intros [= ->]. unfold findTrade in E.
    apply List.find_some in E as [Href Hp]. apply list_elem_of_In in Href.
    destruct (objects !! ref) as [x |] eqn:Hx; [| discriminate].
    exists k, w, x. split; [apply elem_of_cons; now left |].
    split; [assumption |]. split; [reflexivity | now apply String.eqb_eq].
  - intros H. destruct (IH H) as (k' & w' & x & Hin & Href & Hx & Hid).
    exists k', w', x. split; [apply elem_of_cons; now right | now repeat split].
Qed.

(** The two status events: [order_filled] and [order_cancelled]. *)
Lemma status_event_handled now (filled : bool) raw st :
  handleWebSocketMessage now
    (mkMessage (if filled then "order_filled" else "order_cancelled") raw) st
  = updateOrderStatus now (RawOrder.id raw)
      (if filled then "FILLED" else "CANCELLED") st.
Proof. now destruct filled. Qed.

Lemma iter_filled n now raw st ref :
  findInWallets (tradeObjects st) (RawOrder.id raw) (copiedWallets st) = Some ref ->
  let st' := Nat.iter n (onSocketMessage now (Event (mkMessage "order_filled" raw))) st in
  findInWallets (tradeObjects st') (RawOrder.id raw) (copiedWallets st') = Some ref
  /\ Stats.activeTrades (stats st') = (Stats.activeTrades (stats st) - Z.of_nat n)%Z.
Proof.
  intros Hfind. induction n as [| n IH].
  - simpl. split; [assumption | lia].
  - cbn zeta in *. rewrite Nat.iter_succ. destruct IH as [Hf Ha].
    set (s := Nat.iter n _ st) in *.
    simpl. unfold handleWebSocketMessage. simpl. unfold updateOrderStatus.
    rewrite Hf. simpl. rewrite findInWallets_setStatus. split; [assumption |].
    rewrite Ha. lia.
Qed.

Lemma iter_reachable n now frame st :
  reachable st -> reachable (Nat.iter n (onSocketMessage now frame) st).
Proof.
  intros Hreach. induction n as [| n IH]; [assumption |].
  rewrite Nat.iter_succ. now apply reach_socket.
Qed.

End StatusFacts.

(** X11. A status event finds one trade and rewrites it. For an
    order_filled or order_cancelled event: when no wallet holds a trade
    with the event's id, the handler returns and the state is as it
    was. Otherwise take the first wallet in Map order that holds the id
    and the first trade on its list with that id: the handler writes
    FILLED (or CANCELLED) and the update time into that trade object,
    the one its list and the history share, and keeps its other fields;
    no other trade object, no wallet and no history entry changes;
    [activeTrades] goes down by one for FILLED and stays for CANCELLED;
    then the handler throws, because [this.updateDashboard] is not a
    method. *)
Theorem status_event_updates_one_trade :
  forall now (filled : bool) raw st,
    ((forall k w r y, (k, w) ∈ Enhanced.copiedWallets st -> r ∈ Wallet.trades w ->
        Enhanced.tradeObjects st !! r = Some y -> Trade.id y <> RawOrder.id raw) ->
     Enhanced.handleWebSocketMessage now
       (Enhanced.mkMessage (if filled then "order_filled" else "order_cancelled") raw)
       st
     = Js.Returned st)
    /\
    (forall before k w after pre ref post x,
       Enhanced.copiedWallets st = before ++ (k, w) :: after ->
       (forall k' w' r y, (k', w') ∈ before -> r ∈ Wallet.trades w' ->
          Enhanced.tradeObjects st !! r = Some y -> Trade.id y <> RawOrder.id raw) ->
       Wallet.trades w = pre ++ ref :: post ->
       (forall r y, r ∈ pre -> Enhanced.tradeObjects st !! r = Some y ->
          Trade.id y <> RawOrder.id raw) ->
       Enhanced.tradeObjects st !! ref = Some x ->
       Trade.id x = RawOrder.id raw ->
       Enhanced.handleWebSocketMessage now
         (Enhanced.mkMessage (if filled then "order_filled" else "order_cancelled") raw)
         st
       = Js.Threw (Js.TypeError "this.updateDashboard is not a function")
           (Enhanced.mkState (Enhanced.copiedWallets st)
              (<[ref := Trade.mk (Trade.id x) (Trade.wallet x) (Trade.nickname x)
                          (Trade.market x) (Trade.side x) (Trade.size x)
                          (Trade.price x)
                          (if filled then "FILLED" else "CANCELLED")
                          (Trade.token x) (Trade.createdAt x) (Trade.detectedAt x)
                          (Trade.testMode x) (Trade.pnl x) (Trade.outcome x)
                          (Some (Js.DateAt now))]> (Enhanced.tradeObjects st))
              (Enhanced.tradeHistory st) (Enhanced.isMonitoring st)
              (Enhanced.testMode st)
              (Stats.mk (Stats.totalTrades (Enhanced.stats st))
                        (Stats.profitableTrades (Enhanced.stats st))
                        (Stats.totalPnl (Enhanced.stats st))
                        (if filled then Stats.activeTrades (Enhanced.stats st) - 1
                         else Stats.activeTrades (Enhanced.stats st))%Z))).
Proof.
  intros now filled raw st. split.
  - apply HolderFacts.status_event_without_holder.
  - intros before k w after pre ref post x.
    apply HolderFacts.status_event_on_first_holder.
Qed.

Lemma status_event_updates_one_trade_witness :
  Enhanced.handleWebSocketMessage 5000
    (Enhanced.mkMessage "order_filled" (Scenario.order1 "FILLED"))
    (Js.stateOf Scenario.afterFirstPoll)
  = Js.Threw (Js.TypeError "this.updateDashboard is not a function")
      (Enhanced.mkState
         [("0xabc", Wallet.mk "X" "0xabc" true 1000 [0])]
         [Trade.mk "1" "0xABC" "X" (Js.Str "Market: 0x71c765...") "BUY"
            (Js.ParseFloat "10") (Js.ParseFloat "0.5") "FILLED"
            "0x71c7656ec7ab88b098defb751b7401b5f6d8976f"
            (Js.DateOf "2025-01-01T00:00:00Z") (Js.DateAt 1000) true 0 "PENDING"
            (Some (Js.DateAt 5000))]
         [0] true true (Stats.mk 1 0 0 0)).
Proof.
  rewrite (proj2 (status_event_updates_one_trade 5000 true (Scenario.order1 "FILLED")
                    (Js.stateOf Scenario.afterFirstPoll))
             [] "0xabc" (Wallet.mk "X" "0xabc" true 1000 [0]) [] [] 0 []
             (Trade.mk "1" "0xABC" "X" (Js.Str "Market: 0x71c765...") "BUY"
                (Js.ParseFloat "10") (Js.ParseFloat "0.5") "OPEN"
                "0x71c7656ec7ab88b098defb751b7401b5f6d8976f"
                (Js.DateOf "2025-01-01T00:00:00Z") (Js.DateAt 1000) true 0 "PENDING"
                None)).
  - reflexivity.
  - reflexivity.
  - intros k' w' r y Hin. now apply elem_of_nil in Hin.
  - reflexivity.
  - intros r y Hr. now apply elem_of_nil in Hr.
  - reflexivity.
  - reflexivity.
Defined.

(** X12. The active-trade counter has no floor. Every [order_filled]
    event for an order some wallet holds takes one off [activeTrades],
    whatever the status of the trade, also when it is FILLED already:
    [n] such events take [n] off. So for every [n] there is a reachable
    state whose [activeTrades] is [-n]. *)
Theorem activeTrades_has_no_floor :
  (forall n now raw st ref,
     Enhanced.findInWallets (Enhanced.tradeObjects st) (RawOrder.id raw)
       (Enhanced.copiedWallets st) = Some ref ->
     Stats.activeTrades
       (Enhanced.stats
          (Nat.iter n
             (Enhanced.onSocketMessage now
                (Enhanced.Event (Enhanced.mkMessage "order_filled" raw))) st))
     = (Stats.activeTrades (Enhanced.stats st) - Z.of_nat n)%Z)
  /\
  (forall n : nat, exists st,
     Enhanced.reachable st
     /\ Stats.activeTrades (Enhanced.stats st) = (- Z.of_nat n)%Z).
Proof.
  split.
  - intros n now raw st ref Hfind.
    now destruct (StatusFacts.iter_filled n now raw st ref Hfind).
  - intros n.
    set (raw := Scenario.orderOf "0xABC" "1" "FILLED").
    set (s0 := Enhanced.onSocketMessage 2000
                 (Enhanced.Event (Enhanced.mkMessage "order_created" raw))
                 (Enhanced.registerWallet 1000 "0xABC" "X" Enhanced.constructor)).
    exists (Nat.iter n
              (Enhanced.onSocketMessage 3000
                 (Enhanced.Event (Enhanced.mkMessage "order_filled" raw))) s0).
    split.
    + apply StatusFacts.iter_reachable. subst s0.
      apply Enhanced.reach_socket, Enhanced.reach_register,
        Enhanced.reach_constructor.
    + destruct (StatusFacts.iter_filled n 3000 raw s0 0 eq_refl) as [_ Ha].
      rewrite Ha. reflexivity.
Qed.

Lemma activeTrades_has_no_floor_witness :
  Stats.activeTrades
    (Enhanced.stats
       (Nat.iter 3
          (Enhanced.onSocketMessage 5000
             (Enhanced.Event
                (Enhanced.mkMessage "order_filled" (Scenario.order1 "FILLED"))))
          (Js.stateOf Scenario.afterFirstPoll)))
  = (Stats.activeTrades (Enhanced.stats (Js.stateOf Scenario.afterFirstPoll))
     - Z.of_nat 3)%Z.
Proof.
  apply (proj1 activeTrades_has_no_floor 3 5000%Z (Scenario.order1 "FILLED")
           (Js.stateOf Scenario.afterFirstPoll) 0).
  reflexivity.
Defined.

(** ** Ingestion only appends *)

Module GrowFacts.
Import Enhanced.

Lemma setStatus_twice status1 now1 status2 now2 x :
  Trade.setStatus status2 now2 (Trade.setStatus status1 now1 x)
  = Trade.setStatus status2 now2 x.
Proof. reflexivity. Qed.

Lemma grows_refl st : Ledger.grows st st.
Proof.
  unfold Ledger.grows. split; [reflexivity |]. split.
  - intros k w Hw. exists w. now repeat split.
  - split; [reflexivity |]. split; [lia |].
    intros ref x Hx. exists x. split; [assumption | now left].
Qed.

Lemma grows_trans st1 st2 st3 :
  Ledger.grows st1 st2 -> Ledger.grows st2 st3 -> Ledger.grows st1 st3.
Proof.
  intros (Hk1 & Hw1 & Hh1 & Hl1 & Ho1) (Hk2 & Hw2 & Hh2 & Hl2 & Ho2).
  unfold Ledger.grows. split; [congruence |]. split; [| split; [| split]].
  - intros k w Hw. destruct (Hw1 k w Hw) as (w' & Hw' & N1 & A1 & F1 & L1 & T1).
    destruct (Hw2 k w' Hw') as (w'' & Hw'' & N2 & A2 & F2 & L2 & T2).
    exists w''. split; [assumption |]. repeat split; try congruence.
    now transitivity (Wallet.trades w').
  - now transitivity (tradeHistory st2).
  - lia.
  - intros ref x Hx. destruct (Ho1 ref x Hx) as (x' & Hx' & Hrel1).
    destruct (Ho2 ref x' Hx') as (x'' & Hx'' & Hrel2).
    exists x''. split; [assumption |].
    destruct Hrel2 as [-> | (s2 & n2 & ->)]; [assumption |].
    right. destruct Hrel1 as [-> | (s1 & n1 & ->)]; [now exists s2, n2 |].
    exists s2, n2. apply setStatus_twice.
Qed.

Lemma grows_recordTrade now order st :
  Ledger.grows st (recordTrade now order st).
Proof.
  unfold Ledger.grows. simpl. split; [apply keys_adjust |]. split; [| split; [| split]].
  - intros k w Hw.
    destruct (string_dec (Js.toLowerCase (Order.trader order)) k) as [<- | Hne].
    + rewrite get_adjust_eq, Hw. simpl. eexists. split; [reflexivity |].
      simpl. repeat split. now apply prefix_app_r.
    + rewrite get_adjust_ne by assumption. exists w. now repeat split.
  - now apply prefix_app_r.
  - rewrite length_app. lia.
  - intros ref x Hx. exists x. split; [now apply lookup_app_l_Some | now left].
Qed.

Lemma grows_processOrder now order st :
  Ledger.grows st (Js.stateOf (processOrder now order st)).
Proof.
  unfold processOrder.
  destruct (JsMap.get _ (copiedWallets st)) as [wallet |]; [| apply grows_refl].
  destruct (findTrade _ _ _); [apply grows_refl |].
  rewrite ReRegisterFacts.stateOf_recorded. apply grows_recordTrade.
Qed.

Lemma grows_updateOrderStatus now orderId status st :
  Ledger.grows st (Js.stateOf (updateOrderStatus now orderId status st)).
Proof.
  unfold updateOrderStatus.
  destruct (findInWallets _ _ _) as [ref |]; [| apply grows_refl].
  unfold Ledger.grows. simpl. split; [reflexivity |]. split; [| split; [| split]].
  - intros k w Hw. exists w. now repeat split.
  - reflexivity.
  - now rewrite length_alter.
  - intros r x Hx. destruct (decide (ref = r)) as [-> | Hne].
    + exists (Trade.setStatus status now x).
      rewrite list_lookup_alter_eq, Hx. split; [reflexivity |].
      right. now exists status, now.
    + exists x. rewrite list_lookup_alter_ne by assumption.
      split; [assumption | now left].
Qed.

Lemma grows_onSocketMessage now frame st :
  Ledger.grows st (onSocketMessage now frame st).
Proof.
  destruct frame as [| msg]; simpl; [apply grows_refl |].
  unfold handleWebSocketMessage.
  destruct (_ || _); [apply grows_processOrder |].
  destruct (String.eqb (type msg) "order_filled");
    [apply grows_updateOrderStatus |].
  destruct (String.eqb (type msg) "order_cancelled");
    [apply grows_updateOrderStatus | apply grows_refl].
Qed.

Lemma grows_pollWalletOrders now net a st :
  Ledger.grows st (Js.stateOf (pollWalletOrders now net a st)).
Proof.
  unfold pollWalletOrders.
  apply (forEach_invariant (Ledger.grows st)); [| apply grows_refl].
  intros order s Hs. eapply grows_trans; [exact Hs | apply grows_processOrder].
Qed.

Lemma sweep_invariant (P : State -> Prop) now net entries : forall st polled,
  (forall a s, P s -> P (Js.stateOf (pollWalletOrders now net a s))) ->
  P st -> P (Js.stateOf (fst (sweep now net entries st polled))).
Proof.
  induction entries as [| [address wallet] entries IH]; simpl;
    intros st polled Hstep Hst; [assumption |].
  destruct (Wallet.active wallet); [| now apply IH].
  pose proof (Hstep address st Hst) as Hnext.
  destruct (pollWalletOrders now net address st) as [st' | e st']; simpl in *.
  - now apply IH.
  - assumption.
Qed.

End GrowFacts.

(** X13. Ingestion only appends. Whatever a poll, a tick of the timer
    or a frame on the socket does (and whether it returns or throws),
    the Map keeps its keys in place; every wallet keeps its nickname,
    address, [active] flag and last-checked time, and its trade list is
    the old list with new references at the end; the history and the
    trade store are likewise only extended; and a trade object differs
    from what it was in status and update time at most. *)
Theorem ingestion_only_appends :
  forall now net a frame st,
    Ledger.grows st (Js.stateOf (Enhanced.pollWalletOrders now net a st))
    /\ Ledger.grows st (Js.stateOf (fst (Enhanced.pollingTick now net st)))
    /\ Ledger.grows st (Enhanced.onSocketMessage now frame st).
Proof.
  intros now net a frame st. split; [| split].
  - apply GrowFacts.grows_pollWalletOrders.
  - unfold Enhanced.pollingTick.
    apply (GrowFacts.sweep_invariant (Ledger.grows st)); [| apply GrowFacts.grows_refl].
    intros b s Hs. eapply GrowFacts.grows_trans;
      [exact Hs | apply GrowFacts.grows_pollWalletOrders].
  - apply GrowFacts.grows_onSocketMessage.
Qed.

Lemma ingestion_only_appends_witness :
  Ledger.grows (Js.stateOf Scenario.afterFirstPoll)
    (Enhanced.onSocketMessage 5000
       (Enhanced.Event (Enhanced.mkMessage "order_filled" (Scenario.order1 "FILLED")))
       (Js.stateOf Scenario.afterFirstPoll)).
Proof.
  exact (proj2 (proj2 (ingestion_only_appends 5000 (Scenario.venue "OPEN") "0xABC"
           (Enhanced.Event (Enhanced.mkMessage "order_filled" (Scenario.order1 "FILLED")))
           (Js.stateOf Scenario.afterFirstPoll)))).
Defined.

(** ** Adding and removing wallets *)

Section RegistryFacts.
Context {V : Type}.
Implicit Types (m : list (string * V)) (k : string) (v : V).

Lemma delete_absent k m : JsMap.get k m = None -> JsMap.delete k m = m.
Proof.
  induction m as [| [k0 v0] m IH]; simpl; [reflexivity |].
  destruct (String.eqb k0 k); [discriminate |]. intros H. now rewrite IH.
Qed.

Lemma delete_set k v m : JsMap.delete k (JsMap.set k v m) = JsMap.delete k m.
Proof.
  induction m as [| [k0 v0] m IH]; simpl.
  - now rewrite String.eqb_refl.
  - destruct (String.eqb k0 k) eqn:E; simpl; rewrite E; [reflexivity |].
    now rewrite IH.
Qed.

Lemma delete_twice k m : JsMap.delete k (JsMap.delete k m) = JsMap.delete k m.
Proof. apply delete_absent, get_delete_eq. Qed.

Lemma length_set k v m :
  length (JsMap.set k v m)
  = match JsMap.get k m with Some _ => length m | None => S (length m) end.
Proof.
  induction m as [| [k0 v0] m IH]; simpl; [reflexivity |].
  destruct (String.eqb k0 k); simpl; [reflexivity |].
  rewrite IH. now destruct (JsMap.get k m).
Qed.

Lemma length_delete k m :
  JsMap.ok m ->
  length (JsMap.delete k m)
  = match JsMap.get k m with Some _ => length m - 1 | None => length m end.
Proof.
  unfold JsMap.ok. induction m as [| [k0 v0] m IH]; simpl; intros Hok;
    [reflexivity |].
  apply NoDup_cons in Hok as [Hfresh Hok].
  destruct (String.eqb k0 k) eqn:E.
  - apply String.eqb_eq in E. subst k0.
    rewrite delete_absent by now apply get_None_keys. lia.
  - simpl. rewrite IH by assumption.
    destruct (JsMap.get k m) eqn:G; [| reflexivity].
    apply get_Some_elem, list_elem_of_In in G.
    destruct m; [contradiction | simpl; lia].
Qed.

End RegistryFacts.

(** X14. Removing undoes adding. However the address is spelled in the
    two calls, removing a wallet that was just registered gives the
    state that removing it from the earlier state gives, which is the
    earlier state itself when the address was new; and removing twice
    is removing once. *)
Theorem removeWallet_undoes_registration :
  forall now a b nick st,
    Js.sameIgnoringCase a b ->
    Enhanced.removeWallet b (Enhanced.registerWallet now a nick st)
    = Enhanced.removeWallet a st
    /\ (JsMap.get (Js.toLowerCase a) (Enhanced.copiedWallets st) = None ->
        Enhanced.removeWallet b (Enhanced.registerWallet now a nick st) = st)
    /\ Enhanced.removeWallet b (Enhanced.removeWallet a st)
       = Enhanced.removeWallet a st.
Proof.
  intros now a b nick st Hab.
  pose proof (toLowerCase_sameIgnoringCase a b Hab) as Hlow.
  unfold Enhanced.removeWallet, Enhanced.registerWallet. simpl.
  rewrite <- Hlow, delete_set, delete_twice.
  split; [reflexivity |]. split; [| reflexivity].
  intros Hnone. rewrite delete_absent by assumption. now destruct st.
Qed.

Lemma removeWallet_undoes_registration_witness :
  Enhanced.removeWallet "0XABCDEF" Scenario.mixedCase = Enhanced.constructor.
Proof.
  apply (proj1 (proj2 (removeWallet_undoes_registration 1000 "0xAbCdEf" "0XABCDEF"
                         "X" Enhanced.constructor
                         ltac:(vm_compute; intuition (auto; lia))))).
  reflexivity.
Defined.

(** X15. An address that is not registered is ignored: [removeWallet]
    and [setWalletActive] return the state they were given; neither
    creates a wallet. *)
Theorem unknown_address_is_ignored :
  forall a flag st,
    JsMap.get (Js.toLowerCase a) (Enhanced.copiedWallets st) = None ->
    Enhanced.removeWallet a st = st
    /\ Enhanced.setWalletActive a flag st = st.
Proof.
  intros a flag st Hnone. split.
  - unfold Enhanced.removeWallet. rewrite delete_absent by assumption.
    now destruct st.
  - unfold Enhanced.setWalletActive. now rewrite Hnone.
Qed.

Lemma unknown_address_is_ignored_witness :
  Enhanced.removeWallet "0xDEAD" Scenario.mixedCase = Scenario.mixedCase
  /\ Enhanced.setWalletActive "0xDEAD" false Scenario.mixedCase = Scenario.mixedCase.
Proof.
  apply (unknown_address_is_ignored "0xDEAD" false Scenario.mixedCase).
  reflexivity.
Defined.

(** X16. The dashboard counts the wallets. In every reachable state
    [totalWallets] is the number of rows; registering an address adds
    one when the address is new and none when it is registered already;
    removing an address takes one off when it is registered and none
    otherwise. *)
Theorem totalWallets_counts_registrations :
  forall now now' a nick st, Enhanced.reachable st ->
    Enhanced.d_totalWallets (Enhanced.getDashboardData now st)
    = length (Enhanced.d_wallets (Enhanced.getDashboardData now st))
    /\ Enhanced.d_totalWallets
         (Enhanced.getDashboardData now (Enhanced.registerWallet now' a nick st))
       = match JsMap.get (Js.toLowerCase a) (Enhanced.copiedWallets st) with
         | Some _ => Enhanced.d_totalWallets (Enhanced.getDashboardData now st)
         | None => S (Enhanced.d_totalWallets (Enhanced.getDashboardData now st))
         end
    /\ Enhanced.d_totalWallets
         (Enhanced.getDashboardData now (Enhanced.removeWallet a st))
       = match JsMap.get (Js.toLowerCase a) (Enhanced.copiedWallets st) with
         | Some _ => Enhanced.d_totalWallets (Enhanced.getDashboardData now st) - 1
         | None => Enhanced.d_totalWallets (Enhanced.getDashboardData now st)
         end.
Proof.
  intros now now' a nick st Hreach. simpl. split; [| split].
  - unfold JsMap.values. now rewrite !length_map.
  - apply length_set.
  - apply length_delete.
    apply (Enhanced.wf_keys _ (EnhancedFacts.wf_reachable st Hreach)).
Qed.

Lemma totalWallets_counts_registrations_witness :
  Enhanced.d_totalWallets
    (Enhanced.getDashboardData 12000
       (Enhanced.removeWallet "0xabcdef" Scenario.mixedCase))
  = match JsMap.get (Js.toLowerCase "0xabcdef")
            (Enhanced.copiedWallets Scenario.mixedCase) with
    | Some _ =>
        Enhanced.d_totalWallets (Enhanced.getDashboardData 12000 Scenario.mixedCase) - 1
    | None => Enhanced.d_totalWallets (Enhanced.getDashboardData 12000 Scenario.mixedCase)
    end.
Proof.
  exact (proj2 (proj2 (totalWallets_counts_registrations 12000 1000 "0xabcdef" "X"
                         Scenario.mixedCase
                         (Enhanced.reach_register 1000 "0xAbCdEf" "X" _
                            Enhanced.reach_constructor)))).
Defined.

(** ** Subscriptions on the push socket *)

Section SocketFacts.

Lemma subscribeAll_None entries : Socket.subscribeAll entries None = None.
Proof.
  induction entries as [| [address wallet] entries IH]; simpl; [reflexivity |].
  now destruct (Wallet.active wallet).
Qed.

Lemma subscribeAll_not_open entries s :
  Socket.isOpen (Socket.readyState s) = false ->
  Socket.subscribeAll entries (Some s) = Some s.
Proof.
  intros Hclosed.
  induction entries as [| [address wallet] entries IH]; simpl; [reflexivity |].
  destruct (Wallet.active wallet); simpl; now rewrite ?Hclosed.
Qed.

Lemma subscribeAll_open entries : forall s,
  Socket.isOpen (Socket.readyState s) = true ->
  Socket.subscribeAll entries (Some s)
  = Some (Socket.mkWebSocket (Socket.readyState s)
            (Socket.sent s ++
               map (fun address =>
                      Socket.mkSubscribe "subscribe" "orders" (Js.toLowerCase address))
                 (Ledger.activeAddresses entries))).
Proof.
  induction entries as [| [address wallet] entries IH]; simpl; intros s Hopen.
  - rewrite app_nil_r. now destruct s.
  - unfold Ledger.activeAddresses. simpl.
    destruct (Wallet.active wallet); simpl.
    + rewrite Hopen, IH by exact Hopen. simpl.
      now rewrite <- app_assoc.
    + now apply IH.
Qed.

End SocketFacts.

(** X17. Subscriptions need an open socket. When there is no socket,
    or the socket is not open (still connecting, closing or closed),
    the subscribe pass of [startWebSocket] sends nothing and raises
    nothing; in particular nothing is sent on the socket that
    [connectWebSocket] has just created, which is what a reconnect
    leaves behind. *)
Theorem subscriptions_need_open_socket :
  forall entries,
    Socket.subscribeAll entries None = None
    /\ (forall s, Socket.isOpen (Socket.readyState s) = false ->
          Socket.subscribeAll entries (Some s) = Some s)
    /\ (forall ws, Socket.subscribeAll entries (Socket.connectWebSocket ws)
                   = Some (Socket.mkWebSocket Socket.CONNECTING []))
    /\ (forall ws, Socket.subscribeAll entries (Socket.closed ws)
                   = Some (Socket.mkWebSocket Socket.CONNECTING [])).
Proof.
  intros entries. split; [apply subscribeAll_None |].
  split; [intros s; apply subscribeAll_not_open |].
  split; intros ws; now apply subscribeAll_not_open.
Qed.

Lemma subscriptions_need_open_socket_witness :
  Socket.subscribeAll (Enhanced.copiedWallets Scenario.mixedCase)
    (Some (Socket.mkWebSocket Socket.CLOSING []))
  = Some (Socket.mkWebSocket Socket.CLOSING []).
Proof.
  apply (proj1 (proj2 (subscriptions_need_open_socket
                         (Enhanced.copiedWallets Scenario.mixedCase)))).
  reflexivity.
Defined.

(** X18. On an open socket the subscribe pass sends one subscribe
    message on channel orders for every active wallet, in Map order,
    after whatever was sent before, and none for a paused wallet; in a
    reachable state the trader of each message is the wallet's key. *)
Theorem subscribeAll_covers_active_wallets :
  forall st s, Enhanced.reachable st ->
    Socket.isOpen (Socket.readyState s) = true ->
    Socket.subscribeAll (Enhanced.copiedWallets st) (Some s)
    = Some (Socket.mkWebSocket Socket.OPEN
              (Socket.sent s ++
                 map (Socket.mkSubscribe "subscribe" "orders")
                   (Ledger.activeAddresses (Enhanced.copiedWallets st)))).
Proof.
  intros st s Hreach Hopen. rewrite subscribeAll_open by assumption.
  destruct s as [r sent]. simpl in *. destruct r; try discriminate.
  do 3 f_equal. apply map_ext_in. intros k Hk.
  unfold Ledger.activeAddresses in Hk.
  apply in_map_iff in Hk as ([k' w] & <- & Hin). apply filter_In in Hin as [Hin _].
  apply list_elem_of_In in Hin.
  destruct (LedgerFacts.owned_reachable st Hreach k' w Hin) as (_ & Hlow & _).
  simpl. now rewrite Hlow.
Qed.

Lemma subscribeAll_covers_active_wallets_witness :
  Socket.subscribeAll (Enhanced.copiedWallets Scenario.mixedCase)
    (Some (Socket.mkWebSocket Socket.OPEN []))
  = Some (Socket.mkWebSocket Socket.OPEN
            [Socket.mkSubscribe "subscribe" "orders" "0xabcdef"]).
Proof.
  apply (subscribeAll_covers_active_wallets Scenario.mixedCase
           (Socket.mkWebSocket Socket.OPEN [])
           (Enhanced.reach_register 1000 "0xAbCdEf" "X" _ Enhanced.reach_constructor)).
  reflexivity.
Defined.

(** ** Bookkeeping of the server *)

Module ServerLedgerFacts.
Import Server.

(** *** Trades are never rewritten *)

Lemma keeps_refl st : Ledger.serverKeeps st st.
Proof. unfold Ledger.serverKeeps. repeat split; reflexivity. Qed.

Lemma keeps_trans st1 st2 st3 :
  Ledger.serverKeeps st1 st2 -> Ledger.serverKeeps st2 st3 ->
  Ledger.serverKeeps st1 st3.
Proof.
  intros (A1 & B1 & C1 & D1) (A2 & B2 & C2 & D2). unfold Ledger.serverKeeps.
  split; [now transitivity (tradeObjects st2) |].
  split; [now transitivity (tradeHistory st2) |]. split; lia.
Qed.

Lemma keeps_processOrder now order key st :
  Ledger.serverKeeps st (processOrder now order key st).
Proof.
  unfold processOrder.
  destruct (JsMap.get key (copiedWallets st)) as [wallet |]; [| apply keeps_refl].
  destruct (findTrade _ _ _); [apply keeps_refl |].
  unfold Ledger.serverKeeps. simpl.
  split; [now apply prefix_app_r |]. split; [now apply prefix_app_r |].
  split; [lia |]. destruct (String.eqb _ "OPEN"); lia.
Qed.

Lemma keeps_processAll now key orders : forall st,
  Ledger.serverKeeps st
    (fold_left (fun s order => processOrder now order key s) orders st).
Proof.
  induction orders as [| o orders IH]; simpl; intros st; [apply keeps_refl |].
  eapply keeps_trans; [apply keeps_processOrder | apply IH].
Qed.

Lemma keeps_pollWalletOrders now net a st :
  Ledger.serverKeeps st (pollWalletOrders now net a st).
Proof.
  unfold pollWalletOrders.
  destruct (JsMap.get _ (copiedWallets st)) as [found |]; [| apply keeps_refl].
  set (orders := map _ _).
  exact (keeps_processAll now (Js.toLowerCase a) orders st).
Qed.

Lemma keeps_addWallet now net a nick st :
  Ledger.serverKeeps st (addWallet now net a nick st).
Proof.
  unfold addWallet.
  match goal with |- Ledger.serverKeeps _ (startPolling (pollWalletOrders _ _ _ ?s)) =>
    pose proof (keeps_pollWalletOrders now net a s) as H end.
  exact H.
Qed.

(** *** The counters *)

Lemma openTrades_app objects extra :
  Ledger.openTrades (objects ++ extra)
  = Ledger.openTrades objects ++ Ledger.openTrades extra.
Proof. unfold Ledger.openTrades. apply List.filter_app. Qed.

Lemma server_counted_processOrder now order key st :
  Ledger.serverCounted st -> Ledger.serverCounted (processOrder now order key st).
Proof.
  intros Hc. unfold processOrder.
  destruct (JsMap.get key (copiedWallets st)) as [wallet |]; [| assumption].
  destruct (findTrade _ _ _); [assumption |].
  destruct Hc as (Hh & Ht & Ha & Hp & Hl). unfold Ledger.serverCounted. simpl.
  rewrite openTrades_app, !length_app. simpl.
  rewrite Nat.add_1_r, seq_S, Hh, Ht, Ha. simpl.
  split; [reflexivity |]. split; [lia |]. split; [| now split].
  unfold Ledger.openTrades. simpl.
  destruct (String.eqb (Order.status order) "OPEN"); simpl; lia.
Qed.

Lemma server_counted_pollWalletOrders now net a st :
  Ledger.serverCounted st -> Ledger.serverCounted (pollWalletOrders now net a st).
Proof.
  intros Hc. unfold pollWalletOrders.
  destruct (JsMap.get _ (copiedWallets st)) as [found |]; [| assumption].
  set (orders := map _ _). clearbody orders.
  assert (Hfold : Ledger.serverCounted
            (fold_left (fun s order => processOrder now order (Js.toLowerCase a) s)
               orders st)).
  { revert st Hc. induction orders as [| o orders IH]; simpl; intros st Hc;
      [assumption |].
    apply IH. now apply server_counted_processOrder. }
  exact Hfold.
Qed.

Lemma server_counted_reachable st : reachable st -> Ledger.serverCounted st.
Proof.
  induction 1 as [| now net a nick st _ IH | now net a st _ IH
                 | a st _ IH | a flag st _ IH].
  - unfold Ledger.serverCounted. simpl. now repeat split.
  - unfold addWallet.
    match goal with |- Ledger.serverCounted (startPolling ?s) =>
      assert (Hs : Ledger.serverCounted s); [| exact Hs] end.
    apply server_counted_pollWalletOrders. exact IH.
  - now apply server_counted_pollWalletOrders.
  - exact IH.
  - unfold setWalletActive.
    now destruct (JsMap.get _ (copiedWallets st)).
Qed.

(** *** The statistics on the wallets *)

Lemma profitableCount_zero objects refs : profitableCount objects refs = 0.
Proof.
  unfold profitableCount. induction refs as [| r refs IH]; simpl; [reflexivity |].
  now destruct (objects !! r).
Qed.

Lemma others_processOrder now order key st k w :
  (k, w) ∈ copiedWallets (processOrder now order key st) ->
  k = key \/ (k, w) ∈ copiedWallets st.
Proof.
  unfold processOrder.
  destruct (JsMap.get key (copiedWallets st)) as [wallet |]; [| now right].
  destruct (findTrade _ _ _); [now right |]. simpl. intros Hin.
  apply elem_adjust_inv in Hin as [Hin | [-> _]]; [now right | now left].
Qed.

Lemma others_processAll now key orders : forall st k w,
  (k, w) ∈ copiedWallets
             (fold_left (fun s order => processOrder now order key s) orders st) ->
  k = key \/ (k, w) ∈ copiedWallets st.
Proof.
  induction orders as [| o orders IH]; simpl; intros st k w Hin; [now right |].
  apply IH in Hin as [-> | Hin]; [now left |].
  now apply others_processOrder in Hin.
Qed.

Lemma fresh_pollWalletOrders now net a st :
  wf st -> Ledger.serverStatsFresh st ->
  Ledger.serverStatsFresh (pollWalletOrders now net a st).
Proof.
  intros Hwf Hf. unfold pollWalletOrders.
  destruct (JsMap.get _ (copiedWallets st)) as [found |]; [| assumption].
  set (orders := map _ _). clearbody orders.
  pose proof (ServerFacts.wf_processAll now (Js.toLowerCase a) orders st Hwf) as Hwf'.
  intros k w Hin. simpl in Hin.
  apply elem_adjust in Hin as [[Hne Hin] | [-> (w0 & Hw0 & ->)]];
    [| | apply (wf_keys _ Hwf')].
  - apply others_processAll in Hin as [-> | Hin]; [congruence |].
    exact (Hf k w Hin).
  - simpl. split; [reflexivity | apply profitableCount_zero].
Qed.

Lemma fresh_reachable st : reachable st -> Ledger.serverStatsFresh st.
Proof.
  induction 1 as [| now net a nick st Hreach IH | now net a st Hreach IH
                 | a st _ IH | a flag st _ IH].
  - intros k w Hin. now apply elem_of_nil in Hin.
  - pose proof (ServerFacts.server_wf_reachable st Hreach) as Hwf.
    unfold addWallet.
    match goal with |- Ledger.serverStatsFresh (startPolling (pollWalletOrders _ _ _ ?s)) =>
      assert (Hs : wf s /\ Ledger.serverStatsFresh s) end.
    { split.
      - destruct Hwf as [Hk Hr Hi]. split; simpl.
        + now apply ok_set.
        + intros k w ref Hin Href.
          apply elem_set_inv in Hin as [Hin | [_ ->]]; [now apply (Hr k w) |].
          now apply elem_of_nil in Href.
        + intros k w Hin.
          apply elem_set_inv in Hin as [Hin | [_ ->]]; [now apply (Hi k w) |].
          apply NoDup_nil. exact I.
      - intros k w Hin. simpl in Hin.
        apply elem_set_inv in Hin as [Hin | [_ ->]]; [exact (IH k w Hin) |].
        now split. }
    destruct Hs as [Hwfs Hfs].
    exact (fresh_pollWalletOrders now net a _ Hwfs Hfs).
  - apply fresh_pollWalletOrders; [now apply ServerFacts.server_wf_reachable | exact IH].
  - intros k w Hin. simpl in Hin. apply elem_delete in Hin as [_ Hin].
    exact (IH k w Hin).
  - unfold setWalletActive.
    destruct (JsMap.get _ (copiedWallets st)) as [found |]; [| exact IH].
    intros k w Hin. simpl in Hin.
    apply elem_adjust_inv in Hin as [Hin | [-> (w0 & Hw0 & ->)]];
      [exact (IH k w Hin) |].
    exact (IH _ w0 Hw0).
Qed.

(** *** A poll touches one wallet *)

Lemma server_get_processOrder_other now order key st k :
  k <> key ->
  JsMap.get k (copiedWallets (processOrder now order key st))
  = JsMap.get k (copiedWallets st).
Proof.
  intros Hne. unfold processOrder.
  destruct (JsMap.get key (copiedWallets st)) as [wallet |]; [| reflexivity].
  destruct (findTrade _ _ _); [reflexivity |]. simpl.
  apply get_adjust_ne. congruence.
Qed.

Lemma server_get_processAll_other now key orders k : forall st,
  k <> key ->
  JsMap.get k (copiedWallets
                 (fold_left (fun s order => processOrder now order key s) orders st))
  = JsMap.get k (copiedWallets st).
Proof.
  induction orders as [| o orders IH]; simpl; intros st Hne; [reflexivity |].
  rewrite IH by assumption. now apply server_get_processOrder_other.
Qed.

End ServerLedgerFacts.

(** X19. The server never rewrites or drops a trade. Whatever
    [addWallet], [pollWalletOrders], [removeWallet] or [setWalletActive]
    does, the trade store and the history afterwards begin with what
    they held before (so a recorded trade keeps the status it was
    detected with), and [totalTrades] and [activeTrades] do not go
    down. *)
Theorem server_never_rewrites_trades :
  forall now net a nick flag st st',
    (st' = Server.addWallet now net a nick st
     \/ st' = Server.pollWalletOrders now net a st
     \/ st' = Server.removeWallet a st
     \/ st' = Server.setWalletActive a flag st) ->
    Server.tradeObjects st `prefix_of` Server.tradeObjects st'
    /\ Server.tradeHistory st `prefix_of` Server.tradeHistory st'
    /\ (Stats.totalTrades (Server.stats st) <= Stats.totalTrades (Server.stats st'))%Z
    /\ (Stats.activeTrades (Server.stats st) <= Stats.activeTrades (Server.stats st'))%Z.
Proof.
  intros now net a nick flag st st' [-> | [-> | [-> | ->]]].
  - apply ServerLedgerFacts.keeps_addWallet.
  - apply ServerLedgerFacts.keeps_pollWalletOrders.
  - exact (ServerLedgerFacts.keeps_refl st).
  - unfold Server.setWalletActive.
    destruct (JsMap.get _ (Server.copiedWallets st));
      exact (ServerLedgerFacts.keeps_refl st).
Qed.

Lemma server_never_rewrites_trades_witness :
  Server.tradeObjects
    (Server.addWallet 1000 (Scenario.venue "OPEN") "0xABC" "X" Server.initial)
    `prefix_of`
    Server.tradeObjects
      (Server.pollWalletOrders 31000 (Scenario.venue "FILLED") "0xABC"
         (Server.addWallet 1000 (Scenario.venue "OPEN") "0xABC" "X" Server.initial)).
Proof.
  apply (server_never_rewrites_trades 31000 (Scenario.venue "FILLED") "0xABC" "X" true
           (Server.addWallet 1000 (Scenario.venue "OPEN") "0xABC" "X" Server.initial)
           _ (or_intror (or_introl eq_refl))).
Defined.

(** X20. The server's counters follow its trade store. In every
    reachable state [totalTrades] is the number of trade objects, the
    history lists them once each in creation order, [activeTrades] is
    the number of trades that were OPEN when they were detected, and
    [profitableTrades] and [totalPnl] are 0. *)
Theorem server_counters_follow_trade_store :
  forall st, Server.reachable st ->
    Server.tradeHistory st = seq 0 (length (Server.tradeObjects st))
    /\ Stats.totalTrades (Server.stats st)
       = Z.of_nat (length (Server.tradeObjects st))
    /\ Stats.activeTrades (Server.stats st)
       = Z.of_nat (length (List.filter
                             (fun x => String.eqb (Server.t_status x) "OPEN")
                             (Server.tradeObjects st)))
    /\ Stats.profitableTrades (Server.stats st) = 0%Z
    /\ Stats.totalPnl (Server.stats st) = 0%Z.
Proof. intros st Hreach. exact (ServerLedgerFacts.server_counted_reachable st Hreach). Qed.

Lemma server_counters_follow_trade_store_witness :
  Stats.activeTrades
    (Server.stats
       (Server.addWallet 1000 (Scenario.venue "OPEN") "0xABC" "X" Server.initial))
  = Z.of_nat
      (length (List.filter (fun x => String.eqb (Server.t_status x) "OPEN")
                 (Server.tradeObjects
                    (Server.addWallet 1000 (Scenario.venue "OPEN") "0xABC" "X"
                       Server.initial)))).
Proof.
  exact (proj1 (proj2 (proj2 (server_counters_follow_trade_store _
           (Server.reach_addWallet 1000 (Scenario.venue "OPEN") "0xABC" "X" _
              Server.reach_initial))))).
Defined.

(** X21. The server's dashboard rows are up to date. In every reachable
    state the statistics stored on a wallet agree with its trade list:
    each row shows the length of the wallet's list as its trade count
    and 0 profitable trades. *)
Theorem server_rows_agree_with_trade_lists :
  forall now st, Server.reachable st ->
    Forall2 (fun wallet view =>
               Server.v_trades view = length (Server.trades wallet)
               /\ Server.v_profitable view = 0)
      (JsMap.values (Server.copiedWallets st))
      (Server.d_wallets (Server.getDashboardData now st)).
Proof.
  intros now st Hreach. simpl. apply Forall2_map_self. intros wallet Hin.
  apply elem_values in Hin as [k Hk]. simpl.
  exact (ServerLedgerFacts.fresh_reachable st Hreach k wallet Hk).
Qed.

Lemma server_rows_agree_with_trade_lists_witness :
  Forall2 (fun wallet view =>
             Server.v_trades view = length (Server.trades wallet)
             /\ Server.v_profitable view = 0)
    (JsMap.values
       (Server.copiedWallets
          (Server.addWallet 1000 (Scenario.venue "OPEN") "0xABC" "X" Server.initial)))
    (Server.d_wallets
       (Server.getDashboardData 2000
          (Server.addWallet 1000 (Scenario.venue "OPEN") "0xABC" "X" Server.initial))).
Proof.
  exact (server_rows_agree_with_trade_lists 2000 _
           (Server.reach_addWallet 1000 (Scenario.venue "OPEN") "0xABC" "X" _
              Server.reach_initial)).
Defined.

(** X22. A poll of the server touches the polled wallet only. Polling
    an address that is not registered changes nothing, whatever the
    venue answers; polling a registered address leaves the record under
    every other key as it was, also when the answer holds orders of
    other traders. *)
Theorem server_poll_touches_polled_wallet_only :
  forall now net a st,
    (JsMap.get (Js.toLowerCase a) (Server.copiedWallets st) = None ->
     Server.pollWalletOrders now net a st = st)
    /\ (forall k, k <> Js.toLowerCase a ->
          JsMap.get k (Server.copiedWallets (Server.pollWalletOrders now net a st))
          = JsMap.get k (Server.copiedWallets st)).
Proof.
  intros now net a st. unfold Server.pollWalletOrders. split.
  - intros Hnone. now rewrite Hnone.
  - intros k Hne.
    destruct (JsMap.get (Js.toLowerCase a) (Server.copiedWallets st)); [| reflexivity].
    simpl. rewrite get_adjust_ne by congruence.
    now apply ServerLedgerFacts.server_get_processAll_other.
Qed.

Lemma server_poll_touches_polled_wallet_only_witness :
  Server.pollWalletOrders 1000 (Scenario.venue "OPEN") "0xABC" Server.initial
  = Server.initial.
Proof.
  apply (proj1 (server_poll_touches_polled_wallet_only 1000 (Scenario.venue "OPEN")
                  "0xABC" Server.initial)).
  reflexivity.
Defined.

(** ** Where a poll of the copy trader files its orders *)

Module RoutingFacts.
Import Enhanced.

Lemma get_processOrder_other now order st k :
  Js.toLowerCase (Order.trader order) <> k ->
  JsMap.get k (copiedWallets (Js.stateOf (processOrder now order st)))
  = JsMap.get k (copiedWallets st).
Proof.
  intros Hne. unfold processOrder.
  destruct (JsMap.get _ (copiedWallets st)) as [wallet |]; [| reflexivity].
  destruct (findTrade _ _ _); [reflexivity |].
  rewrite ReRegisterFacts.stateOf_recorded. simpl. now apply get_adjust_ne.
Qed.

Lemma get_forEach_other now orders k : forall st,
  (forall o, o ∈ orders -> Js.toLowerCase (Order.trader o) <> k) ->
  JsMap.get k (copiedWallets (Js.stateOf (Js.forEach (processOrder now) orders st)))
  = JsMap.get k (copiedWallets st).
Proof.
  induction orders as [| o orders IH]; simpl; intros st Hne; [reflexivity |].
  assert (Ho : Js.toLowerCase (Order.trader o) <> k)
    by (apply Hne, elem_of_cons; now left).
  pose proof (get_processOrder_other now o st k Ho) as Hstep.
  destruct (processOrder now o st) as [s' | e s']; simpl in *.
  - rewrite IH; [assumption |].
    intros o' Ho'. apply Hne, elem_of_cons. now right.
  - assumption.
Qed.

Lemma findTrade_absent objects orderId refs :
  orderId ∉ tradeIds objects refs -> findTrade objects orderId refs = None.
Proof.
  intros Hnot. destruct (findTrade objects orderId refs) as [ref |] eqn:E;
    [| reflexivity].
  apply EnhancedFacts.findTrade_Some in E as [_ Hin]. contradiction.
Qed.

(** Orders with fresh, pairwise different ids for one registered
    wallet are all recorded, in order. *)
Lemma forEach_records_all now orders : forall st w key,
  wf st -> testMode st = true ->
  JsMap.get key (copiedWallets st) = Some w ->
  (forall o, o ∈ orders -> Js.toLowerCase (Order.trader o) = key) ->
  NoDup (map Order.id orders) ->
  (forall o, o ∈ orders -> Order.id o ∉ tradeIds (tradeObjects st) (Wallet.trades w)) ->
  exists st' w',
    Js.forEach (processOrder now) orders st = Js.Returned st'
    /\ JsMap.get key (copiedWallets st') = Some w'
    /\ tradeIds (tradeObjects st') (Wallet.trades w')
       = tradeIds (tradeObjects st) (Wallet.trades w) ++ map Order.id orders
    /\ Wallet.trades w'
       = Wallet.trades w ++ seq (length (tradeObjects st)) (length orders)
    /\ tradeHistory st'
       = tradeHistory st ++ seq (length (tradeObjects st)) (length orders)
    /\ Stats.totalTrades (stats st')
       = (Stats.totalTrades (stats st) + Z.of_nat (length orders))%Z
    /\ isMonitoring st' = isMonitoring st.
Proof.
  induction orders as [| o orders IH]; intros st w key Hwf Htest Hget Hkey Hnd Hnew.
  - exists st, w. simpl. rewrite !app_nil_r, Z.add_0_r. now repeat split.
  - assert (Ho : o ∈ o :: orders) by (apply elem_of_cons; now left).
    pose proof (Hkey o Ho) as Hko.
    pose proof (findTrade_absent _ _ _ (Hnew o Ho)) as Hfind.
    simpl in Hnd. apply NoDup_cons in Hnd as [Hfresh Hnd].
    assert (Hstep : processOrder now o st = Js.Returned (recordTrade now o st)).
    { unfold processOrder. now rewrite Hko, Hget, Hfind, Htest. }
    assert (Hwf' : wf (recordTrade now o st)).
    { apply (EnhancedFacts.wf_recordTrade now o st w); [assumption | | assumption].
      now rewrite Hko. }
    assert (Hget' : JsMap.get key (copiedWallets (recordTrade now o st))
                    = Some (Wallet.pushTrade (length (tradeObjects st)) w)).
    { simpl. now rewrite Hko, get_adjust_eq, Hget. }
    assert (Hids : tradeIds (tradeObjects (recordTrade now o st))
                     (Wallet.trades (Wallet.pushTrade (length (tradeObjects st)) w))
                   = tradeIds (tradeObjects st) (Wallet.trades w) ++ [Order.id o]).
    { simpl. rewrite EnhancedFacts.tradeIds_app, EnhancedFacts.tradeIds_fresh.
      rewrite EnhancedFacts.tradeIds_grow; [reflexivity |].
      intros ref Href. apply (wf_refs st Hwf key w); [| assumption].
      now apply get_Some_elem. }
    destruct (IH (recordTrade now o st) _ key Hwf' Htest Hget')
      as (st' & w' & Hrun & Hw' & Hids' & Htr' & Hh' & Ht' & Hm').
    + intros o' Ho'. apply Hkey, elem_of_cons. now right.
    + assumption.
    + intros o' Ho'. rewrite Hids. intros Hin.
      apply elem_of_app in Hin as [Hin | Hin].
      * apply (Hnew o'); [apply elem_of_cons; now right | assumption].
      * apply list_elem_of_singleton in Hin. apply Hfresh. rewrite <- Hin.
        apply list_elem_of_In, in_map, list_elem_of_In. assumption.
    + exists st', w'. simpl Js.forEach. rewrite Hstep.
      split; [assumption |]. split; [assumption |].
      split; [rewrite Hids', Hids, <- app_assoc; reflexivity |].
      simpl in Htr', Hh', Ht', Hm'. rewrite length_app in Htr', Hh'.
      simpl in Htr', Hh'. rewrite Nat.add_1_r in Htr', Hh'.
      split; [rewrite Htr', <- app_assoc; reflexivity |].
      split; [rewrite Hh', <- app_assoc; reflexivity |].
      split; [| assumption].
      rewrite Ht'. simpl length. lia.
Qed.

End RoutingFacts.

(** X23. The copy trader files an order under its trader, not under
    the address that was polled. A poll leaves every wallet alone whose
    key is not the lower-cased trader of some order in the answer; and
    when the answer begins with an order of a registered trader, that
    trader's wallet holds the order's id afterwards, whichever address
    was polled. *)
Theorem poll_files_orders_by_trader :
  forall now net a st,
    (forall k,
       (forall o, o ∈ Api.getWalletOrders net a ->
                  Js.toLowerCase (Order.trader o) <> k) ->
       JsMap.get k (Enhanced.copiedWallets
                      (Js.stateOf (Enhanced.pollWalletOrders now net a st)))
       = JsMap.get k (Enhanced.copiedWallets st))
    /\
    (forall order rest,
       Enhanced.reachable st ->
       Api.getWalletOrders net a = order :: rest ->
       is_Some (JsMap.get (Js.toLowerCase (Order.trader order))
                  (Enhanced.copiedWallets st)) ->
       exists w,
         JsMap.get (Js.toLowerCase (Order.trader order))
           (Enhanced.copiedWallets
              (Js.stateOf (Enhanced.pollWalletOrders now net a st))) = Some w
         /\ Order.id order ∈
              Enhanced.tradeIds
                (Enhanced.tradeObjects
                   (Js.stateOf (Enhanced.pollWalletOrders now net a st)))
                (Wallet.trades w)).
Proof.
  intros now net a st. split.
  - intros k Hne. unfold Enhanced.pollWalletOrders.
    now apply RoutingFacts.get_forEach_other.
  - intros order rest Hreach Horders Hreg.
    pose proof (EnhancedFacts.wf_reachable st Hreach) as Hwf.
    unfold Enhanced.pollWalletOrders. rewrite Horders.
    apply (TickFacts.forEach_head
             (fun s => Enhanced.wf s /\
                exists w, JsMap.get (Js.toLowerCase (Order.trader order))
                            (Enhanced.copiedWallets s) = Some w /\
                          Order.id order ∈
                            Enhanced.tradeIds (Enhanced.tradeObjects s)
                              (Wallet.trades w))).
    + intros y s' [Hwf' Hhas]. split; [now apply EnhancedFacts.wf_processOrder |].
      now apply TickFacts.processOrder_keeps_id.
    + split; [now apply EnhancedFacts.wf_processOrder |].
      now apply EnhancedFacts.processOrder_records.
Qed.

Lemma poll_files_orders_by_trader_witness :
  JsMap.get "0xabcdef"
    (Enhanced.copiedWallets
       (Js.stateOf (Enhanced.pollWalletOrders 2000 (Scenario.venue "OPEN") "0xAbCdEf"
                      Scenario.mixedCase)))
  = JsMap.get "0xabcdef" (Enhanced.copiedWallets Scenario.mixedCase).
Proof.
  apply (proj1 (poll_files_orders_by_trader 2000 (Scenario.venue "OPEN") "0xAbCdEf"
                  Scenario.mixedCase)).
  intros o Ho. apply list_elem_of_singleton in Ho. subst o. discriminate.
Defined.

(** X24. The first poll of a wallet records every order. When the
    venue's answer for an address holds only orders of that trader,
    with pairwise different ids, [addWallet] returns without error with
    monitoring on; the wallet's trade list then holds exactly the ids
    of the answer, in the order of the answer, as newly created trade
    objects; the history is extended by the same trades and
    [totalTrades] goes up by their number. This is so whether or not
    the address was registered before, so registering an address again
    counts its orders once more. *)
Theorem first_poll_records_every_order :
  forall now net a nick st,
    Enhanced.reachable st ->
    (forall o, o ∈ Api.getWalletOrders net a ->
               Js.toLowerCase (Order.trader o) = Js.toLowerCase a) ->
    NoDup (map Order.id (Api.getWalletOrders net a)) ->
    exists st' w,
      Enhanced.addWallet now net a nick st = Js.Returned st'
      /\ Enhanced.isMonitoring st' = true
      /\ JsMap.get (Js.toLowerCase a) (Enhanced.copiedWallets st') = Some w
      /\ Enhanced.tradeIds (Enhanced.tradeObjects st') (Wallet.trades w)
         = map Order.id (Api.getWalletOrders net a)
      /\ Wallet.trades w
         = seq (length (Enhanced.tradeObjects st))
             (length (Api.getWalletOrders net a))
      /\ Enhanced.tradeHistory st'
         = Enhanced.tradeHistory st
           ++ seq (length (Enhanced.tradeObjects st))
                (length (Api.getWalletOrders net a))
      /\ Stats.totalTrades (Enhanced.stats st')
         = (Stats.totalTrades (Enhanced.stats st)
            + Z.of_nat (length (Api.getWalletOrders net a)))%Z.
Proof.
  intros now net a nick st Hreach Hkey Hnd.
  pose proof (EnhancedFacts.wf_reachable st Hreach) as Hwf.
  destruct (LedgerFacts.counted_reachable st Hreach) as (_ & _ & _ & _ & Htest & _).
  destruct (RoutingFacts.forEach_records_all now (Api.getWalletOrders net a)
              (Enhanced.registerWallet now a nick st)
              (Wallet.mk nick (Js.toLowerCase a) true now []) (Js.toLowerCase a))
    as (st1 & w & Hrun & Hw & Hids & Htr & Hh & Ht & Hm).
  - now apply EnhancedFacts.wf_registerWallet.
  - exact Htest.
  - simpl. apply get_set_eq.
  - exact Hkey.
  - exact Hnd.
  - intros o _ Hin. simpl in Hin. now apply elem_of_nil in Hin.
  - exists (Enhanced.startMonitoring st1), w.
    unfold Enhanced.addWallet, Enhanced.pollWalletOrders. rewrite Hrun.
    rewrite TickFacts.startMonitoring_registered_monitoring.
    simpl in *. repeat split; assumption.
Qed.

Lemma first_poll_records_every_order_witness :
  exists st' w,
    Enhanced.addWallet 1000 (Scenario.venue "OPEN") "0xABC" "X" Enhanced.constructor
    = Js.Returned st'
    /\ Enhanced.isMonitoring st' = true
    /\ JsMap.get (Js.toLowerCase "0xABC") (Enhanced.copiedWallets st') = Some w
    /\ Enhanced.tradeIds (Enhanced.tradeObjects st') (Wallet.trades w)
       = map Order.id (Api.getWalletOrders (Scenario.venue "OPEN") "0xABC")
    /\ Wallet.trades w
       = seq (length (Enhanced.tradeObjects Enhanced.constructor))
           (length (Api.getWalletOrders (Scenario.venue "OPEN") "0xABC"))
    /\ Enhanced.tradeHistory st'
       = Enhanced.tradeHistory Enhanced.constructor
         ++ seq (length (Enhanced.tradeObjects Enhanced.constructor))
              (length (Api.getWalletOrders (Scenario.venue "OPEN") "0xABC"))
    /\ Stats.totalTrades (Enhanced.stats st')
       = (Stats.totalTrades (Enhanced.stats Enhanced.constructor)
          + Z.of_nat (length (Api.getWalletOrders (Scenario.venue "OPEN") "0xABC")))%Z.
Proof.
  apply (first_poll_records_every_order 1000 (Scenario.venue "OPEN") "0xABC" "X"
           Enhanced.constructor Enhanced.reach_constructor).
  - intros o Ho. apply list_elem_of_singleton in Ho. subst o. reflexivity.
  - apply NoDup_singleton.
Defined.

(** ** The name on a trade *)

Module LabelFacts.
Import Enhanced.

Lemma labelled_recordTrade now order st :
  wf st -> Ledger.labelled st -> Ledger.labelled (recordTrade now order st).
Proof.
  intros Hwf Hl k w ref Hin Href. simpl in Hin. simpl.
  apply elem_adjust in Hin as [[_ Hin] | [-> (w0 & Hw0 & ->)]];
    [| | apply (wf_keys st Hwf)].
  - destruct (Hl k w ref Hin Href) as (x & Hx & Hn).
    exists x. split; [now apply lookup_app_l_Some | assumption].
  - simpl in Href. apply elem_of_app in Href as [Href | Href].
    + destruct (Hl _ w0 ref (get_Some_elem _ _ _ Hw0) Href) as (x & Hx & Hn).
      exists x. split; [now apply lookup_app_l_Some | assumption].
    + apply list_elem_of_singleton in Href. subst ref.
      exists (createTradeRecord now order st). split.
      * rewrite lookup_app_r by lia. now rewrite Nat.sub_diag.
      * simpl. unfold nicknameOf. now rewrite Hw0.
Qed.

Lemma labelled_processOrder now order st :
  wf st /\ Ledger.labelled st ->
  wf (Js.stateOf (processOrder now order st))
  /\ Ledger.labelled (Js.stateOf (processOrder now order st)).
Proof.
  intros [Hwf Hl]. split; [now apply EnhancedFacts.wf_processOrder |].
  unfold processOrder.
  destruct (JsMap.get _ (copiedWallets st)) as [wallet |]; [| assumption].
  destruct (findTrade _ _ _); [assumption |].
  rewrite ReRegisterFacts.stateOf_recorded. now apply labelled_recordTrade.
Qed.

Lemma labelled_updateOrderStatus now orderId status st :
  Ledger.labelled st ->
  Ledger.labelled (Js.stateOf (updateOrderStatus now orderId status st)).
Proof.
  intros Hl. unfold updateOrderStatus.
  destruct (findInWallets _ _ _) as [ref |]; [| assumption].
  intros k w r Hin Hr. simpl in Hin. simpl.
  destruct (Hl k w r Hin Hr) as (x & Hx & Hn).
  destruct (decide (ref = r)) as [-> | Hne].
  - exists (Trade.setStatus status now x). rewrite list_lookup_alter_eq, Hx.
    now split.
  - exists x. rewrite list_lookup_alter_ne by assumption. now split.
Qed.

Lemma labelled_onSocketMessage now frame st :
  wf st -> Ledger.labelled st -> Ledger.labelled (onSocketMessage now frame st).
Proof.
  intros Hwf Hl. destruct frame as [| msg]; simpl; [assumption |].
  unfold handleWebSocketMessage.
  destruct (_ || _); [now apply labelled_processOrder |].
  destruct (String.eqb (type msg) "order_filled");
    [now apply labelled_updateOrderStatus |].
  destruct (String.eqb (type msg) "order_cancelled");
    [now apply labelled_updateOrderStatus | assumption].
Qed.

Lemma labelled_reachable st : reachable st -> Ledger.labelled st.
Proof.
  induction 1 as [| now a nick st Hreach IH | now net a st Hreach IH | st _ IH
                 | now frame st Hreach IH | a st _ IH | a flag st _ IH].
  - intros k w ref Hin. now apply elem_of_nil in Hin.
  - intros k w ref Hin Href. simpl in Hin.
    apply elem_set_inv in Hin as [Hin | [-> ->]]; [exact (IH k w ref Hin Href) |].
    now apply elem_of_nil in Href.
  - pose proof (EnhancedFacts.wf_reachable st Hreach) as Hwf.
    unfold pollWalletOrders.
    apply (forEach_invariant (fun s => wf s /\ Ledger.labelled s));
      [| now split].
    intros order s. apply labelled_processOrder.
  - exact IH.
  - apply labelled_onSocketMessage; [now apply EnhancedFacts.wf_reachable | exact IH].
  - intros k w ref Hin. simpl in Hin. apply elem_delete in Hin as [_ Hin].
    exact (IH k w ref Hin).
  - unfold setWalletActive.
    destruct (JsMap.get _ (copiedWallets st)) as [found |]; [| exact IH].
    intros k w ref Hin. simpl in Hin.
    apply elem_adjust_inv in Hin as [Hin | [-> (w0 & Hw0 & ->)]];
      [exact (IH k w ref Hin) |].
    exact (IH _ w0 ref Hw0).
Qed.

End LabelFacts.

(** X25. The name on a trade is the wallet's. In every reachable state
    each trade on a wallet's list carries that wallet's nickname, or
    Unknown when the nickname is the empty string; the Unknown that
    [createTradeRecord] keeps for a missing wallet is never used,
    because [processOrder] has returned by then. *)
Theorem trades_carry_wallet_nickname :
  forall st, Enhanced.reachable st ->
    forall k w ref, (k, w) ∈ Enhanced.copiedWallets st -> ref ∈ Wallet.trades w ->
      exists x, Enhanced.tradeObjects st !! ref = Some x
                /\ Trade.nickname x
                   = if String.eqb (Wallet.nickname w) "" then "Unknown"
                     else Wallet.nickname w.
Proof. intros st Hreach. exact (LabelFacts.labelled_reachable st Hreach). Qed.

Lemma trades_carry_wallet_nickname_witness :
  exists x, Enhanced.tradeObjects (Js.stateOf Scenario.afterFirstPoll) !! 0 = Some x
            /\ Trade.nickname x = "X".
Proof.
  apply (trades_carry_wallet_nickname (Js.stateOf Scenario.afterFirstPoll)
           (Enhanced.reach_startMonitoring _
              (Enhanced.reach_poll 1000 (Scenario.venue "OPEN") "0xABC" _
                 (Enhanced.reach_register 1000 "0xABC" "X" _
                    Enhanced.reach_constructor)))
           "0xabc" (Wallet.mk "X" "0xabc" true 1000 [0]) 0).
  - vm_compute. apply elem_of_cons. now left.
  - apply elem_of_cons. now left.
Defined.


